(** * Format negotiation and download dispatch of the video downloader

    A shallow embedding of the two route handlers of the application,
    [src/app/api/analyze/route.ts] (metadata analysis and the rendition
    catalog) and the download route (dispatch, filename sanitization,
    stream relay and the ffmpeg mux pipeline), with the properties the
    specification states about them.

    Conventions of the embedding.
    - A JavaScript string is the list of its UTF-16 code units ([jsstring]).
    - A JavaScript number that the code only ever uses as an integer (a
      resolution, a bitrate, a byte length, an itag, a count of seconds) is
      a [Z] or an [N].  Where the code reads a number out of a decimal
      numeral, it gets the IEEE double nearest to the numeral's value
      ([toDouble]); the arithmetic and the printing of the model are those
      of the integers, which is what the code's are on integers up to
      2^53.  [NaN] is not modelled.
    - An absent, [undefined] or [null] property is [None].
    - [Array.prototype.sort] is stable (ECMAScript 2019); with a consistent
      comparator its result is the unique stable ordering, computed here by
      insertion.
    - A response body is a [ReadableStream] driven by the events of its
      source and of its consumer; a [Headers] object refuses the values the
      Fetch standard refuses, and the handler then throws. *)

From Stdlib Require Import List ZArith NArith Lia Bool String Ascii.
From Stdlib Require Import Sorting.Sorted Sorting.Permutation.
From Stdlib Require Import Strings.Byte.
From Stdlib Require DecimalN DecimalString.
Import ListNotations.

Set Implicit Arguments.
Local Open Scope Z_scope.

(* ===================================================================== *)
(** * JavaScript numbers *)
(* ===================================================================== *)

(** The integer [n] rounded to 53 significant bits, ties to even: an
    integer of at most 53 bits is left as it is; of a longer one the 53
    leading bits are kept and rounded by the bits that follow. *)
Definition roundTo53 (n : Z) : Z :=
  let dropped := Z.log2 n - 52 in
  if dropped <=? 0 then n
  else
    let unit := 2 ^ dropped in
    let q := n / unit in
    let r := n mod unit in
    if (unit <? 2 * r) || ((unit =? 2 * r) && Z.odd q)
    then (q + 1) * unit
    else q * unit.

(** [Infinity] is written 2^1024, the least power of two that no double
    is. *)
Definition infinity : Z := 2 ^ 1024.

(** The IEEE double nearest to the integer [n]: the [Number] that stands
    for [n].  What rounds to 2^1024 or more is [Infinity].  Only called on
    integers that are not negative. *)
Definition toDouble (n : Z) : Z :=
  if infinity <=? roundTo53 n then infinity else roundTo53 n.

(* ===================================================================== *)
(** * JavaScript strings *)
(* ===================================================================== *)

Module JsString.

(** UTF-16 code units. *)
Definition jsstring := list N.

(** A string literal of the source (ASCII only). *)
Definition lit (s : string) : jsstring :=
  List.map N_of_ascii (list_ascii_of_string s).

Definition eqb (a b : jsstring) : bool :=
  if list_eq_dec N.eq_dec a b then true else false.

(** [\d]: the ASCII digits. *)
Definition is_digit (c : N) : bool := ((48 <=? c) && (c <=? 57))%N.

(** [\w]: ASCII letters, digits and the underscore. *)
Definition is_word (c : N) : bool :=
  (is_digit c
   || ((65 <=? c) && (c <=? 90))
   || ((97 <=? c) && (c <=? 122))
   || (c =? 95))%N.

(** [\s], which is also what [String.prototype.trim] removes: the
    ECMAScript WhiteSpace and LineTerminator code points. *)
Definition is_space (c : N) : bool :=
  (((9 <=? c) && (c <=? 13))
   || (c =? 32) || (c =? 160) || (c =? 5760)
   || ((8192 <=? c) && (c <=? 8202))
   || (c =? 8232) || (c =? 8233) || (c =? 8239) || (c =? 8287)
   || (c =? 12288) || (c =? 65279))%N.

(** [s.startsWith(p)]. *)
Fixpoint starts_with (p s : jsstring) : bool :=
  match p, s with
  | [], _ => true
  | _ :: _, [] => false
  | a :: p', b :: s' => (a =? b)%N && starts_with p' s'
  end.

(** [s.includes(p)]. *)
Fixpoint includes (p s : jsstring) : bool :=
  starts_with p s ||
  match s with
  | [] => false
  | _ :: s' => includes p s'
  end.

(** The integer a string of decimal digits is the numeral of. *)
Definition decimalValue (ds : jsstring) : Z :=
  fold_left (fun acc c => 10 * acc + (Z.of_N c - 48)) ds 0.

(** [parseInt(ds, 10)] on a string of decimal digits: the double nearest
    to the value of the numeral. *)
Definition parse_digits (ds : jsstring) : Z :=
  toDouble (decimalValue ds).

(** [String(n)] for a non-negative integer up to 2^53: its decimal
    numeral.  (Above, [String] writes the shortest numeral that reads
    back as the same double, and from 10^21 on it uses an exponent.) *)
Fixpoint uint_units (d : Decimal.uint) : jsstring :=
  match d with
  | Decimal.Nil => []
  | Decimal.D0 d => 48%N :: uint_units d
  | Decimal.D1 d => 49%N :: uint_units d
  | Decimal.D2 d => 50%N :: uint_units d
  | Decimal.D3 d => 51%N :: uint_units d
  | Decimal.D4 d => 52%N :: uint_units d
  | Decimal.D5 d => 53%N :: uint_units d
  | Decimal.D6 d => 54%N :: uint_units d
  | Decimal.D7 d => 55%N :: uint_units d
  | Decimal.D8 d => 56%N :: uint_units d
  | Decimal.D9 d => 57%N :: uint_units d
  end.

Definition of_number (n : Z) : jsstring :=
  match N.to_uint (Z.to_N n) with
  | Decimal.Nil => [48%N]
  | d => uint_units d
  end.

(** [String(n)] for an integer: a minus sign before the numeral of a
    negative one. *)
Definition of_integer (n : Z) : jsstring :=
  if n <? 0 then lit "-" ++ of_number (- n) else of_number n.

(** [a || b] on optional strings: the empty string is falsy. *)
Definition truthy (s : option jsstring) : bool :=
  match s with
  | Some (_ :: _) => true
  | _ => false
  end.

Definition or_else (s : option jsstring) (d : option jsstring)
  : option jsstring :=
  if truthy s then s else d.

End JsString.
Import JsString.

(* ===================================================================== *)
(** * The analyze route: helpers *)
(* ===================================================================== *)

(** The longest run of digits at the head of [s], and what follows it. *)
Fixpoint span_digits (s : jsstring) : jsstring * jsstring :=
  match s with
  | c :: s' =>
      if is_digit c
      then let (d, r) := span_digits s' in (c :: d, r)
      else ([], s)
  | [] => ([], [])
  end.

(** [/(\d+)p/] anchored at the head of [s]: the greedy [\d+] takes the
    whole run of digits, and giving digits back cannot help since the
    character after a shorter run is a digit, not [p]. *)
Definition match_digits_p_here (s : jsstring) : option jsstring :=
  match span_digits s with
  | (c :: d, p :: _) => if (p =? 112)%N then Some (c :: d) else None
  | _ => None
  end.

(** [s.match(/(\d+)p/)]: the leftmost position where the pattern matches;
    the result is capture group 1. *)
Fixpoint match_digits_p (s : jsstring) : option jsstring :=
  match match_digits_p_here s with
  | Some d => Some d
  | None =>
      match s with
      | [] => None
      | _ :: s' => match_digits_p s'
      end
  end.

Definition extractResolution (qualityLabel : jsstring) : Z :=
  match match_digits_p qualityLabel with
  | Some d => parse_digits d
  | None => 0
  end.

(** The object literal [estimates] of [estimateVideoSize]. *)
Definition estimates : list (Z * Z) :=
  [ (144, 2); (240, 4); (360, 8); (480, 15);
    (720, 25); (1080, 50); (1440, 80); (2160, 150) ].

Fixpoint lookup (tbl : list (Z * Z)) (k : Z) : option Z :=
  match tbl with
  | [] => None
  | (k', v) :: tbl' => if k =? k' then Some v else lookup tbl' k
  end.

(** [estimates[resolution] || 10]: a missing entry and a zero entry both
    fall through to 10. *)
Definition estimateVideoSize (resolution : Z) : Z :=
  match lookup estimates resolution with
  | Some v => if v =? 0 then 10 else v
  | None => 10
  end.

(** [`~${n} MB`] for a number of MB up to 2^53. *)
Definition mb_string (n : Z) : jsstring :=
  lit "~" ++ of_number n ++ lit " MB".

Definition estimateFileSize (resolution : Z) (isHighQuality : bool)
  : jsstring :=
  let videoSize := estimateVideoSize resolution in
  let audioSize := 3 in
  let totalSize := if isHighQuality then videoSize + audioSize
                   else videoSize in
  mb_string totalSize.

(** [Math.round(Number.parseInt(contentLength) / (1024 * 1024))], where
    [bytes] is the value of the decimal numeral: [parseInt] gives its
    double, the division by a power of two is exact, and [Math.round]
    rounds half up. *)
Definition round_mb (bytes : N) : Z :=
  (2 * toDouble (Z.of_N bytes) + 1048576) / 2097152.


(* ===================================================================== *)
(** * Data model *)
(* ===================================================================== *)

(** A rendition as the provider lists it ([info.formats[i]]); only the
    properties the handlers read.  [contentLength] is a decimal numeral in
    the source; the field holds its value, and [None] stands for an absent
    or empty (falsy) property. *)
Module Fmt.
Record t := mk {
  itag : Z;
  hasVideo : bool;
  hasAudio : bool;
  container : option jsstring;
  qualityLabel : option jsstring;
  quality : option jsstring;
  bitrate : option N;
  audioBitrate : option N;
  contentLength : option N;
  mimeType : option jsstring
}.
End Fmt.

(** An entry of the catalog, as the analyze route builds it and as the
    client sends it back to the download route. *)
Module Opt.
Record t := mk {
  quality : jsstring;
  format : jsstring;
  filesize : jsstring;
  itag : option Z;
  videoItag : option Z;
  audioItag : option Z;
  mimeType : option jsstring;
  hasAudio : bool;
  hasVideo : bool;
  isHighQuality : bool;
  resolution : Z
}.
End Opt.

(** [a || b] where [a] is an optional string and [b] a string. *)
Definition or_str (a : option jsstring) (b : jsstring) : jsstring :=
  match a with
  | Some (c :: s) => c :: s
  | _ => b
  end.

(** [a === b] on optional strings. *)
Definition opt_str_eqb (a b : option jsstring) : bool :=
  match a, b with
  | Some x, Some y => eqb x y
  | None, None => true
  | _, _ => false
  end.

(** Truthiness of an optional number: [undefined] and [0] are falsy. *)
Definition truthy_num (a : option N) : bool :=
  match a with
  | Some n => negb (n =? 0)%N
  | None => false
  end.

(** [a > b] on optional numbers: a comparison with [undefined] is false. *)
Definition js_gt (a b : option N) : bool :=
  match a, b with
  | Some x, Some y => (y <? x)%N
  | _, _ => false
  end.

(** [a || 0] on an optional number. *)
Definition num_or_0 (a : option N) : Z :=
  match a with
  | Some n => Z.of_N n
  | None => 0
  end.

(* ===================================================================== *)
(** * [Map] and [Array.prototype.sort] *)
(* ===================================================================== *)

(** A JavaScript [Map] with string keys: the entries in insertion order.
    [set] on a key that is present replaces the value and keeps the
    entry's position. *)
Module JsMap.
Section JsMap.
Variable V : Type.

Definition t := list (jsstring * V).

Definition empty : t := [].

Fixpoint has (m : t) (k : jsstring) : bool :=
  match m with
  | [] => false
  | (k', _) :: m' => eqb k k' || has m' k
  end.

Fixpoint set (m : t) (k : jsstring) (v : V) : t :=
  match m with
  | [] => [(k, v)]
  | (k', v') :: m' =>
      if eqb k k' then (k, v) :: m' else (k', v') :: set m' k v
  end.

Definition keys (m : t) : list jsstring := List.map fst m.

(** [Array.from(m.values())]. *)
Definition values (m : t) : list V := List.map snd m.

End JsMap.
End JsMap.

(** [l.sort(cmp)]: [cmp a b > 0] asks for [a] after [b]; elements the
    comparator does not separate keep their order. *)
Module JsArray.
Section Sort.
Variable A : Type.
Variable cmp : A -> A -> Z.

Fixpoint insert (x : A) (l : list A) : list A :=
  match l with
  | [] => [x]
  | y :: l' => if cmp x y <=? 0 then x :: l else y :: insert x l'
  end.

Definition sort (l : list A) : list A := fold_right insert [] l.

End Sort.
End JsArray.

(* ===================================================================== *)
(** * The analyze route: the rendition catalog *)
(* ===================================================================== *)

Definition Catalog := JsMap.t Opt.t.

(** [`~${Math.round(Number.parseInt(contentLength) / (1024 * 1024))} MB`] *)
Definition exact_mb_string (bytes : N) : jsstring :=
  mb_string (round_mb bytes).

(** The filter of the combined pass:
    [format.hasVideo && format.hasAudio && format.qualityLabel]. *)
Definition isCombined (format : Fmt.t) : bool :=
  Fmt.hasVideo format && Fmt.hasAudio format
  && truthy (Fmt.qualityLabel format).

(** The object the combined pass stores for [format]. *)
Definition combinedOption (format : Fmt.t) : Opt.t :=
  let quality :=
    or_str (Fmt.qualityLabel format)
           (or_str (Fmt.quality format) (lit "Unknown")) in
  let resolution := extractResolution quality in
  {| Opt.quality := quality;
     Opt.format := or_str (Fmt.container format) (lit "mp4");
     Opt.filesize :=
       match Fmt.contentLength format with
       | Some len => exact_mb_string len
       | None => estimateFileSize resolution false
       end;
     Opt.itag := Some (Fmt.itag format);
     Opt.videoItag := None;
     Opt.audioItag := None;
     Opt.mimeType := Fmt.mimeType format;
     Opt.hasAudio := true;
     Opt.hasVideo := true;
     Opt.isHighQuality := false;
     Opt.resolution := resolution |}.

(** The body of the [forEach] of the combined pass. *)
Definition addCombined (allFormats : Catalog) (format : Fmt.t) : Catalog :=
  let quality :=
    or_str (Fmt.qualityLabel format)
           (or_str (Fmt.quality format) (lit "Unknown")) in
  let key := quality ++ lit "_combined" in
  if JsMap.has allFormats key then allFormats
  else JsMap.set allFormats key (combinedOption format).

Definition combinedPass (formats : list Fmt.t) : Catalog :=
  fold_left addCombined (filter isCombined formats) (JsMap.empty _).

(** The filter of the video-only candidates. *)
Definition isVideoOnlyMp4 (format : Fmt.t) : bool :=
  Fmt.hasVideo format && negb (Fmt.hasAudio format)
  && opt_str_eqb (Fmt.container format) (Some (lit "mp4"))
  && truthy (Fmt.qualityLabel format).

(** The reducer of [videoOnlyFormats]. *)
Definition keepBest (acc : list Fmt.t) (format : Fmt.t) : list Fmt.t :=
  let quality := Fmt.qualityLabel format in
  let existing :=
    find (fun f => opt_str_eqb (Fmt.qualityLabel f) quality) acc in
  if match existing with
     | None => true
     | Some e =>
         truthy_num (Fmt.bitrate format)
         && js_gt (Fmt.bitrate format) (Fmt.bitrate e)
     end
  then
    filter (fun f => negb (opt_str_eqb (Fmt.qualityLabel f) quality)) acc
    ++ [format]
  else acc.

Definition videoOnlyFormats (formats : list Fmt.t) : list Fmt.t :=
  fold_left keepBest (filter isVideoOnlyMp4 formats) [].

Definition isAudioOnly (format : Fmt.t) : bool :=
  negb (Fmt.hasVideo format) && Fmt.hasAudio format.

(** [(a, b) => (b.audioBitrate || 0) - (a.audioBitrate || 0)] *)
Definition compareAudio (a b : Fmt.t) : Z :=
  num_or_0 (Fmt.audioBitrate b) - num_or_0 (Fmt.audioBitrate a).

Definition bestAudioFormat (formats : list Fmt.t) : option Fmt.t :=
  hd_error (JsArray.sort compareAudio (filter isAudioOnly formats)).

(** The quality label of a video-only candidate.  Every element of
    [videoOnlyFormats] passed the filter, so the label is a non-empty
    string; the default is never taken. *)
Definition labelOf (videoFormat : Fmt.t) : jsstring :=
  or_str (Fmt.qualityLabel videoFormat) [].

(** The object the split pass stores for [videoFormat] with the best
    audio rendition. *)
Definition highOption (bestAudio videoFormat : Fmt.t) : Opt.t :=
  let quality := labelOf videoFormat in
  let resolution := extractResolution quality in
  let isHighQuality := 1080 <=? resolution in
  let estimatedVideoSize :=
    match Fmt.contentLength videoFormat with
    | Some len => round_mb len
    | None => estimateVideoSize resolution
    end in
  let estimatedAudioSize :=
    match Fmt.contentLength bestAudio with
    | Some len => round_mb len
    | None => 3
    end in
  {| Opt.quality :=
       if isHighQuality then quality ++ lit " (High Quality)" else quality;
     Opt.format := lit "mp4";
     Opt.filesize := mb_string (estimatedVideoSize + estimatedAudioSize);
     Opt.itag := None;
     Opt.videoItag := Some (Fmt.itag videoFormat);
     Opt.audioItag := Some (Fmt.itag bestAudio);
     Opt.mimeType := Fmt.mimeType videoFormat;
     Opt.hasAudio := true;
     Opt.hasVideo := true;
     Opt.isHighQuality := isHighQuality;
     Opt.resolution := resolution |}.

(** The body of the [forEach] of the split pass. *)
Definition addHigh (bestAudio : Fmt.t) (allFormats : Catalog)
  (videoFormat : Fmt.t) : Catalog :=
  let key := labelOf videoFormat ++ lit "_high" in
  if JsMap.has allFormats key then allFormats
  else JsMap.set allFormats key (highOption bestAudio videoFormat).

Definition audioOnlyOption (bestAudio : Fmt.t) : Opt.t :=
  {| Opt.quality := lit "Audio Only";
     Opt.format := lit "mp3";
     Opt.filesize :=
       match Fmt.contentLength bestAudio with
       | Some len => exact_mb_string len
       | None => lit "~3 MB"
       end;
     Opt.itag := Some (Fmt.itag bestAudio);
     Opt.videoItag := None;
     Opt.audioItag := None;
     Opt.mimeType := Fmt.mimeType bestAudio;
     Opt.hasAudio := true;
     Opt.hasVideo := false;
     Opt.isHighQuality := false;
     Opt.resolution := 0 |}.

(** The map after the combined pass and the split pass, when there is a
    best audio rendition. *)
Definition videoEntries (formats : list Fmt.t) (bestAudio : Fmt.t) : Catalog :=
  fold_left (addHigh bestAudio) (videoOnlyFormats formats)
            (combinedPass formats).

(** The map [allFormats] when the three passes are done. *)
Definition allFormats (formats : list Fmt.t) : Catalog :=
  match bestAudioFormat formats with
  | Some bestAudio =>
      JsMap.set (videoEntries formats bestAudio)
                (lit "audio_only") (audioOnlyOption bestAudio)
  | None => combinedPass formats
  end.

(** The comparator of the final sort. *)
Definition compareOptions (a b : Opt.t) : Z :=
  let audio o := eqb (Opt.quality o) (lit "Audio Only") in
  if audio a && negb (audio b) then 1
  else if negb (audio a) && audio b then -1
  else if negb (Opt.resolution a =? Opt.resolution b)
       then Opt.resolution b - Opt.resolution a
  else if Opt.isHighQuality a && negb (Opt.isHighQuality b) then -1
  else if negb (Opt.isHighQuality a) && Opt.isHighQuality b then 1
  else 0.

(** The array [formats] of the response. *)
Definition catalog (formats : list Fmt.t) : list Opt.t :=
  JsArray.sort compareOptions (JsMap.values (allFormats formats)).

(* ===================================================================== *)
(** * The analyze route: the handler *)
(* ===================================================================== *)

(** What [ytdl.getInfo] resolves to; of [videoDetails] only the title is
    kept (thumbnail, duration and counters take no part in what follows). *)
Module Info.
Record t := mk {
  formats : list Fmt.t;
  title : jsstring
}.
End Info.

(** A thrown value: an [Error] instance with its message, or anything
    else. *)
Inductive Thrown :=
| ErrorObject (message : jsstring)
| OtherThrown.

(** The answers of the route, [NextResponse.json] calls: an error with
    its status, or the video information, of which only [formats] is
    kept. *)
Module Analyze.

Inductive Response :=
| JsonError (status : Z) (error : jsstring)
| JsonVideoInfo (formats : list Opt.t).

Definition status (r : Response) : Z :=
  match r with
  | JsonError s _ => s
  | JsonVideoInfo _ => 200
  end.

(** The [catch] block. *)
Definition handleError (error : Thrown) : Response :=
  match error with
  | ErrorObject message =>
      if includes (lit "Video unavailable") message then
        JsonError 404 (lit "Video is unavailable or private")
      else if includes (lit "age-restricted") message then
        JsonError 403 (lit "Video is age-restricted")
      else
        JsonError 500
          (lit "Failed to analyze video. Please check the URL and try again.")
  | OtherThrown =>
      JsonError 500
        (lit "Failed to analyze video. Please check the URL and try again.")
  end.

Section Handler.
(** The provider: [ytdl.validateURL] and [ytdl.getInfo]. *)
Variable validateURL : jsstring -> bool.
Variable getInfo : jsstring -> Thrown + Info.t.

(** [POST]; the argument is the outcome of [request.json()], the [url]
    property of the body when parsing succeeds. *)
Definition POST (body : Thrown + option jsstring) : Response :=
  match body with
  | inl error => handleError error
  | inr (Some (c :: u)) =>
      let url := c :: u in
      if negb (validateURL url) then
        JsonError 400 (lit "Invalid YouTube URL")
      else
        match getInfo url with
        | inl error => handleError error
        | inr info => JsonVideoInfo (catalog (Info.formats info))
        end
  | inr _ => JsonError 400 (lit "URL is required")
  end.

End Handler.
End Analyze.

(* ===================================================================== *)
(** * The download route *)
(* ===================================================================== *)

(** ** Filename sanitization *)

(** [.replace(/[^\w\s-]/g, empty)]: the characters that stay. *)
Definition allowedInName (c : N) : bool :=
  is_word c || is_space c || (c =? 45)%N.

Definition stripUnsafe (s : jsstring) : jsstring := filter allowedInName s.

Fixpoint trimStart (s : jsstring) : jsstring :=
  match s with
  | c :: s' => if is_space c then trimStart s' else s
  | [] => []
  end.

Definition trimEnd (s : jsstring) : jsstring := rev (trimStart (rev s)).

(** [.trim()] *)
Definition trim (s : jsstring) : jsstring := trimEnd (trimStart s).

(** [.replace(/\s+/g, "_")]: each maximal run of whitespace becomes one
    underscore; [inRun] says that the previous character was whitespace. *)
Fixpoint underscoreRuns (inRun : bool) (s : jsstring) : jsstring :=
  match s with
  | [] => []
  | c :: s' =>
      if is_space c
      then (if inRun then underscoreRuns true s'
            else 95%N :: underscoreRuns true s')
      else c :: underscoreRuns false s'
  end.

(** The chain the three handlers apply to [videoDetails.title] for the
    [Content-Disposition] header. *)
Definition sanitizeName (title : jsstring) : jsstring :=
  underscoreRuns false (trim (stripUnsafe title)).

(** [sanitizedTitle] of [POST]: the same chain, then [.substring(0, 100)]. *)
Definition sanitizedTitle (title : jsstring) : jsstring :=
  firstn 100 (sanitizeName title).

(** ** Streams *)

Definition chunk := list byte.

(** What a Node readable emits. *)
Inductive StreamEvent :=
| Data (c : chunk)
| End
| Error (e : jsstring).

(** The [ReadableStreamDefaultController] of the response body, seen from
    the handler: the chunks its [enqueue] has accepted so far, oldest
    first, and how the stream has been left: still fed ([Readable]),
    closed by [close] or by a cancel ([Closed]), or errored.  What of the
    accepted chunks is still to be read is the queue of [ReadableStream]
    below. *)
Inductive BodyState :=
| Readable
| Closed
| Errored (e : jsstring).

Module Controller.
Record t := mk {
  enqueued : list chunk;
  state : BodyState
}.

Definition init : t := mk [] Readable.

(** Outside the readable state [enqueue] and [close] throw a [TypeError]
    and [error] does nothing: the controller is left as it was.  (The
    exception is thrown inside a listener; what it does to the server is
    not modelled.) *)
Definition enqueue (c : t) (ch : chunk) : t :=
  match state c with
  | Readable => mk (enqueued c ++ [ch]) Readable
  | _ => c
  end.

Definition close (c : t) : t :=
  match state c with
  | Readable => mk (enqueued c) Closed
  | _ => c
  end.

Definition error (c : t) (e : jsstring) : t :=
  match state c with
  | Readable => mk (enqueued c) (Errored e)
  | _ => c
  end.
End Controller.

(** The [ReadableStream] of a response: its controller, the queue (the
    chunks enqueued and not read yet) and the chunks the consumer has
    read, oldest first.  The handlers enqueue whenever their source has
    data, whatever the size of the queue. *)
Module ReadableStream.

Record t := mk {
  controller : Controller.t;
  queue : list chunk;
  received : list chunk
}.

Definition init : t := mk Controller.init [] [].

(** The stream can still be read from, errored or cancelled: it has not
    errored, and it has not closed, which after [close] it does once the
    queue is empty. *)
Definition readable (b : t) : bool :=
  match Controller.state (controller b), queue b with
  | Readable, _ => true
  | Closed, _ :: _ => true
  | _, _ => false
  end.

(** [controller.enqueue(chunk)] *)
Definition enqueue (b : t) (ch : chunk) : t :=
  match Controller.state (controller b) with
  | Readable =>
      mk (Controller.enqueue (controller b) ch) (queue b ++ [ch])
         (received b)
  | _ => b
  end.

(** [controller.close()]: what is queued can still be read. *)
Definition close (b : t) : t :=
  mk (Controller.close (controller b)) (queue b) (received b).

(** [controller.error(e)]: the stream errors and the queue is dropped,
    also when [close] was called and chunks are still queued. *)
Definition error (b : t) (e : jsstring) : t :=
  if readable b
  then mk (Controller.mk (Controller.enqueued (controller b)) (Errored e))
          [] (received b)
  else b.

(** The consumer cancels: the stream closes and the queue is dropped.
    (A stream that has closed or errored does not call [cancel] of its
    source.) *)
Definition cancel (b : t) : t :=
  if readable b
  then mk (Controller.mk (Controller.enqueued (controller b)) Closed)
          [] (received b)
  else b.

(** The consumer reads the next chunk, when one is queued. *)
Definition read (b : t) : t :=
  match queue b with
  | ch :: q => mk (controller b) q (received b ++ [ch])
  | [] => b
  end.

End ReadableStream.

(** ** Stream relay: the [ReadableStream] of the two single-stream
    handlers *)
Module Relay.

Record t := mk {
  body : ReadableStream.t;
  sourceDestroyed : bool
}.

Definition controller (r : t) : Controller.t :=
  ReadableStream.controller (body r).

Definition init : t := mk ReadableStream.init false.

(** What can happen to the relay: the source emits, [cancel] runs (the
    stream calls it when the consumer cancels a body that has neither
    closed nor errored), or the consumer reads a chunk. *)
Inductive Event :=
| Source (e : StreamEvent)
| Cancel
| Read.

(** The listeners registered in [start], and [cancel].  A destroyed source
    emits nothing more; a source is destroyed by [cancel], and by Node
    itself once it has ended or failed. *)
Definition step (r : t) (ev : Event) : t :=
  match ev with
  | Source e =>
      if sourceDestroyed r then r
      else
        match e with
        | Data ch => mk (ReadableStream.enqueue (body r) ch) false
        | End => mk (ReadableStream.close (body r)) true
        | Error err => mk (ReadableStream.error (body r) err) true
        end
  | Cancel => mk (ReadableStream.cancel (body r)) true
  | Read => mk (ReadableStream.read (body r)) (sourceDestroyed r)
  end.

Definition run (evs : list Event) : t := fold_left step evs init.

End Relay.

(** ** Mux pipeline: the [ReadableStream] of the split handler *)
Module Mux.

(** The three linked resources, the response body, and what the handler
    has written with [console.log]. *)
Record t := mk {
  videoStreamLive : bool;
  audioStreamLive : bool;
  ffmpegLive : bool;
  body : ReadableStream.t;
  serverLog : list jsstring
}.

Definition controller (m : t) : Controller.t :=
  ReadableStream.controller (body m).

Definition init : t := mk true true true ReadableStream.init [].

(** What can happen while the transfer runs.  The handler registers a
    listener for the first five ([Cancel] is a run of [cancel], which the
    stream calls when the consumer cancels a body that has neither closed
    nor errored); for the next three it registers none; the last is the
    consumer reading a chunk of the body. *)
Inductive Event :=
| StdoutData (c : chunk)          (* ffmpegProcess.stdout "data" *)
| StdoutEnd                       (* ffmpegProcess.stdout "end" *)
| ProcessError (e : jsstring)     (* ffmpegProcess "error" *)
| StderrData (d : jsstring)       (* ffmpegProcess.stderr "data" *)
| Cancel                          (* cancel() of the body *)
| VideoError (e : jsstring)       (* videoStream "error" *)
| AudioError (e : jsstring)       (* audioStream "error" *)
| ProcessExit (code : Z)          (* ffmpegProcess "exit" *)
| Read.

(** The listeners of [start], and [cancel].  An event without a listener
    changes nothing but the resource that raised it: a stream that errors
    is finished, a process that exits is gone.  [console.log] writes its
    two arguments with a space between them. *)
Definition step (m : t) (ev : Event) : t :=
  match ev with
  | StdoutData ch =>
      mk (videoStreamLive m) (audioStreamLive m) (ffmpegLive m)
         (ReadableStream.enqueue (body m) ch) (serverLog m)
  | StdoutEnd =>
      mk (videoStreamLive m) (audioStreamLive m) (ffmpegLive m)
         (ReadableStream.close (body m)) (serverLog m)
  | ProcessError e =>
      mk (videoStreamLive m) (audioStreamLive m) (ffmpegLive m)
         (ReadableStream.error (body m) e) (serverLog m)
  | StderrData d =>
      mk (videoStreamLive m) (audioStreamLive m) (ffmpegLive m)
         (body m) (serverLog m ++ [lit "FFmpeg stderr: " ++ d])
  | Cancel =>
      (* ffmpegProcess.kill(); videoStream.destroy(); audioStream.destroy() *)
      mk false false false (ReadableStream.cancel (body m)) (serverLog m)
  | VideoError _ =>
      mk false (audioStreamLive m) (ffmpegLive m)
         (body m) (serverLog m)
  | AudioError _ =>
      mk (videoStreamLive m) false (ffmpegLive m)
         (body m) (serverLog m)
  | ProcessExit _ =>
      mk (videoStreamLive m) (audioStreamLive m) false
         (body m) (serverLog m)
  | Read =>
      mk (videoStreamLive m) (audioStreamLive m) (ffmpegLive m)
         (ReadableStream.read (body m)) (serverLog m)
  end.

Definition run (evs : list Event) : t := fold_left step evs init.

(** All three linked resources are terminated. *)
Definition allTerminated (m : t) : bool :=
  negb (videoStreamLive m) && negb (audioStreamLive m)
  && negb (ffmpegLive m).

End Mux.

(** ** The handlers *)
Module Download.

(** The headers of a streamed response. *)
Module Headers.
Record t := mk {
  contentType : jsstring;
  contentDisposition : jsstring;
  cacheControl : jsstring;
  contentLength : option jsstring
}.

(** HTTP whitespace: tab, line feed, carriage return and space. *)
Definition isHttpWhitespace (c : N) : bool :=
  ((c =? 9) || (c =? 10) || (c =? 13) || (c =? 32))%N.

Fixpoint stripStart (v : jsstring) : jsstring :=
  match v with
  | c :: v' => if isHttpWhitespace c then stripStart v' else v
  | [] => []
  end.

(** A value without the HTTP whitespace at its two ends. *)
Definition normalize (v : jsstring) : jsstring :=
  rev (stripStart (rev (stripStart v))).

(** A value has to be a byte string: no code unit above 255. *)
Definition isByteString (v : jsstring) : bool :=
  forallb (fun c => (c <=? 255)%N) v.

(** Once normalized it may hold no NUL, line feed or carriage return. *)
Definition isHeaderValue (v : jsstring) : bool :=
  forallb (fun c => negb ((c =? 0) || (c =? 10) || (c =? 13))%N) v.

(** What a [Headers] object keeps of the value [v] it is given, in the
    constructor or by [set]: the normalized value; [None] when it throws
    a [TypeError] instead. *)
Definition store (v : jsstring) : option jsstring :=
  if isByteString v && isHeaderValue (normalize v)
  then Some (normalize v)
  else None.
End Headers.

(** The body of a streamed response: the [ReadableStream] built over one
    provider stream, or over the ffmpeg process fed by two of them. *)
Inductive Body :=
| RelayOf (source : list StreamEvent)
| MuxOf (videoStream audioStream : list StreamEvent).

Inductive Response :=
| Json (status : Z) (error : jsstring)
| Stream (headers : Headers.t) (body : Body).

Definition status (r : Response) : Z :=
  match r with
  | Json s _ => s
  | Stream _ _ => 200
  end.

(** [`attachment; filename="${filename}"`] *)
Definition attachment (filename : jsstring) : jsstring :=
  lit "attachment; filename=" ++ [34%N] ++ filename ++ [34%N].

(** [info.formats.find((f) => f.itag === wanted)] *)
Definition findByItag (formats : list Fmt.t) (wanted : option Z)
  : option Fmt.t :=
  find (fun f => match wanted with
                 | Some i => Fmt.itag f =? i
                 | None => false
                 end) formats.

(** The property [contentLength] of a rendition as the header value. *)
Definition lengthHeader (f : Fmt.t) : option jsstring :=
  match Fmt.contentLength f with
  | Some len => Some (of_number (Z.of_N len))
  | None => None
  end.

(** The [catch] block of [POST]. *)
Definition handleError (error : Thrown) : Response :=
  match error with
  | ErrorObject message =>
      if includes (lit "Video unavailable") message then
        Json 404 (lit "Video is unavailable or private")
      else if includes (lit "age-restricted") message then
        Json 403 (lit "Video is age-restricted")
      else if includes (lit "Sign in to confirm") message then
        Json 403 (lit "Video requires sign-in to access")
      else Json 500 (lit "Failed to download video. Please try again.")
  | OtherThrown => Json 500 (lit "Failed to download video. Please try again.")
  end.

(** The body of the request: [url] and [format]. *)
Record Request := mkRequest {
  url : option jsstring;
  format : option Opt.t
}.

Section Handler.
(** The provider: [ytdl.validateURL], [ytdl.getInfo], and [ytdl(url,
    { format })], the stream of one rendition given by what it emits. *)
Variable validateURL : jsstring -> bool.
Variable getInfo : jsstring -> Thrown + Info.t.
Variable ytdl : jsstring -> Fmt.t -> list StreamEvent.
(** The runtime: the message of the [TypeError] a [Headers] object throws
    for a value it refuses. *)
Variable refusedValue : jsstring -> jsstring.

(** [new Headers({ "Content-Type": ..., "Content-Disposition": ...,
    "Cache-Control": ... })]: the values are taken in this order. *)
Definition newHeaders (contentType contentDisposition cacheControl : jsstring)
  : Thrown + Headers.t :=
  match Headers.store contentType with
  | None => inl (ErrorObject (refusedValue contentType))
  | Some type =>
      match Headers.store contentDisposition with
      | None => inl (ErrorObject (refusedValue contentDisposition))
      | Some disposition =>
          match Headers.store cacheControl with
          | None => inl (ErrorObject (refusedValue cacheControl))
          | Some cache => inr (Headers.mk type disposition cache None)
          end
      end
  end.

(** [if (selectedFormat.contentLength) headers.set("Content-Length",
    selectedFormat.contentLength)] *)
Definition setContentLength (headers : Headers.t) (length : option jsstring)
  : Thrown + Headers.t :=
  match length with
  | None => inr headers
  | Some value =>
      match Headers.store value with
      | None => inl (ErrorObject (refusedValue value))
      | Some stored =>
          inr (Headers.mk (Headers.contentType headers)
                          (Headers.contentDisposition headers)
                          (Headers.cacheControl headers)
                          (Some stored))
      end
  end.

(** The argument [title] is the capped [sanitizedTitle] of [POST]; as in
    the source, no handler reads it.  What a handler throws, it throws to
    [POST]. *)
Definition handleStandardDownload (url : jsstring) (info : Info.t)
  (format : Opt.t) (title : jsstring) : Thrown + Response :=
  match findByItag (Info.formats info) (Opt.itag format) with
  | None => inr (Json 404 (lit "Requested format not found"))
  | Some selectedFormat =>
      let videoStream := ytdl url selectedFormat in
      let filename :=
        sanitizeName (Info.title info) ++ lit "." ++ Opt.format format in
      match newHeaders (if eqb (Opt.format format) (lit "mp3")
                        then lit "audio/mpeg" else lit "video/mp4")
                       (attachment filename) (lit "no-cache") with
      | inl error => inl error
      | inr headers =>
          match setContentLength headers (lengthHeader selectedFormat) with
          | inl error => inl error
          | inr headers => inr (Stream headers (RelayOf videoStream))
          end
      end
  end.

Definition handleAudioOnlyDownload (url : jsstring) (info : Info.t)
  (format : Opt.t) (title : jsstring) : Thrown + Response :=
  match findByItag (Info.formats info) (Opt.itag format) with
  | None => inr (Json 404 (lit "Requested audio format not found"))
  | Some selectedFormat =>
      let audioStream := ytdl url selectedFormat in
      let filename := sanitizeName (Info.title info) ++ lit ".mp3" in
      match newHeaders (lit "audio/mpeg") (attachment filename)
                       (lit "no-cache") with
      | inl error => inl error
      | inr headers =>
          match setContentLength headers (lengthHeader selectedFormat) with
          | inl error => inl error
          | inr headers => inr (Stream headers (RelayOf audioStream))
          end
      end
  end.

(** The [try] block around the streams, the process and the headers
    answers 500 when something in it throws; [ytdl] and [spawn] of the
    model do not throw while they are called. *)
Definition handleHighQualityDownload (url : jsstring) (info : Info.t)
  (format : Opt.t) (title : jsstring) : Thrown + Response :=
  match findByItag (Info.formats info) (Opt.videoItag format),
        findByItag (Info.formats info) (Opt.audioItag format) with
  | Some videoFormat, Some audioFormat =>
      let videoStream := ytdl url videoFormat in
      let audioStream := ytdl url audioFormat in
      let filename := sanitizeName (Info.title info) ++ lit ".mp4" in
      match newHeaders (lit "video/mp4") (attachment filename)
                       (lit "no-cache") with
      | inl error =>
          inr (Json 500 (lit "Failed to process high quality video"))
      | inr headers => inr (Stream headers (MuxOf videoStream audioStream))
      end
  | _, _ => inr (Json 404 (lit "Requested formats not found"))
  end.

(** The routing of [POST] once the metadata is there. *)
Definition route (url : jsstring) (info : Info.t) (format : Opt.t)
  : Thrown + Response :=
  let sanitizedTitle := sanitizedTitle (Info.title info) in
  if Opt.isHighQuality format then
    handleHighQualityDownload url info format sanitizedTitle
  else if eqb (Opt.quality format) (lit "Audio Only") then
    handleAudioOnlyDownload url info format sanitizedTitle
  else
    handleStandardDownload url info format sanitizedTitle.

(** The routing with the [catch] block of [POST] around it: the answer of
    [POST] once the metadata is there. *)
Definition dispatch (url : jsstring) (info : Info.t) (format : Opt.t)
  : Response :=
  match route url info format with
  | inl error => handleError error
  | inr response => response
  end.

Definition POST (body : Thrown + Request) : Response :=
  match body with
  | inl error => handleError error
  | inr req =>
      match url req, format req with
      | Some (c :: u), Some format =>
          let url := c :: u in
          if negb (validateURL url) then Json 400 (lit "Invalid YouTube URL")
          else
            match getInfo url with
            | inl error => handleError error
            | inr info => dispatch url info format
            end
      | _, _ => Json 400 (lit "URL and format are required")
      end
  end.

End Handler.


End Download.

(* ===================================================================== *)
(** * Vocabulary of the specification *)
(* ===================================================================== *)

(** The three ways an option is retrieved.  An option of the catalog
    carries a pair of stream identifiers on the split path, one identifier
    on the pre-muxed path, and no video on the audio-only path. *)
Inductive PathKind := Combined | Split | AudioOnly.

Definition kindOf (o : Opt.t) : PathKind :=
  if negb (Opt.hasVideo o) then AudioOnly
  else match Opt.videoItag o with
       | Some _ => Split
       | None => Combined
       end.

Definition highSuffix : jsstring := lit " (High Quality)".

(** The provider's quality label of an option: the display label without
    the annotation the split pass adds to high-quality options. *)
Definition baseLabel (o : Opt.t) : jsstring :=
  if Opt.isHighQuality o
  then firstn (List.length (Opt.quality o) - List.length highSuffix)%nat
              (Opt.quality o)
  else Opt.quality o.

(** The catalog key of an option, read off the option itself. *)
Definition optionKey (o : Opt.t) : jsstring :=
  match kindOf o with
  | Combined => baseLabel o ++ lit "_combined"
  | Split => baseLabel o ++ lit "_high"
  | AudioOnly => lit "audio_only"
  end.

(** What the comparator of the final sort looks at: whether the display
    label is ["Audio Only"], the resolution, the high-quality flag. *)
Definition isAudioLabel (o : Opt.t) : bool :=
  eqb (Opt.quality o) (lit "Audio Only").

(** The comparator does not separate [a] and [b]. *)
Definition sameRank (a b : Opt.t) : bool :=
  Bool.eqb (isAudioLabel a) (isAudioLabel b)
  && (Opt.resolution a =? Opt.resolution b)
  && Bool.eqb (Opt.isHighQuality a) (Opt.isHighQuality b).

(** [x] may stand before [y]: a greater resolution, or the same resolution
    and not a plain option before a high-quality one. *)
Definition mayPrecede (x y : Opt.t) : Prop :=
  Opt.resolution y < Opt.resolution x
  \/ (Opt.resolution x = Opt.resolution y
      /\ (Opt.isHighQuality y = true -> Opt.isHighQuality x = true)).

(** Same resolution, same flag, both with video or both without. *)
Definition sameResolutionAndFlag (a b : Opt.t) : bool :=
  Bool.eqb (Opt.hasVideo a) (Opt.hasVideo b)
  && (Opt.resolution a =? Opt.resolution b)
  && Bool.eqb (Opt.isHighQuality a) (Opt.isHighQuality b).

(** What every entry of the map satisfies: a resolution that is not
    negative, and resolution 0 without the flag under the display label
    ["Audio Only"]. *)
Definition rankable (o : Opt.t) : Prop :=
  0 <= Opt.resolution o
  /\ (isAudioLabel o = true ->
      Opt.resolution o = 0 /\ Opt.isHighQuality o = false).

(** A string that does not begin with whitespace. *)
Definition startsClean (s : jsstring) : Prop :=
  match s with
  | c :: _ => is_space c = false
  | [] => True
  end.

(** The stream identifier [wanted] is the identifier of a rendition of the
    list. *)
Definition present (formats : list Fmt.t) (wanted : option Z) : Prop :=
  exists f, In f formats /\ wanted = Some (Fmt.itag f).

(** [f] is the first rendition of the list whose identifier is
    [wanted]. *)
Definition firstWithItag (formats : list Fmt.t) (wanted : option Z)
  (f : Fmt.t) : Prop :=
  exists before after,
    formats = before ++ f :: after
    /\ wanted = Some (Fmt.itag f)
    /\ Forall (fun g => Fmt.itag g <> Fmt.itag f) before.

(** [format] would take the place of the kept entry [kept] in the reducer
    of [videoOnlyFormats]. *)
Definition wouldReplace (format kept : Fmt.t) : bool :=
  truthy_num (Fmt.bitrate format)
  && js_gt (Fmt.bitrate format) (Fmt.bitrate kept).

(** The invariant of the reducer: [acc] holds one entry per quality label
    seen so far, and no entry seen so far would replace the one kept for
    its label. *)
Definition keptBest (seen acc : list Fmt.t) : Prop :=
  NoDup (List.map Fmt.qualityLabel acc)
  /\ (forall v, In v acc -> In v seen)
  /\ (forall f, In f seen ->
        exists v, In v acc /\ Fmt.qualityLabel v = Fmt.qualityLabel f
                  /\ wouldReplace f v = false).

(** Where an entry of [allFormats] comes from. *)
Inductive entryOrigin (formats : list Fmt.t) : jsstring -> Opt.t -> Prop :=
| fromCombined format label :
    In format formats -> isCombined format = true ->
    Fmt.qualityLabel format = Some label ->
    entryOrigin formats (label ++ lit "_combined") (combinedOption format)
| fromSplit bestAudio videoFormat label :
    bestAudioFormat formats = Some bestAudio ->
    In videoFormat (videoOnlyFormats formats) ->
    Fmt.qualityLabel videoFormat = Some label ->
    entryOrigin formats (label ++ lit "_high")
                (highOption bestAudio videoFormat)
| fromAudio bestAudio :
    bestAudioFormat formats = Some bestAudio ->
    entryOrigin formats (lit "audio_only") (audioOnlyOption bestAudio).

(** ** Sample inputs *)

Definition rendition (itag : Z) (hasVideo hasAudio : bool)
  (container : string) (qualityLabel : option string)
  (bitrate audioBitrate contentLength : option N) : Fmt.t :=
  {| Fmt.itag := itag;
     Fmt.hasVideo := hasVideo;
     Fmt.hasAudio := hasAudio;
     Fmt.container := Some (lit container);
     Fmt.qualityLabel := option_map lit qualityLabel;
     Fmt.quality := None;
     Fmt.bitrate := bitrate;
     Fmt.audioBitrate := audioBitrate;
     Fmt.contentLength := contentLength;
     Fmt.mimeType := None |}.

(** A pre-muxed 1080p and 360p rendition, video-only 1080p and 720p
    renditions, and two audio renditions. *)
Definition sampleFormats : list Fmt.t :=
  [ rendition 37 true true "mp4" (Some "1080p"%string) (Some 4000000%N)
      (Some 128%N) (Some 52428800%N);
    rendition 18 true true "mp4" (Some "360p"%string) (Some 500000%N)
      (Some 96%N) None;
    rendition 137 true false "mp4" (Some "1080p"%string) (Some 4500000%N)
      None None;
    rendition 136 true false "mp4" (Some "720p"%string) (Some 2500000%N)
      None (Some 31457280%N);
    rendition 139 false true "mp4" None None (Some 48%N) None;
    rendition 140 false true "mp4" None None (Some 128%N)
      (Some 4194304%N) ].

(** Two video-only 720p renditions, the first without a bitrate, and an
    audio rendition. *)
Definition missingBitrateFormats : list Fmt.t :=
  [ rendition 298 true false "mp4" (Some "720p"%string) None None None;
    rendition 136 true false "mp4" (Some "720p"%string) (Some 2500000%N)
      None None;
    rendition 140 false true "mp4" None None (Some 128%N) None ].

Definition sampleUrl : jsstring :=
  lit "https://www.youtube.com/watch?v=aqz-KE-bpKQ".

Definition sampleInfo : Info.t :=
  {| Info.formats := sampleFormats;
     Info.title := lit "My Video: Part #1!" |}.

(** A provider that accepts every URL and answers with [sampleInfo]; every
    stream emits two chunks and ends. *)
Definition sampleValidateURL (url : jsstring) : bool := true.

Definition sampleGetInfo (url : jsstring) : Thrown + Info.t :=
  inr sampleInfo.

Definition sampleYtdl (url : jsstring) (format : Fmt.t) : list StreamEvent :=
  [ Data [x00; x01]; Data [x02]; End ].

(** A runtime whose [Headers] name the refused value in the message of
    the error. *)
Definition sampleRefusedValue (value : jsstring) : jsstring :=
  lit "Headers.append: " ++ [34%N] ++ value ++ [34%N]
  ++ lit " is an invalid header value.".

(** The pre-muxed 1080p option of the sample with another container
    name, as a client can send it. *)
Definition withContainer (container : jsstring) : Opt.t :=
  {| Opt.quality := lit "1080p";
     Opt.format := container;
     Opt.filesize := lit "~50 MB";
     Opt.itag := Some 37;
     Opt.videoItag := None;
     Opt.audioItag := None;
     Opt.mimeType := None;
     Opt.hasAudio := true;
     Opt.hasVideo := true;
     Opt.isHighQuality := false;
     Opt.resolution := 1080 |}.

(** A title of 101 letters [a], and the sample metadata under it. *)
Definition longTitle : jsstring := repeat 97%N 101.

Definition longTitleInfo : Info.t :=
  {| Info.formats := sampleFormats;
     Info.title := longTitle |}.

(** A provider whose metadata lookup fails because the video asks for a
    sign-in. *)
Definition signInMessage : jsstring := lit "Sign in to confirm your age".

Definition signInGetInfo (url : jsstring) : Thrown + Info.t :=
  inl (ErrorObject signInMessage).

(** The best audio rendition of the sample. *)
Definition sampleBestAudio : Fmt.t :=
  rendition 140 false true "mp4" None None (Some 128%N) (Some 4194304%N).

(** Options of the sample catalog, as a client sends them back: the split
    1080p option, the pre-muxed 1080p option and the audio-only option. *)
Definition sampleHighOption : Opt.t :=
  nth 0 (catalog sampleFormats) (audioOnlyOption sampleBestAudio).

Definition sampleCombinedOption : Opt.t :=
  nth 1 (catalog sampleFormats) (audioOnlyOption sampleBestAudio).

Definition sampleAudioOption : Opt.t :=
  nth 4 (catalog sampleFormats) (audioOnlyOption sampleBestAudio).

(** A split option below 1080p: it carries a pair of identifiers and is
    not flagged high quality. *)
Definition sampleSplit720Option : Opt.t :=
  nth 2 (catalog sampleFormats) (audioOnlyOption sampleBestAudio).

(** Two pre-muxed renditions without a resolution in their labels, the
    first labelled like the audio-only option. *)
Definition oddLabelFormats : list Fmt.t :=
  [ rendition 1 true true "mp4" (Some "Audio Only"%string) None None None;
    rendition 2 true true "mp4" (Some "tiny"%string) None None None ].

(** An option whose stream identifiers are not in the list any more. *)
Definition staleHighOption : Opt.t :=
  {| Opt.quality := lit "1080p (High Quality)";
     Opt.format := lit "mp4";
     Opt.filesize := lit "~54 MB";
     Opt.itag := None;
     Opt.videoItag := Some 399;
     Opt.audioItag := Some 140;
     Opt.mimeType := None;
     Opt.hasAudio := true;
     Opt.hasVideo := true;
     Opt.isHighQuality := true;
     Opt.resolution := 1080 |}.

(* ===================================================================== *)
(** * The analyze route: formatting *)
(* ===================================================================== *)

(** [s.padStart(2, "0")] *)
Definition padStart2 (s : jsstring) : jsstring :=
  repeat 48%N (2 - List.length s) ++ s.

(** [formatDuration]; [seconds] is the integer that
    [Number.parseInt(videoDetails.lengthSeconds)] gives.  [a % b] keeps
    the sign of [a] ([Z.rem]), and [Math.floor(a / b)] is the floored
    quotient ([/] on [Z]) as long as [a] is at most 2^53 in magnitude:
    the double quotient is then within 2^-12 of the exact one, which is
    not enough to reach the next integer. *)
Definition formatDuration (seconds : Z) : jsstring :=
  let hours := seconds / 3600 in
  let minutes := Z.rem seconds 3600 / 60 in
  let remainingSeconds := Z.rem seconds 60 in
  if 0 <? hours then
    of_integer hours ++ lit ":" ++ padStart2 (of_integer minutes)
    ++ lit ":" ++ padStart2 (of_integer remainingSeconds)
  else
    of_integer minutes ++ lit ":" ++ padStart2 (of_integer remainingSeconds).

(* ===================================================================== *)
(** * Further vocabulary *)
(* ===================================================================== *)

(** The first rendition of the list that the combined pass accepts under
    the quality label [label]. *)
Definition firstCombined (formats : list Fmt.t) (label : jsstring)
  : option Fmt.t :=
  find (fun f => isCombined f
                 && opt_str_eqb (Fmt.qualityLabel f) (Some label)) formats.

(** [kept] is the first entry of [seen] with its quality label whose
    bitrate, an absent one counting as 0, is at least its own. *)
Definition firstAtLeast (seen : list Fmt.t) (kept : Fmt.t) : Prop :=
  find (fun f => opt_str_eqb (Fmt.qualityLabel f) (Fmt.qualityLabel kept)
                 && (num_or_0 (Fmt.bitrate kept)
                     <=? num_or_0 (Fmt.bitrate f))) seen
  = Some kept.





(** The same for the ffmpeg pipeline: the events that stop the
    forwarding (the end of the standard output, an error of the process,
    a cancel), the chunks of the standard output that come before the
    first of them, and the lines of the standard error. *)
Definition isStop (ev : Mux.Event) : bool :=
  match ev with
  | Mux.StdoutEnd | Mux.ProcessError _ | Mux.Cancel => true
  | _ => false
  end.

Fixpoint stdoutPrefix (evs : list Mux.Event) : list chunk :=
  match evs with
  | [] => []
  | ev :: evs' =>
      if isStop ev then []
      else match ev with
           | Mux.StdoutData ch => ch :: stdoutPrefix evs'
           | _ => stdoutPrefix evs'
           end
  end.

Fixpoint stderrLines (evs : list Mux.Event) : list jsstring :=
  match evs with
  | Mux.StderrData d :: evs' => d :: stderrLines evs'
  | _ :: evs' => stderrLines evs'
  | [] => []
  end.

Definition isStderr (ev : Mux.Event) : bool :=
  match ev with
  | Mux.StderrData _ => true
  | _ => false
  end.

(** The process does not fail and the consumer does not cancel. *)
Definition isDrop (ev : Mux.Event) : bool :=
  match ev with
  | Mux.ProcessError _ | Mux.Cancel => true
  | _ => false
  end.

(* ===================================================================== *)
(** * The page *)
(* ===================================================================== *)

(** What [.] of a regular expression does not match: the line
    terminators. *)
Definition isLineTerminator (c : N) : bool :=
  ((c =? 10) || (c =? 13) || (c =? 8232) || (c =? 8233))%N.

(** [s] without the prefix [p], when it begins with it. *)
Definition dropPrefix (p s : jsstring) : option jsstring :=
  if starts_with p s then Some (skipn (List.length p) s) else None.

(** An optional group [(p)?] at the head of [s]: taken when it is there.
    In the expressions below, what has to follow begins with a character
    the group does not begin with, so leaving out a group that is there
    never helps. *)
Definition optionalPrefix (p s : jsstring) : jsstring :=
  match dropPrefix p s with
  | Some r => r
  | None => s
  end.

(** [isValidYouTubeUrl]:
    [/^(https?:\/\/)?(www\.)?(youtube\.com|youtu\.be)\/.+/.test(url)].
    The two host names differ at their sixth character, so at most one of
    them is there. *)
Definition isValidYouTubeUrl (url : jsstring) : bool :=
  let s :=
    match dropPrefix (lit "https://") url with
    | Some r => r
    | None => optionalPrefix (lit "http://") url
    end in
  let s := optionalPrefix (lit "www.") s in
  let afterHost :=
    match dropPrefix (lit "youtube.com") s with
    | Some r => Some r
    | None => dropPrefix (lit "youtu.be") s
    end in
  match afterHost with
  | Some (slash :: c :: _) => (slash =? 47)%N && negb (isLineTerminator c)
  | _ => false
  end.

(** The part [(.+)] and the closing double quote of the pattern of
    [matchFilename] at the head of [r], greedy: the characters up to the
    last double quote that comes after at least one character and before
    any line terminator.  [taken] holds the characters passed so far, last
    first, and [best] the capture up to the last quote seen. *)
Fixpoint captureToLastQuote (taken r : jsstring) (best : option jsstring)
  : option jsstring :=
  match r with
  | [] => best
  | c :: r' =>
      if isLineTerminator c then best
      else
        captureToLastQuote (c :: taken) r'
          (match taken with
           | _ :: _ => if (c =? 34)%N then Some (rev taken) else best
           | [] => best
           end)
  end.

(** The pattern of [matchFilename] anchored at the head of [s]. *)
Definition filenameHere (s : jsstring) : option jsstring :=
  match dropPrefix (lit "filename=" ++ [34%N]) s with
  | Some r => captureToLastQuote [] r None
  | None => None
  end.

(** [contentDisposition.match(re)] where [re] is [filename=], a double
    quote, [(.+)] and a double quote: the leftmost match; the result is
    capture group 1. *)
Fixpoint matchFilename (s : jsstring) : option jsstring :=
  match filenameHere s with
  | Some m => Some m
  | None =>
      match s with
      | [] => None
      | _ :: s' => matchFilename s'
      end
  end.

(** The name [downloadStandardVideo] saves the file under:
    [videoTitle] is [videoInfo?.title], [format] is [format.format] and
    [contentDisposition] is what [response.headers.get] returns. *)
Definition downloadFilename (videoTitle : option jsstring)
  (format : jsstring) (contentDisposition : option jsstring) : jsstring :=
  let filename := or_str videoTitle (lit "video") ++ lit "." ++ format in
  match contentDisposition with
  | Some (c :: cd) =>
      match matchFilename (c :: cd) with
      | Some filenameMatch => filenameMatch
      | None => filename
      end
  | _ => filename
  end.

(** ** Reading a duration back *)

(** The fields of [s] between colons. *)
Fixpoint splitColon (s : jsstring) : list jsstring :=
  match s with
  | [] => [[]]
  | c :: s' =>
      if (c =? 58)%N then [] :: splitColon s'
      else match splitColon s' with
           | field :: fields => (c :: field) :: fields
           | [] => [[c]]
           end
  end.

(** The seconds a displayed duration stands for. *)
Definition durationSeconds (s : jsstring) : Z :=
  fold_left (fun acc field => 60 * acc + decimalValue field)
            (splitColon s) 0.

(* ===================================================================== *)
(** * Properties *)
(* ===================================================================== *)

Unset Implicit Arguments.

(** ** JavaScript strings *)

Lemma eqb_eq (a b : jsstring) : eqb a b = true <-> a = b.
Proof.
  unfold eqb. destruct (list_eq_dec N.eq_dec a b); split; congruence.
Qed.

Lemma eqb_neq (a b : jsstring) : eqb a b = false <-> a <> b.
Proof.
  unfold eqb. destruct (list_eq_dec N.eq_dec a b); split; congruence.
Qed.

Lemma eqb_refl (a : jsstring) : eqb a a = true.
Proof. now apply eqb_eq. Qed.

Lemma or_str_some (a : option jsstring) (d : jsstring) :
  truthy a = true -> a = Some (or_str a d) /\ or_str a d <> [].
Proof.
  destruct a as [[|c s]|]; simpl; try discriminate.
  intros _. split; congruence.
Qed.

(** Two strings with different last characters differ. *)
Lemma app_last_neq (a b : jsstring) (x y : N) :
  x <> y -> a ++ [x] <> b ++ [y].
Proof.
  intros Hxy H. apply app_inj_tail in H. destruct H. contradiction.
Qed.

(** ** [Map] *)

Section JsMapFacts.
Variable V : Type.
Implicit Types (m : JsMap.t V) (k : jsstring) (v : V).

Lemma has_In m k : JsMap.has m k = true <-> In k (JsMap.keys m).
Proof.
  induction m as [|[k' v'] m IH]; simpl.
  - split; [discriminate | tauto].
  - rewrite orb_true_iff, IH, eqb_eq. intuition.
Qed.

Lemma has_false m k : JsMap.has m k = false <-> ~ In k (JsMap.keys m).
Proof.
  rewrite <- has_In. destruct (JsMap.has m k); split; congruence.
Qed.

(** A fresh key is appended: it becomes the last entry. *)
Lemma set_fresh m k v :
  JsMap.has m k = false -> JsMap.set m k v = m ++ [(k, v)].
Proof.
  induction m as [|[k' v'] m IH]; simpl; [reflexivity|].
  intros H. apply orb_false_iff in H. destruct H as [Hk Hm].
  rewrite Hk, IH by assumption. reflexivity.
Qed.

Lemma keys_set m k v :
  JsMap.keys (JsMap.set m k v)
  = if JsMap.has m k then JsMap.keys m else JsMap.keys m ++ [k].
Proof.
  induction m as [|[k' v'] m IH]; simpl; [reflexivity|].
  destruct (eqb k k') eqn:E; simpl.
  - apply eqb_eq in E. now subst.
  - rewrite IH. now destruct (JsMap.has m k).
Qed.

Lemma set_In m k v e :
  In e (JsMap.set m k v) -> e = (k, v) \/ In e m.
Proof.
  induction m as [|[k' v'] m IH]; simpl.
  - intuition.
  - destruct (eqb k k'); simpl; intuition.
Qed.

Lemma set_NoDup m k v :
  NoDup (JsMap.keys m) -> NoDup (JsMap.keys (JsMap.set m k v)).
Proof.
  intros H. rewrite keys_set. destruct (JsMap.has m k) eqn:E; [assumption|].
  apply has_false in E.
  apply NoDup_rev in H. rewrite <- (rev_involutive (_ ++ _)).
  apply NoDup_rev. rewrite rev_unit. constructor; [|assumption].
  now rewrite <- in_rev.
Qed.

End JsMapFacts.

(** ** [Array.prototype.sort] *)

Section SortFacts.
Variable A : Type.
Variable cmp : A -> A -> Z.

Lemma insert_perm (x : A) (l : list A) :
  Permutation (JsArray.insert cmp x l) (x :: l).
Proof.
  induction l as [|y l IH]; simpl; [reflexivity|].
  destruct (cmp x y <=? 0); [reflexivity|].
  rewrite IH. apply perm_swap.
Qed.

Lemma sort_perm (l : list A) : Permutation (JsArray.sort cmp l) l.
Proof.
  induction l as [|x l IH]; simpl; [reflexivity|].
  rewrite insert_perm. now constructor.
Qed.

Lemma sort_In (l : list A) (x : A) : In x (JsArray.sort cmp l) <-> In x l.
Proof.
  split; apply Permutation_in; [|symmetry]; apply sort_perm.
Qed.

(** An element that no element of [s] has to follow stays last. *)
Lemma insert_before_last (x a : A) (s : list A) :
  cmp x a <= 0 ->
  JsArray.insert cmp x (s ++ [a]) = JsArray.insert cmp x s ++ [a].
Proof.
  intros Hxa. induction s as [|y s IH]; simpl.
  - apply Z.leb_le in Hxa. now rewrite Hxa.
  - destruct (cmp x y <=? 0); [reflexivity|]. now rewrite IH.
Qed.

Lemma sort_last (l : list A) (a : A) :
  (forall x, In x l -> cmp x a <= 0) ->
  JsArray.sort cmp (l ++ [a]) = JsArray.sort cmp l ++ [a].
Proof.
  induction l as [|x l IH]; intros H; simpl; [reflexivity|].
  rewrite IH by (intros; apply H; now right).
  apply insert_before_last. apply H. now left.
Qed.

(** Elements that the comparator does not separate from [a] are never
    passed by an element it does not separate from [a]: they keep their
    order. *)
Section Stable.
Hypothesis cmp_tie :
  forall a x y, cmp a x = 0 -> cmp a y = 0 -> cmp x y <= 0.

Lemma insert_stable (a x : A) (s : list A) :
  filter (fun y => cmp a y =? 0) (JsArray.insert cmp x s)
  = filter (fun y => cmp a y =? 0) (x :: s).
Proof.
  induction s as [|y s IH]; [reflexivity|].
  cbn [JsArray.insert]. destruct (cmp x y <=? 0) eqn:Ele; [reflexivity|].
  cbn [filter] in *. rewrite IH.
  destruct (cmp a x =? 0) eqn:Ex; [|reflexivity].
  destruct (cmp a y =? 0) eqn:Ey; [|reflexivity].
  apply Z.eqb_eq in Ex, Ey. apply Z.leb_gt in Ele.
  pose proof (cmp_tie a x y Ex Ey). lia.
Qed.

Lemma sort_stable (a : A) (l : list A) :
  filter (fun y => cmp a y =? 0) (JsArray.sort cmp l)
  = filter (fun y => cmp a y =? 0) l.
Proof.
  induction l as [|x l IH]; [reflexivity|].
  cbn [JsArray.sort fold_right]. rewrite insert_stable.
  cbn [filter]. fold (JsArray.sort cmp l). now rewrite IH.
Qed.
End Stable.

(** With a comparator that is a total preorder, the result is ordered. *)
Section Ordered.
Hypothesis cmp_trans :
  forall a b c, cmp a b <= 0 -> cmp b c <= 0 -> cmp a c <= 0.
Hypothesis cmp_total : forall a b, 0 < cmp a b -> cmp b a <= 0.

Lemma insert_sorted (x : A) (s : list A) :
  StronglySorted (fun a b => cmp a b <= 0) s ->
  StronglySorted (fun a b => cmp a b <= 0) (JsArray.insert cmp x s).
Proof.
  induction 1 as [|y s Hs IH Hy]; simpl.
  - repeat constructor.
  - destruct (cmp x y <=? 0) eqn:E.
    + apply Z.leb_le in E. constructor; [now constructor|].
      constructor; [assumption|].
      eapply Forall_impl; [|exact Hy]. intros z Hz. eauto.
    + apply Z.leb_gt in E. constructor; [assumption|].
      rewrite Forall_forall in *. intros z Hz.
      apply (Permutation_in _ (insert_perm x s)) in Hz.
      destruct Hz as [<-|Hz]; auto.
Qed.

Lemma sort_sorted (l : list A) :
  StronglySorted (fun a b => cmp a b <= 0) (JsArray.sort cmp l).
Proof.
  induction l as [|x l IH]; simpl; [constructor|].
  now apply insert_sorted.
Qed.
End Ordered.

(** The result does not depend on the algorithm: with a consistent
    comparator, a list that is ordered and keeps the elements the
    comparator does not separate in their order is determined. *)
Section Unique.
Hypothesis cmp_refl : forall a, cmp a a = 0.
Hypothesis cmp_antisym :
  forall a b, cmp a b <= 0 -> cmp b a <= 0 -> cmp a b = 0.

Lemma stable_sorted_unique (l1 l2 : list A) :
  Permutation l1 l2 ->
  StronglySorted (fun a b => cmp a b <= 0) l1 ->
  StronglySorted (fun a b => cmp a b <= 0) l2 ->
  (forall a, filter (fun y => cmp a y =? 0) l1
             = filter (fun y => cmp a y =? 0) l2) ->
  l1 = l2.
Proof.
  revert l2. induction l1 as [|x t1 IH]; intros l2 Hp H1 H2 Hf.
  - apply Permutation_nil in Hp. now subst.
  - destruct l2 as [|y t2].
    { symmetry in Hp. apply Permutation_nil in Hp. discriminate. }
    inversion H1 as [|? ? Ht1 Hx]; subst.
    inversion H2 as [|? ? Ht2 Hy]; subst.
    rewrite Forall_forall in Hx, Hy.
    assert (cmp x y = 0) as Exy.
    { apply cmp_antisym.
      - assert (In y (x :: t1)) as Hin
            by (apply (Permutation_in _ (Permutation_sym Hp)); now left).
        destruct Hin as [<-|Hin]; [rewrite cmp_refl; lia|auto].
      - assert (In x (y :: t2)) as Hin
            by (apply (Permutation_in _ Hp); now left).
        destruct Hin as [<-|Hin]; [rewrite cmp_refl; lia|auto]. }
    assert (x = y) as <-.
    { specialize (Hf x). cbn [filter] in Hf.
      rewrite cmp_refl, Exy in Hf. simpl in Hf. congruence. }
    f_equal. apply IH; auto.
    + now apply Permutation_cons_inv with x.
    + intros a. specialize (Hf a). cbn [filter] in Hf.
      destruct (cmp a x =? 0); congruence.
Qed.
End Unique.

End SortFacts.

Lemma StronglySorted_weaken (A : Type) (R S : A -> A -> Prop) (P : A -> Prop)
  (l : list A) :
  (forall a b, P a -> P b -> R a b -> S a b) ->
  Forall P l -> StronglySorted R l -> StronglySorted S l.
Proof.
  intros HRS HP Hs. induction Hs as [|x l Hs IH Hx]; [constructor|].
  inversion HP as [|? ? Px Pl]; subst.
  constructor; [auto|].
  rewrite Forall_forall in *. intros y Hy. apply HRS; auto.
Qed.

(** ** The passes of the catalog builder *)

Lemma isCombined_label (format : Fmt.t) :
  isCombined format = true ->
  exists label, Fmt.qualityLabel format = Some label /\ label <> []
    /\ or_str (Fmt.qualityLabel format)
              (or_str (Fmt.quality format) (lit "Unknown")) = label.
Proof.
  unfold isCombined. rewrite !andb_true_iff. intros [_ H].
  destruct (Fmt.qualityLabel format) as [[|c s]|]; try discriminate.
  exists (c :: s). repeat split; congruence.
Qed.

Lemma isVideoOnlyMp4_label (format : Fmt.t) :
  isVideoOnlyMp4 format = true ->
  exists label, Fmt.qualityLabel format = Some label /\ label <> []
    /\ labelOf format = label.
Proof.
  unfold isVideoOnlyMp4, labelOf. rewrite !andb_true_iff. intros [_ H].
  destruct (Fmt.qualityLabel format) as [[|c s]|]; try discriminate.
  exists (c :: s). repeat split; congruence.
Qed.

Lemma keepBest_In (acc : list Fmt.t) (format v : Fmt.t) :
  In v (keepBest acc format) -> In v acc \/ v = format.
Proof.
  unfold keepBest.
  match goal with |- context [if ?c then _ else _] => destruct c end;
    [|now left].
  rewrite in_app_iff, filter_In. simpl. intuition.
Qed.

Lemma fold_keepBest_In (l acc : list Fmt.t) (v : Fmt.t) :
  In v (fold_left keepBest l acc) -> In v acc \/ In v l.
Proof.
  revert acc. induction l as [|f l IH]; simpl; intros acc H; [now left|].
  apply IH in H. destruct H as [H|H]; [|now right; right].
  apply keepBest_In in H. intuition.
Qed.

Lemma videoOnlyFormats_In (formats : list Fmt.t) (v : Fmt.t) :
  In v (videoOnlyFormats formats) ->
  In v formats /\ isVideoOnlyMp4 v = true.
Proof.
  intros H. apply fold_keepBest_In in H. destruct H as [[]|H].
  now apply filter_In in H.
Qed.

(** An invariant of the entries survives both [forEach] loops. *)
Section PassInvariant.
Variable P : jsstring -> Opt.t -> Prop.

Lemma fold_addCombined_inv (l : list Fmt.t) (m : Catalog) :
  (forall format label,
      In format l -> Fmt.qualityLabel format = Some label ->
      isCombined format = true ->
      P (label ++ lit "_combined") (combinedOption format)) ->
  (forall format, In format l -> isCombined format = true) ->
  (forall k o, In (k, o) m -> P k o) ->
  forall k o, In (k, o) (fold_left addCombined l m) -> P k o.
Proof.
  revert m. induction l as [|f l IH]; simpl; intros m Hl Hc Hm k o H.
  - auto.
  - revert H. apply IH; auto. intros k' o'. unfold addCombined.
    destruct (isCombined_label f (Hc f (or_introl eq_refl)))
      as (label & Hq & _ & ->).
    destruct (JsMap.has m _); [auto|].
    intros H. apply set_In in H. destruct H as [H|H]; [|auto].
    inversion H; subst. apply Hl; auto.
Qed.

Lemma fold_addHigh_inv (bestAudio : Fmt.t) (l : list Fmt.t) (m : Catalog) :
  (forall videoFormat label,
      In videoFormat l -> Fmt.qualityLabel videoFormat = Some label ->
      isVideoOnlyMp4 videoFormat = true ->
      P (label ++ lit "_high") (highOption bestAudio videoFormat)) ->
  (forall videoFormat, In videoFormat l -> isVideoOnlyMp4 videoFormat = true) ->
  (forall k o, In (k, o) m -> P k o) ->
  forall k o, In (k, o) (fold_left (addHigh bestAudio) l m) -> P k o.
Proof.
  revert m. induction l as [|f l IH]; simpl; intros m Hl Hc Hm k o H.
  - auto.
  - revert H. apply IH; auto. intros k' o'. unfold addHigh.
    destruct (isVideoOnlyMp4_label f (Hc f (or_introl eq_refl)))
      as (label & Hq & _ & ->).
    destruct (JsMap.has m _); [auto|].
    intros H. apply set_In in H. destruct H as [H|H]; [|auto].
    inversion H; subst. apply Hl; auto.
Qed.
End PassInvariant.

Lemma fold_addCombined_NoDup (l : list Fmt.t) (m : Catalog) :
  NoDup (JsMap.keys m) -> NoDup (JsMap.keys (fold_left addCombined l m)).
Proof.
  revert m. induction l as [|f l IH]; simpl; intros m H; [assumption|].
  apply IH. unfold addCombined.
  destruct (JsMap.has m _); [assumption|]. now apply set_NoDup.
Qed.

Lemma fold_addHigh_NoDup (a : Fmt.t) (l : list Fmt.t) (m : Catalog) :
  NoDup (JsMap.keys m) ->
  NoDup (JsMap.keys (fold_left (addHigh a) l m)).
Proof.
  revert m. induction l as [|f l IH]; simpl; intros m H; [assumption|].
  apply IH. unfold addHigh.
  destruct (JsMap.has m _); [assumption|]. now apply set_NoDup.
Qed.

Lemma combinedPass_origin (formats : list Fmt.t) (k : jsstring) (o : Opt.t) :
  In (k, o) (combinedPass formats) ->
  entryOrigin formats k o /\ Opt.hasVideo o = true.
Proof.
  unfold combinedPass.
  apply fold_addCombined_inv with
    (P := fun k o => entryOrigin formats k o /\ Opt.hasVideo o = true).
  - intros f label Hf Hq Hc. split; [|reflexivity].
    apply filter_In in Hf. now apply fromCombined.
  - intros f Hf. now apply filter_In in Hf.
  - intros ? ? [].
Qed.

Lemma videoEntries_origin (formats : list Fmt.t) (a : Fmt.t) (k : jsstring)
  (o : Opt.t) :
  bestAudioFormat formats = Some a ->
  In (k, o) (videoEntries formats a) ->
  entryOrigin formats k o /\ Opt.hasVideo o = true.
Proof.
  intros Ha. unfold videoEntries.
  apply fold_addHigh_inv with
    (P := fun k o => entryOrigin formats k o /\ Opt.hasVideo o = true).
  - intros v label Hv Hq _. split; [|reflexivity].
    now apply fromSplit.
  - intros v Hv. now apply videoOnlyFormats_In in Hv.
  - apply combinedPass_origin.
Qed.

Lemma audio_key_fresh (formats : list Fmt.t) (k : jsstring) (o : Opt.t) :
  entryOrigin formats k o -> Opt.hasVideo o = true -> k <> lit "audio_only".
Proof.
  intros [f label _ _ _|a v label _ _ _|a _] Hv.
  - change (lit "_combined") with (lit "_combine" ++ [100%N]).
    change (lit "audio_only") with (lit "audio_onl" ++ [121%N]).
    rewrite app_assoc. now apply app_last_neq.
  - change (lit "_high") with (lit "_hig" ++ [104%N]).
    change (lit "audio_only") with (lit "audio_onl" ++ [121%N]).
    rewrite app_assoc. now apply app_last_neq.
  - discriminate.
Qed.

(** The audio-only entry is the last one inserted. *)
Lemma allFormats_audio_last (formats : list Fmt.t) (a : Fmt.t) :
  bestAudioFormat formats = Some a ->
  allFormats formats
  = videoEntries formats a ++ [(lit "audio_only", audioOnlyOption a)].
Proof.
  intros Ha. unfold allFormats. rewrite Ha. fold (videoEntries formats a).
  apply set_fresh. apply has_false. intros Hin.
  apply in_map_iff in Hin. destruct Hin as ([k o] & Hk & Hin).
  simpl in Hk. subst k.
  destruct (videoEntries_origin _ _ _ _ Ha Hin) as [Ho Hv].
  now apply (audio_key_fresh _ _ _ Ho Hv).
Qed.

Lemma allFormats_no_audio (formats : list Fmt.t) :
  bestAudioFormat formats = None ->
  allFormats formats = combinedPass formats.
Proof. intros Ha. unfold allFormats. now rewrite Ha. Qed.

Lemma allFormats_origin (formats : list Fmt.t) (k : jsstring) (o : Opt.t) :
  In (k, o) (allFormats formats) -> entryOrigin formats k o.
Proof.
  destruct (bestAudioFormat formats) as [a|] eqn:Ha.
  - rewrite (allFormats_audio_last _ _ Ha), in_app_iff. intros [H|[H|[]]].
    + now apply (videoEntries_origin _ _ _ _ Ha H).
    + inversion H; subst. now apply fromAudio.
  - rewrite (allFormats_no_audio _ Ha). intros H.
    now apply combinedPass_origin.
Qed.

Lemma allFormats_NoDup (formats : list Fmt.t) :
  NoDup (JsMap.keys (allFormats formats)).
Proof.
  unfold allFormats.
  assert (NoDup (JsMap.keys (combinedPass formats))) as Hc
      by (apply fold_addCombined_NoDup; constructor).
  destruct (bestAudioFormat formats); [|assumption].
  apply set_NoDup. now apply fold_addHigh_NoDup.
Qed.

Lemma catalog_In (formats : list Fmt.t) (o : Opt.t) :
  In o (catalog formats) <-> exists k, In (k, o) (allFormats formats).
Proof.
  unfold catalog. rewrite sort_In. unfold JsMap.values.
  rewrite in_map_iff. split.
  - intros ([k o'] & E & H). simpl in E. subst. eauto.
  - intros (k & H). exists (k, o). auto.
Qed.

Lemma catalog_origin (formats : list Fmt.t) (o : Opt.t) :
  In o (catalog formats) -> exists k, entryOrigin formats k o.
Proof.
  rewrite catalog_In. intros (k & H). exists k.
  now apply allFormats_origin.
Qed.

(** ** Shape of the options *)

Lemma firstn_drop_suffix (a b : jsstring) :
  firstn (List.length (a ++ b) - List.length b)%nat (a ++ b) = a.
Proof.
  rewrite length_app, Nat.add_sub, firstn_app, Nat.sub_diag, firstn_all.
  simpl. apply app_nil_r.
Qed.

Lemma combinedOption_shape (format : Fmt.t) (label : jsstring) :
  isCombined format = true -> Fmt.qualityLabel format = Some label ->
  Opt.quality (combinedOption format) = label
  /\ Opt.resolution (combinedOption format) = extractResolution label
  /\ Opt.isHighQuality (combinedOption format) = false
  /\ kindOf (combinedOption format) = Combined
  /\ baseLabel (combinedOption format) = label.
Proof.
  intros Hc Hq. destruct (isCombined_label _ Hc) as (l & Hq' & _ & E).
  assert (l = label) as -> by congruence.
  unfold baseLabel, kindOf, combinedOption. simpl. rewrite E. auto.
Qed.

Lemma highOption_shape (bestAudio videoFormat : Fmt.t) (label : jsstring) :
  isVideoOnlyMp4 videoFormat = true ->
  Fmt.qualityLabel videoFormat = Some label ->
  let o := highOption bestAudio videoFormat in
  Opt.quality o
  = (if 1080 <=? extractResolution label then label ++ highSuffix else label)
  /\ Opt.resolution o = extractResolution label
  /\ Opt.isHighQuality o = (1080 <=? extractResolution label)
  /\ Opt.videoItag o = Some (Fmt.itag videoFormat)
  /\ Opt.audioItag o = Some (Fmt.itag bestAudio)
  /\ kindOf o = Split
  /\ baseLabel o = label.
Proof.
  intros Hc Hq. destruct (isVideoOnlyMp4_label _ Hc) as (l & Hq' & _ & E).
  assert (l = label) as -> by congruence.
  unfold baseLabel, kindOf, highOption. simpl. rewrite E.
  repeat split; try reflexivity.
  destruct (1080 <=? extractResolution label); [|reflexivity].
  apply firstn_drop_suffix.
Qed.

(** The key under which the code stores an option can be read off the
    option. *)
Lemma origin_key (formats : list Fmt.t) (k : jsstring) (o : Opt.t) :
  entryOrigin formats k o -> optionKey o = k.
Proof.
  intros [f label Hf Hc Hq|a v label Ha Hv Hq|a Ha].
  - destruct (combinedOption_shape _ _ Hc Hq) as (_ & _ & _ & Hk & Hb).
    unfold optionKey. now rewrite Hk, Hb.
  - apply videoOnlyFormats_In in Hv. destruct Hv as [_ Hc].
    destruct (highOption_shape a _ _ Hc Hq) as (_ & _ & _ & _ & _ & Hk & Hb).
    unfold optionKey. now rewrite Hk, Hb.
  - reflexivity.
Qed.

Lemma allFormats_optionKeys (formats : list Fmt.t) :
  List.map optionKey (JsMap.values (allFormats formats))
  = JsMap.keys (allFormats formats).
Proof.
  unfold JsMap.values, JsMap.keys. rewrite map_map.
  apply map_ext_in. intros [k o] H. simpl.
  apply origin_key with (formats := formats).
  now apply allFormats_origin.
Qed.

(** * The claims about the catalog *)

(** C1. Every option of the catalog on the split-stream path has
    [isHighQuality] equal to "the resolution parsed from the quality label
    of its video rendition by the pattern [<digits>p] is at least 1080";
    every option on the pre-muxed path has [isHighQuality = false],
    whatever its parsed resolution, 1080 and above included. *)
Theorem catalog_isHighQuality (formats : list Fmt.t) (o : Opt.t) :
  In o (catalog formats) ->
  (kindOf o = Split ->
   exists videoFormat label,
     In videoFormat formats
     /\ Fmt.qualityLabel videoFormat = Some label
     /\ Opt.videoItag o = Some (Fmt.itag videoFormat)
     /\ Opt.resolution o = extractResolution label
     /\ Opt.isHighQuality o = (1080 <=? extractResolution label))
  /\ (kindOf o = Combined ->
      exists format label,
        In format formats
        /\ Fmt.qualityLabel format = Some label
        /\ Opt.itag o = Some (Fmt.itag format)
        /\ Opt.resolution o = extractResolution label
        /\ Opt.isHighQuality o = false).
Proof.
  intros Hin. apply catalog_origin in Hin. destruct Hin as (k & Ho).
  destruct Ho as [f label Hf Hc Hq|a v label Ha Hv Hq|a Ha].
  - destruct (combinedOption_shape _ _ Hc Hq) as (_ & Hr & Hh & Hk & _).
    split; intros K; [congruence|].
    exists f, label. auto.
  - apply videoOnlyFormats_In in Hv. destruct Hv as [Hv Hc].
    destruct (highOption_shape a _ _ Hc Hq)
      as (_ & Hr & Hh & Hvi & _ & Hk & _).
    split; intros K; [|congruence].
    exists v, label. auto.
  - split; intros K; discriminate K.
Qed.

(** C2. No two options of the catalog share a catalog key
    ([<quality>_combined], [<quality>_high], [audio_only]); the keys read
    off the options are the keys of the map; so there is at most one
    option per quality label and path kind, and at most one audio-only
    option. *)
Theorem catalog_keys_unique (formats : list Fmt.t) :
  NoDup (List.map optionKey (catalog formats))
  /\ Permutation (List.map optionKey (catalog formats))
                 (JsMap.keys (allFormats formats))
  /\ (forall k o, In (k, o) (allFormats formats) -> optionKey o = k)
  /\ (forall i j o1 o2,
        nth_error (catalog formats) i = Some o1 ->
        nth_error (catalog formats) j = Some o2 ->
        kindOf o1 = kindOf o2 -> baseLabel o1 = baseLabel o2 -> i = j)
  /\ (forall i j o1 o2,
        nth_error (catalog formats) i = Some o1 ->
        nth_error (catalog formats) j = Some o2 ->
        kindOf o1 = AudioOnly -> kindOf o2 = AudioOnly -> i = j).
Proof.
  assert (Permutation (List.map optionKey (catalog formats))
                      (JsMap.keys (allFormats formats))) as Hp.
  { rewrite <- allFormats_optionKeys. apply Permutation_map.
    apply sort_perm. }
  assert (NoDup (List.map optionKey (catalog formats))) as Hn.
  { apply Permutation_NoDup with (l := JsMap.keys (allFormats formats)).
    - now symmetry.
    - apply allFormats_NoDup. }
  assert (forall i j o1 o2,
        nth_error (catalog formats) i = Some o1 ->
        nth_error (catalog formats) j = Some o2 ->
        optionKey o1 = optionKey o2 -> i = j) as Hu.
  { intros i j o1 o2 H1 H2 E.
    rewrite NoDup_nth_error in Hn. apply Hn.
    - rewrite length_map. apply nth_error_Some. congruence.
    - rewrite !nth_error_map, H1, H2. simpl. congruence. }
  repeat split; auto.
  - intros k o H. apply origin_key with (formats := formats).
    now apply allFormats_origin.
  - intros i j o1 o2 H1 H2 Hk Hb. apply (Hu i j o1 o2 H1 H2).
    unfold optionKey. now rewrite Hk, Hb.
  - intros i j o1 o2 H1 H2 K1 K2. apply (Hu i j o1 o2 H1 H2).
    unfold optionKey. now rewrite K1, K2.
Qed.

(** ** The parsed resolution *)

Lemma span_digits_digits (s : jsstring) :
  Forall (fun c => is_digit c = true) (fst (span_digits s)).
Proof.
  induction s as [|c s IH]; simpl; [constructor|].
  destruct (is_digit c) eqn:E; [|constructor].
  destruct (span_digits s) as [d r]. simpl in *. now constructor.
Qed.

Lemma match_digits_p_digits (s d : jsstring) :
  match_digits_p s = Some d -> Forall (fun c => is_digit c = true) d.
Proof.
  induction s as [|c s IH]; simpl.
  - discriminate.
  - unfold match_digits_p_here.
    pose proof (span_digits_digits (c :: s)) as Hd.
    destruct (span_digits (c :: s)) as [[|c' d'] r]; simpl in Hd; auto.
    destruct r as [|p r]; auto.
    destruct (p =? 112)%N; auto.
    intros H. now inversion H; subst.
Qed.

Lemma roundTo53_nonneg (n : Z) : 0 <= n -> 0 <= roundTo53 n.
Proof.
  intros Hn. unfold roundTo53.
  destruct (Z.log2 n - 52 <=? 0) eqn:E; [assumption|].
  apply Z.leb_gt in E.
  assert (0 < 2 ^ (Z.log2 n - 52)) as Hu by (apply Z.pow_pos_nonneg; lia).
  assert (0 <= n / 2 ^ (Z.log2 n - 52)) as Hq by (apply Z.div_pos; lia).
  destruct (_ || _); nia.
Qed.

Lemma roundTo53_exact (n : Z) : n <= 2 ^ 53 -> roundTo53 n = n.
Proof.
  intros Hn. destruct (Z.eq_dec n (2 ^ 53)) as [->|Hne]; [reflexivity|].
  unfold roundTo53.
  destruct (Z.log2 n - 52 <=? 0) eqn:E; [reflexivity|].
  apply Z.leb_gt in E. exfalso.
  assert (0 < n) as Hpos.
  { destruct (Z_lt_le_dec 0 n) as [H|H]; [assumption|].
    rewrite (Z.log2_nonpos n H) in E. lia. }
  assert (Z.log2 n < 53) by (apply Z.log2_lt_pow2; lia).
  lia.
Qed.

Lemma toDouble_nonneg (n : Z) : 0 <= n -> 0 <= toDouble n.
Proof.
  intros Hn. unfold toDouble.
  destruct (infinity <=? roundTo53 n); [discriminate|].
  now apply roundTo53_nonneg.
Qed.

(** An integer up to 2^53 is its own double. *)
Lemma toDouble_exact (n : Z) : n <= 2 ^ 53 -> toDouble n = n.
Proof.
  intros Hn. unfold toDouble. rewrite (roundTo53_exact n Hn).
  destruct (Z.leb_spec infinity n) as [H|H]; [|reflexivity].
  exfalso. revert H. unfold infinity.
  assert (2 ^ 53 < 2 ^ 1024) by (apply Z.pow_lt_mono_r; lia).
  lia.
Qed.

Lemma decimalValue_nonneg (d : jsstring) :
  Forall (fun c => is_digit c = true) d -> 0 <= decimalValue d.
Proof.
  unfold decimalValue.
  enough (forall acc, 0 <= acc ->
          Forall (fun c => is_digit c = true) d ->
          0 <= fold_left (fun acc c => 10 * acc + (Z.of_N c - 48)) d acc)
    as H by (apply H; lia).
  induction d as [|c d IH]; cbn [fold_left]; intros acc Ha Hd; [lia|].
  inversion Hd as [|? ? Hc Hd']; subst. apply IH; [|assumption].
  unfold is_digit in Hc. apply andb_true_iff in Hc.
  destruct Hc as [Hc _]. apply N.leb_le in Hc. lia.
Qed.

Lemma parse_digits_nonneg (d : jsstring) :
  Forall (fun c => is_digit c = true) d -> 0 <= parse_digits d.
Proof.
  intros H. apply toDouble_nonneg. now apply decimalValue_nonneg.
Qed.

Lemma extractResolution_nonneg (label : jsstring) :
  0 <= extractResolution label.
Proof.
  unfold extractResolution.
  destruct (match_digits_p label) as [d|] eqn:E; [|lia].
  apply parse_digits_nonneg. now apply match_digits_p_digits with label.
Qed.

(** ** Decimal numerals *)

Lemma uint_units_digits (d : Decimal.uint) :
  Forall (fun c => is_digit c = true) (uint_units d).
Proof. induction d; simpl; constructor; auto. Qed.

Lemma of_number_digits (n : Z) :
  Forall (fun c => is_digit c = true) (of_number n).
Proof.
  unfold of_number. destruct (N.to_uint (Z.to_N n)) eqn:E;
    try (rewrite <- E; apply uint_units_digits).
  repeat constructor.
Qed.

Lemma parse_units_acc (d : Decimal.uint) (acc : positive) :
  fold_left (fun acc c => 10 * acc + (Z.of_N c - 48)) (uint_units d)
            (Z.pos acc)
  = Z.pos (Pos.of_uint_acc d acc).
Proof.
  revert acc. induction d; intros acc; cbn [uint_units fold_left
    Pos.of_uint_acc]; try reflexivity;
    match goal with
    | |- fold_left _ _ ?a = Z.pos (Pos.of_uint_acc _ ?b) =>
        replace a with (Z.pos b) by lia; apply IHd
    end.
Qed.

Lemma parse_units (d : Decimal.uint) :
  decimalValue (uint_units d) = Z.of_N (Pos.of_uint d).
Proof.
  unfold decimalValue.
  induction d; cbn [uint_units fold_left Pos.of_uint]; try reflexivity;
    try exact IHd;
    match goal with
    | |- fold_left _ _ ?a = Z.of_N (N.pos (Pos.of_uint_acc _ ?b)) =>
        change a with (Z.pos b); apply parse_units_acc
    end.
Qed.

(** Printing a number and reading it back. *)
Lemma decimalValue_of_number (n : Z) :
  0 <= n -> decimalValue (of_number n) = n.
Proof.
  intros Hn. unfold of_number.
  pose proof (DecimalN.Unsigned.of_to (Z.to_N n)) as E.
  unfold N.of_uint in E.
  destruct (N.to_uint (Z.to_N n)) eqn:Eu;
    try (rewrite <- Eu at 1; rewrite <- Eu in E; rewrite parse_units, E; lia).
  simpl in E. cbn. lia.
Qed.

Lemma parse_of_number (n : Z) :
  0 <= n <= 2 ^ 53 -> parse_digits (of_number n) = n.
Proof.
  intros Hn. unfold parse_digits.
  rewrite decimalValue_of_number by lia. apply toDouble_exact. lia.
Qed.

Lemma of_number_nonempty (n : Z) : of_number n <> [].
Proof.
  unfold of_number. destruct (N.to_uint (Z.to_N n)); simpl; discriminate.
Qed.

(** ** The comparator of the final sort *)

Lemma compareOptions_unfold (a b : Opt.t) :
  compareOptions a b
  = if isAudioLabel a && negb (isAudioLabel b) then 1
    else if negb (isAudioLabel a) && isAudioLabel b then -1
    else if negb (Opt.resolution a =? Opt.resolution b)
         then Opt.resolution b - Opt.resolution a
    else if Opt.isHighQuality a && negb (Opt.isHighQuality b) then -1
    else if negb (Opt.isHighQuality a) && Opt.isHighQuality b then 1
    else 0.
Proof. reflexivity. Qed.

Ltac compare_cases :=
  rewrite ?compareOptions_unfold; unfold sameRank;
  repeat match goal with
         | |- context [isAudioLabel ?o] => destruct (isAudioLabel o)
         | |- context [Opt.isHighQuality ?o] => destruct (Opt.isHighQuality o)
         | |- context [?x =? ?y] => destruct (Z.eqb_spec x y)
         end;
  simpl; try lia; try congruence.

Lemma compareOptions_tie (a x y : Opt.t) :
  compareOptions a x = 0 -> compareOptions a y = 0 -> compareOptions x y <= 0.
Proof. compare_cases. Qed.

Lemma compareOptions_trans (a b c : Opt.t) :
  compareOptions a b <= 0 -> compareOptions b c <= 0 ->
  compareOptions a c <= 0.
Proof. compare_cases. Qed.

Lemma compareOptions_total (a b : Opt.t) :
  0 < compareOptions a b -> compareOptions b a <= 0.
Proof. compare_cases. Qed.

Lemma compareOptions_zero (a b : Opt.t) :
  (compareOptions a b =? 0) = sameRank a b.
Proof.
  destruct (Z.eqb_spec (compareOptions a b) 0) as [E|E]; revert E;
    compare_cases.
Qed.

Lemma origin_rankable (formats : list Fmt.t) (k : jsstring) (o : Opt.t) :
  entryOrigin formats k o -> rankable o.
Proof.
  unfold rankable, isAudioLabel.
  intros [f label Hf Hc Hq|a v label Ha Hv Hq|a Ha].
  - destruct (combinedOption_shape _ _ Hc Hq) as (-> & -> & -> & _).
    split; [apply extractResolution_nonneg|].
    intros E. apply eqb_eq in E. subst label. split; reflexivity.
  - apply videoOnlyFormats_In in Hv. destruct Hv as [_ Hc].
    destruct (highOption_shape a _ _ Hc Hq) as (-> & -> & -> & _).
    split; [apply extractResolution_nonneg|].
    destruct (1080 <=? extractResolution label) eqn:Eh.
    + intros E. apply eqb_eq in E. exfalso. revert E.
      change highSuffix with (lit " (High Quality" ++ [41%N]).
      change (lit "Audio Only") with (lit "Audio Onl" ++ [121%N]).
      rewrite app_assoc. now apply app_last_neq.
    + intros E. apply eqb_eq in E. subst label. split; reflexivity.
  - simpl. split; [lia|auto].
Qed.

Lemma rankable_mayPrecede (x y : Opt.t) :
  rankable x -> rankable y -> compareOptions x y <= 0 -> mayPrecede x y.
Proof.
  unfold rankable, mayPrecede. intros [Hx Hx'] [Hy Hy'].
  rewrite compareOptions_unfold.
  destruct (isAudioLabel x), (isAudioLabel y); simpl;
    try (destruct Hx' as [Hx1 Hx2]; [reflexivity|]);
    try (destruct Hy' as [Hy1 Hy2]; [reflexivity|]);
    destruct (Z.eqb_spec (Opt.resolution x) (Opt.resolution y));
    destruct (Opt.isHighQuality x), (Opt.isHighQuality y);
    simpl; intros; try lia; try (right; split; [lia|congruence]);
    try (left; lia).
Qed.

(** No element of the map has to come after the audio-only option. *)
Lemma audioOnlyOption_greatest (o : Opt.t) (a : Fmt.t) :
  rankable o -> compareOptions o (audioOnlyOption a) <= 0.
Proof.
  unfold rankable. intros [Ho Ho']. rewrite compareOptions_unfold.
  change (isAudioLabel (audioOnlyOption a)) with true.
  change (Opt.resolution (audioOnlyOption a)) with 0.
  change (Opt.isHighQuality (audioOnlyOption a)) with false.
  destruct (isAudioLabel o); simpl; [|lia].
  destruct Ho' as [-> ->]; [reflexivity|]. simpl. lia.
Qed.

Lemma values_rankable (formats : list Fmt.t) :
  Forall rankable (JsMap.values (allFormats formats)).
Proof.
  apply Forall_forall. intros o H. unfold JsMap.values in H.
  apply in_map_iff in H. destruct H as ([k o'] & E & H). simpl in E. subst.
  apply origin_rankable with formats k. now apply allFormats_origin.
Qed.

Lemma origin_audio_label (formats : list Fmt.t) (k : jsstring) (o : Opt.t) :
  (forall f, In f formats -> Fmt.qualityLabel f <> Some (lit "Audio Only")) ->
  entryOrigin formats k o -> isAudioLabel o = negb (Opt.hasVideo o).
Proof.
  unfold isAudioLabel.
  intros Hl [f label Hf Hc Hq|a v label Ha Hv Hq|a Ha].
  - destruct (combinedOption_shape _ _ Hc Hq) as (-> & _).
    simpl. apply eqb_neq. intros ->. now apply (Hl f).
  - apply videoOnlyFormats_In in Hv. destruct Hv as [Hv Hc].
    destruct (highOption_shape a _ _ Hc Hq) as (-> & _).
    simpl. apply eqb_neq.
    destruct (1080 <=? extractResolution label).
    + change highSuffix with (lit " (High Quality" ++ [41%N]).
      change (lit "Audio Only") with (lit "Audio Onl" ++ [121%N]).
      rewrite app_assoc. now apply app_last_neq.
    + intros ->. now apply (Hl v).
  - reflexivity.
Qed.

(** The array [formats] is the only ordering of the values of the map that
    the comparator accepts and that keeps tied options in insertion
    order: any stable sort returns it. *)
Lemma catalog_sort_unique (formats : list Fmt.t) (l : list Opt.t) :
  Permutation l (JsMap.values (allFormats formats)) ->
  StronglySorted (fun a b => compareOptions a b <= 0) l ->
  (forall o, filter (sameRank o) l
             = filter (sameRank o) (JsMap.values (allFormats formats))) ->
  l = catalog formats.
Proof.
  intros Hp Hs Hf. unfold catalog.
  apply stable_sorted_unique with (cmp := compareOptions).
  - intros a. compare_cases.
  - intros a b. compare_cases.
  - rewrite Hp. symmetry. apply sort_perm.
  - exact Hs.
  - apply sort_sorted; [apply compareOptions_trans|apply compareOptions_total].
  - intros o.
    rewrite (filter_ext _ _ (compareOptions_zero o)).
    rewrite (filter_ext _ _ (compareOptions_zero o) (JsArray.sort _ _)).
    rewrite Hf. symmetry.
    rewrite <- (filter_ext _ _ (compareOptions_zero o)).
    rewrite <- (filter_ext _ _ (compareOptions_zero o) (JsMap.values _)).
    apply sort_stable. apply compareOptions_tie.
Qed.

(** C6. The catalog is ordered: the audio-only option, when there is one,
    is the last element; the options stand in descending order of parsed
    resolution; at equal resolution no plain option stands before a
    high-quality one; and options that the sort does not separate (same
    resolution, same flag, audio-only or not as the comparator sees it,
    by the display label ["Audio Only"]) keep the order in which they were
    inserted into the map.  When no rendition carries the quality label
    ["Audio Only"], these are the options of equal resolution and flag. *)
Theorem catalog_order (formats : list Fmt.t) :
  let out := catalog formats in
  let inserted := JsMap.values (allFormats formats) in
  (forall bestAudio,
      bestAudioFormat formats = Some bestAudio ->
      exists videoOptions,
        out = videoOptions ++ [audioOnlyOption bestAudio]
        /\ Forall (fun o => Opt.hasVideo o = true) videoOptions)
  /\ (bestAudioFormat formats = None ->
      Forall (fun o => Opt.hasVideo o = true) out)
  /\ StronglySorted mayPrecede out
  /\ Permutation out inserted
  /\ (forall o, filter (sameRank o) out = filter (sameRank o) inserted)
  /\ ((forall f, In f formats ->
                 Fmt.qualityLabel f <> Some (lit "Audio Only")) ->
      forall o, In o inserted ->
                filter (sameResolutionAndFlag o) out
                = filter (sameResolutionAndFlag o) inserted).
Proof.
  intros out inserted.
  assert (forall o, filter (sameRank o) out = filter (sameRank o) inserted)
    as Hstable.
  { intros o. unfold out, catalog.
    rewrite <- (filter_ext _ _ (compareOptions_zero o)).
    rewrite <- (filter_ext _ _ (compareOptions_zero o) inserted).
    apply sort_stable. apply compareOptions_tie. }
  assert (Permutation out inserted) as Hperm by apply sort_perm.
  repeat split.
  - intros a Ha.
    exists (JsArray.sort compareOptions
              (JsMap.values (videoEntries formats a))).
    split.
    + unfold out, catalog. rewrite (allFormats_audio_last _ _ Ha).
      unfold JsMap.values. rewrite map_app. simpl.
      apply sort_last. intros x Hx. apply audioOnlyOption_greatest.
      apply in_map_iff in Hx. destruct Hx as ([k o] & E & Hx).
      simpl in E. subst.
      apply origin_rankable with formats k.
      now apply (videoEntries_origin _ _ _ _ Ha Hx).
    + apply Forall_forall. intros o Ho. apply sort_In in Ho.
      apply in_map_iff in Ho. destruct Ho as ([k o'] & E & Ho).
      simpl in E. subst.
      now apply (videoEntries_origin _ _ _ _ Ha Ho).
  - intros Ha. apply Forall_forall. intros o Ho.
    unfold out, catalog in Ho. rewrite (allFormats_no_audio _ Ha) in Ho.
    apply sort_In in Ho.
    apply in_map_iff in Ho. destruct Ho as ([k o'] & E & Ho).
    simpl in E. subst. now apply combinedPass_origin in Ho.
  - apply StronglySorted_weaken
      with (R := fun a b => compareOptions a b <= 0) (P := rankable).
    + intros a b. apply rankable_mayPrecede.
    + apply Forall_forall. intros o Ho.
      apply (Permutation_in _ Hperm) in Ho.
      revert o Ho. apply Forall_forall. apply values_rankable.
    + apply sort_sorted.
      * apply compareOptions_trans.
      * apply compareOptions_total.
  - exact Hperm.
  - exact Hstable.
  - intros Hl o Ho.
    assert (forall x, In x inserted ->
                      isAudioLabel x = negb (Opt.hasVideo x)) as Hlab.
    { intros x Hx. unfold inserted, JsMap.values in Hx.
      apply in_map_iff in Hx. destruct Hx as ([k x'] & E & Hx).
      simpl in E. subst.
      apply origin_audio_label with formats k; [assumption|].
      now apply allFormats_origin. }
    assert (forall x, In x inserted ->
                      sameRank o x = sameResolutionAndFlag o x) as Hsame.
    { intros x Hx. unfold sameRank, sameResolutionAndFlag.
      rewrite (Hlab o Ho), (Hlab x Hx).
      now destruct (Opt.hasVideo o), (Opt.hasVideo x). }
    rewrite <- (filter_ext_in _ _ inserted Hsame).
    rewrite <- Hstable. apply filter_ext_in.
    intros x Hx. symmetry. apply Hsame.
    now apply (Permutation_in _ Hperm).
Qed.

(** * The size estimate *)

Lemma estimateVideoSize_other (resolution : Z) :
  ~ In resolution [144; 240; 360; 480; 720; 1080; 1440; 2160] ->
  estimateVideoSize resolution = 10.
Proof.
  intros H. unfold estimateVideoSize, estimates, lookup.
  repeat match goal with
         | |- context [resolution =? ?k] =>
             destruct (Z.eqb_spec resolution k);
             [exfalso; apply H; subst; simpl; tauto|]
         end.
  reflexivity.
Qed.

Lemma uint_units_string (d : Decimal.uint) :
  uint_units d = lit (DecimalString.NilEmpty.string_of_uint d).
Proof. induction d; simpl; [reflexivity|..]; now rewrite IHd. Qed.

(** [String(n)] is the decimal numeral of [n] as the standard library
    writes it. *)
Lemma of_number_string (n : Z) :
  of_number n
  = lit (DecimalString.NilZero.string_of_uint (N.to_uint (Z.to_N n))).
Proof.
  unfold of_number, DecimalString.NilZero.string_of_uint.
  destruct (N.to_uint (Z.to_N n)) eqn:E; try reflexivity;
    apply uint_units_string.
Qed.

(** Below 2^53 the rounded length is the nearest number of MB, the half
    rounded up. *)
Lemma round_mb_nearest (bytes : N) :
  (bytes <= 2 ^ 53)%N ->
  1048576 * round_mb bytes - 524288 <= Z.of_N bytes
  < 1048576 * round_mb bytes + 524288.
Proof.
  intros Hb. unfold round_mb.
  rewrite toDouble_exact by (change (2 ^ 53) with (Z.of_N (2 ^ 53)); lia).
  pose proof (Z.div_mod (2 * Z.of_N bytes + 1048576) 2097152 ltac:(lia)).
  pose proof (Z.mod_pos_bound (2 * Z.of_N bytes + 1048576) 2097152
                ltac:(lia)).
  lia.
Qed.

(** C7. The size table, and the size every option of the catalog shows
    when the byte lengths of the renditions are below 2^53: a tilde, the
    decimal numeral of a number of MB, and [ MB].  The number is the
    length of the rendition rounded to the nearest MB when the rendition
    has a length, else the table estimate for its resolution (the audio
    part: 3); for a split option it is the sum of the video part and the
    audio part. *)
Theorem size_estimation (formats : list Fmt.t) :
  let label (mb : Z) :=
    lit "~"
    ++ lit (DecimalString.NilZero.string_of_uint (N.to_uint (Z.to_N mb)))
    ++ lit " MB" in
  let part (length : option N) (estimate mb : Z) :=
    match length with
    | Some bytes =>
        1048576 * mb - 524288 <= Z.of_N bytes < 1048576 * mb + 524288
    | None => mb = estimate
    end in
  (estimateVideoSize 144 = 2 /\ estimateVideoSize 240 = 4
   /\ estimateVideoSize 360 = 8 /\ estimateVideoSize 480 = 15
   /\ estimateVideoSize 720 = 25 /\ estimateVideoSize 1080 = 50
   /\ estimateVideoSize 1440 = 80 /\ estimateVideoSize 2160 = 150)
  /\ (forall resolution,
         ~ In resolution [144; 240; 360; 480; 720; 1080; 1440; 2160] ->
         estimateVideoSize resolution = 10)
  /\ ((forall f bytes,
          In f formats -> Fmt.contentLength f = Some bytes ->
          (bytes <= 2 ^ 53)%N) ->
      forall o,
        In o (catalog formats) ->
        match kindOf o with
        | Combined =>
            exists format mb,
              In format formats
              /\ Opt.itag o = Some (Fmt.itag format)
              /\ part (Fmt.contentLength format)
                      (estimateVideoSize (Opt.resolution o)) mb
              /\ Opt.filesize o = label mb
        | Split =>
            exists bestAudio videoFormat video audio,
              bestAudioFormat formats = Some bestAudio
              /\ In videoFormat formats
              /\ Opt.videoItag o = Some (Fmt.itag videoFormat)
              /\ Opt.audioItag o = Some (Fmt.itag bestAudio)
              /\ part (Fmt.contentLength videoFormat)
                      (estimateVideoSize (Opt.resolution o)) video
              /\ part (Fmt.contentLength bestAudio) 3 audio
              /\ Opt.filesize o = label (video + audio)
        | AudioOnly =>
            exists bestAudio mb,
              bestAudioFormat formats = Some bestAudio
              /\ Opt.itag o = Some (Fmt.itag bestAudio)
              /\ part (Fmt.contentLength bestAudio) 3 mb
              /\ Opt.filesize o = label mb
        end).
Proof.
  intros label part.
  split; [repeat split; reflexivity|].
  split; [exact estimateVideoSize_other|].
  intros Hbound.
  assert (forall f estimate,
            In f formats ->
            part (Fmt.contentLength f) estimate
                 match Fmt.contentLength f with
                 | Some len => round_mb len
                 | None => estimate
                 end) as Hpart.
  { intros f estimate Hf. unfold part.
    destruct (Fmt.contentLength f) as [len|] eqn:E; [|reflexivity].
    apply round_mb_nearest. now apply (Hbound f). }
  assert (forall mb, mb_string mb = label mb) as Hlabel.
  { intros mb. unfold mb_string, label. now rewrite of_number_string. }
  intros o Hin. apply catalog_origin in Hin. destruct Hin as (k & Ho).
  destruct Ho as [f label' Hf Hc Hq|a v label' Ha Hv Hq|a Ha].
  - destruct (combinedOption_shape _ _ Hc Hq) as (_ & _ & _ & -> & _).
    exists f. eexists. split; [exact Hf|]. split; [reflexivity|].
    split; [exact (Hpart f _ Hf)|].
    unfold combinedOption. cbn [Opt.filesize Opt.resolution].
    rewrite <- Hlabel.
    now destruct (Fmt.contentLength f).
  - apply videoOnlyFormats_In in Hv. destruct Hv as [Hv Hc].
    destruct (highOption_shape a _ _ Hc Hq) as (_ & _ & _ & _ & _ & -> & _).
    assert (In a formats) as Hina.
    { unfold bestAudioFormat in Ha.
      destruct (JsArray.sort compareAudio (filter isAudioOnly formats))
        as [|x l] eqn:E; [discriminate|].
      inversion Ha; subst.
      assert (In a (JsArray.sort compareAudio (filter isAudioOnly formats)))
        as Hs by (rewrite E; now left).
      apply sort_In, filter_In in Hs. apply Hs. }
    exists a, v. eexists. eexists.
    split; [exact Ha|]. split; [exact Hv|].
    split; [reflexivity|]. split; [reflexivity|].
    split; [exact (Hpart v _ Hv)|].
    split; [exact (Hpart a _ Hina)|].
    cbn [highOption Opt.filesize Opt.resolution]. rewrite <- Hlabel.
    reflexivity.
  - change (kindOf (audioOnlyOption a)) with AudioOnly.
    assert (In a formats) as Hina.
    { unfold bestAudioFormat in Ha.
      destruct (JsArray.sort compareAudio (filter isAudioOnly formats))
        as [|x l] eqn:E; [discriminate|].
      inversion Ha; subst.
      assert (In a (JsArray.sort compareAudio (filter isAudioOnly formats)))
        as Hs by (rewrite E; now left).
      apply sort_In, filter_In in Hs. apply Hs. }
    exists a. eexists. split; [exact Ha|]. split; [reflexivity|].
    split; [exact (Hpart a 3 Hina)|].
    unfold audioOnlyOption. cbn [Opt.filesize]. rewrite <- Hlabel.
    now destruct (Fmt.contentLength a).
Qed.

(** * Candidate selection *)

Lemma compareAudio_trans (a b c : Fmt.t) :
  compareAudio a b <= 0 -> compareAudio b c <= 0 -> compareAudio a c <= 0.
Proof. unfold compareAudio. lia. Qed.

Lemma compareAudio_total (a b : Fmt.t) :
  0 < compareAudio a b -> compareAudio b a <= 0.
Proof. unfold compareAudio. lia. Qed.

(** The best audio rendition is an audio-only rendition of the list with
    the greatest audio bitrate, an absent bitrate counting as 0. *)
Lemma bestAudioFormat_max (formats : list Fmt.t) (best : Fmt.t) :
  bestAudioFormat formats = Some best ->
  In best formats /\ isAudioOnly best = true
  /\ forall f, In f formats -> isAudioOnly f = true ->
               num_or_0 (Fmt.audioBitrate f)
               <= num_or_0 (Fmt.audioBitrate best).
Proof.
  unfold bestAudioFormat. intros H.
  pose proof (sort_sorted _ compareAudio compareAudio_trans
                compareAudio_total (filter isAudioOnly formats)) as Hs.
  pose proof (sort_perm _ compareAudio (filter isAudioOnly formats)) as Hp.
  destruct (JsArray.sort compareAudio (filter isAudioOnly formats))
    as [|b rest]; [discriminate|].
  simpl in H. inversion H; subst b.
  assert (In best (filter isAudioOnly formats)) as Hb
      by (apply (Permutation_in _ Hp); now left).
  apply filter_In in Hb. destruct Hb as [Hb1 Hb2].
  repeat split; auto.
  intros f Hf Ha.
  assert (In f (best :: rest)) as Hin.
  { apply (Permutation_in _ (Permutation_sym Hp)).
    apply filter_In. auto. }
  destruct Hin as [<-|Hin]; [lia|].
  inversion Hs as [|? ? _ Hall]; subst.
  rewrite Forall_forall in Hall. specialize (Hall f Hin).
  unfold compareAudio in Hall. lia.
Qed.

Lemma bestAudioFormat_none (formats : list Fmt.t) :
  bestAudioFormat formats = None <->
  forall f, In f formats -> isAudioOnly f = false.
Proof.
  unfold bestAudioFormat.
  pose proof (sort_perm _ compareAudio (filter isAudioOnly formats)) as Hp.
  destruct (JsArray.sort compareAudio (filter isAudioOnly formats))
    as [|b rest]; simpl; split; intros H; try discriminate; auto.
  - intros f Hf. destruct (isAudioOnly f) eqn:E; [|reflexivity].
    apply Permutation_nil in Hp.
    assert (In f (filter isAudioOnly formats)) as Hin
        by (apply filter_In; auto).
    rewrite Hp in Hin. destruct Hin.
  - exfalso.
    assert (In b (filter isAudioOnly formats)) as Hb
      by (apply (Permutation_in _ Hp); now left).
    apply filter_In in Hb. destruct Hb as [Hb1 Hb2].
    rewrite (H b Hb1) in Hb2. discriminate.
Qed.

(** ** The reducer of the video-only candidates *)

Lemma opt_str_eqb_eq (a b : option jsstring) :
  opt_str_eqb a b = true <-> a = b.
Proof.
  destruct a as [a|], b as [b|]; simpl; try (split; congruence).
  rewrite eqb_eq. split; congruence.
Qed.

Lemma opt_str_eqb_neq (a b : option jsstring) :
  opt_str_eqb a b = false <-> a <> b.
Proof.
  rewrite <- opt_str_eqb_eq. destruct (opt_str_eqb a b); split; congruence.
Qed.

Lemma NoDup_snoc (A : Type) (l : list A) (x : A) :
  NoDup l -> ~ In x l -> NoDup (l ++ [x]).
Proof.
  intros Hl Hx. apply NoDup_rev in Hl.
  rewrite <- (rev_involutive (l ++ [x])). apply NoDup_rev.
  rewrite rev_unit. constructor; [|assumption]. now rewrite <- in_rev.
Qed.

Lemma NoDup_map_filter (A B : Type) (g : A -> B) (p : A -> bool)
  (l : list A) :
  NoDup (List.map g l) -> NoDup (List.map g (filter p l)).
Proof.
  induction l as [|x l IH]; simpl; intros H; [constructor|].
  inversion H as [|? ? Hx Hl]; subst.
  destruct (p x); simpl; [|auto].
  constructor; [|auto].
  intros Hin. apply Hx. apply in_map_iff in Hin.
  destruct Hin as (y & E & Hy). apply filter_In in Hy.
  apply in_map_iff. exists y. tauto.
Qed.

Lemma NoDup_map_inj (A B : Type) (g : A -> B) (l : list A) (a b : A) :
  NoDup (List.map g l) -> In a l -> In b l -> g a = g b -> a = b.
Proof.
  induction l as [|x l IH]; simpl; intros H Ha Hb E; [destruct Ha|].
  inversion H as [|? ? Hx Hl]; subst.
  destruct Ha as [->|Ha], Hb as [->|Hb]; auto.
  - exfalso. apply Hx. rewrite E. now apply in_map.
  - exfalso. apply Hx. rewrite <- E. now apply in_map.
Qed.

Lemma wouldReplace_irrefl (f : Fmt.t) : wouldReplace f f = false.
Proof.
  unfold wouldReplace, js_gt. destruct (Fmt.bitrate f) as [n|];
    [|reflexivity].
  rewrite N.ltb_irrefl. apply andb_false_r.
Qed.

Lemma wouldReplace_trans (f e g : Fmt.t) :
  wouldReplace f e = false -> wouldReplace g e = true ->
  wouldReplace f g = false.
Proof.
  unfold wouldReplace, js_gt, truthy_num.
  destruct (Fmt.bitrate f) as [bf|], (Fmt.bitrate e) as [be|],
    (Fmt.bitrate g) as [bg|]; simpl; rewrite ?andb_false_r;
    try reflexivity; try discriminate.
  destruct (bf =? 0)%N; simpl; [reflexivity|].
  destruct (bg =? 0)%N; simpl; [discriminate|].
  rewrite !N.ltb_lt, !N.ltb_ge. lia.
Qed.

Lemma keepBest_keptBest (seen acc : list Fmt.t) (format : Fmt.t) :
  keptBest seen acc -> keptBest (seen ++ [format]) (keepBest acc format).
Proof.
  intros (Hnd & Hsub & Hcov). unfold keepBest.
  remember (Fmt.qualityLabel format) as q eqn:Eq.
  destruct (find (fun f => opt_str_eqb (Fmt.qualityLabel f) q) acc)
    as [e|] eqn:Efind.
  - apply find_some in Efind. destruct Efind as [He Hq].
    apply opt_str_eqb_eq in Hq.
    fold (wouldReplace format e).
    destruct (wouldReplace format e) eqn:Er.
    + repeat split.
      * rewrite map_app. apply NoDup_snoc.
        -- now apply NoDup_map_filter.
        -- intros Hin. apply in_map_iff in Hin.
           destruct Hin as (y & Ey & Hy). apply filter_In in Hy.
           destruct Hy as [_ Hy]. apply negb_true_iff in Hy.
           apply opt_str_eqb_neq in Hy. simpl in Ey. congruence.
      * intros v Hv. apply in_app_iff in Hv. apply in_app_iff.
        destruct Hv as [Hv|Hv]; [|now right].
        apply filter_In in Hv. left. now apply Hsub.
      * intros f Hf. apply in_app_iff in Hf.
        destruct Hf as [Hf|[<-|[]]].
        -- destruct (Hcov f Hf) as (v & Hv & Hl & Hr).
           destruct (opt_str_eqb (Fmt.qualityLabel f) q) eqn:Efq.
           ++ apply opt_str_eqb_eq in Efq.
              assert (v = e) as ->
                  by (apply (NoDup_map_inj _ _ Fmt.qualityLabel acc);
                      auto; congruence).
              exists format. repeat split.
              ** apply in_app_iff. right. now left.
              ** now rewrite Efq.
              ** now apply wouldReplace_trans with e.
           ++ exists v. repeat split; auto.
              apply in_app_iff. left. apply filter_In. split; auto.
              rewrite Hl. now rewrite Efq.
        -- exists format. repeat split.
           ++ apply in_app_iff. right. now left.
           ++ apply wouldReplace_irrefl.
    + repeat split; auto.
      * intros v Hv. apply in_app_iff. left. now apply Hsub.
      * intros f Hf. apply in_app_iff in Hf.
        destruct Hf as [Hf|[<-|[]]]; [now apply Hcov|].
        exists e. repeat split; auto; congruence.
  - assert (forall x, In x acc ->
                      opt_str_eqb (Fmt.qualityLabel x) q = false) as Hnone
        by (intros x Hx; apply (find_none _ _ Efind x Hx)).
    repeat split.
    + rewrite map_app. apply NoDup_snoc.
      * now apply NoDup_map_filter.
      * intros Hin. apply in_map_iff in Hin.
        destruct Hin as (y & Ey & Hy). apply filter_In in Hy.
        destruct Hy as [Hy _]. apply Hnone in Hy.
        apply opt_str_eqb_neq in Hy. simpl in Ey. congruence.
    + intros v Hv. apply in_app_iff in Hv. apply in_app_iff.
      destruct Hv as [Hv|Hv]; [|now right].
      apply filter_In in Hv. left. now apply Hsub.
    + intros f Hf. apply in_app_iff in Hf.
      destruct Hf as [Hf|[<-|[]]].
      * destruct (Hcov f Hf) as (v & Hv & Hl & Hr).
        exists v. repeat split; auto.
        apply in_app_iff. left. apply filter_In. split; auto.
        now rewrite (Hnone v Hv).
      * exists format. repeat split.
        -- apply in_app_iff. right. now left.
        -- apply wouldReplace_irrefl.
Qed.

Lemma fold_keepBest_keptBest (l seen acc : list Fmt.t) :
  keptBest seen acc -> keptBest (seen ++ l) (fold_left keepBest l acc).
Proof.
  revert seen acc. induction l as [|f l IH]; intros seen acc H; simpl.
  - now rewrite app_nil_r.
  - replace (seen ++ f :: l) with ((seen ++ [f]) ++ l)
      by (now rewrite <- app_assoc).
    apply IH. now apply keepBest_keptBest.
Qed.

(** What the reducer does keep: one entry per quality label, and for a
    kept entry that has a bitrate no candidate of the same label has a
    greater one (a candidate without a bitrate counting as 0). *)
Lemma videoOnlyFormats_best (formats : list Fmt.t) :
  NoDup (List.map Fmt.qualityLabel (videoOnlyFormats formats))
  /\ (forall f, In f formats -> isVideoOnlyMp4 f = true ->
        exists v, In v (videoOnlyFormats formats)
                  /\ Fmt.qualityLabel v = Fmt.qualityLabel f
                  /\ (forall bv, Fmt.bitrate v = Some bv ->
                                 num_or_0 (Fmt.bitrate f) <= Z.of_N bv)).
Proof.
  assert (keptBest (filter isVideoOnlyMp4 formats)
                   (videoOnlyFormats formats)) as (Hnd & _ & Hcov).
  { apply (fold_keepBest_keptBest _ [] []).
    repeat split; [constructor|intros ? []|intros ? []]. }
  split; [assumption|].
  intros f Hf Hc.
  destruct (Hcov f) as (v & Hv & Hl & Hr); [apply filter_In; auto|].
  exists v. repeat split; auto.
  intros bv Hb. revert Hr. unfold wouldReplace, js_gt, truthy_num.
  rewrite Hb. destruct (Fmt.bitrate f) as [bf|]; simpl; [|lia].
  destruct (N.eqb_spec bf 0); simpl; [lia|].
  rewrite N.ltb_ge. lia.
Qed.

(** Without an audio-only rendition the catalog holds pre-muxed options
    only. *)
Lemma no_audio_only_combined (formats : list Fmt.t) (o : Opt.t) :
  bestAudioFormat formats = None ->
  In o (catalog formats) -> kindOf o = Combined.
Proof.
  intros Hn Ho. apply catalog_origin in Ho. destruct Ho as (k & Ho).
  destruct Ho as [f label Hf Hc Hq|a v label Ha Hv Hq|a Ha];
    try congruence.
  now destruct (combinedOption_shape _ _ Hc Hq) as (_ & _ & _ & Hk & _).
Qed.

(** * Filename sanitization *)

Lemma trimStart_split (s : jsstring) :
  exists a, s = a ++ trimStart s /\ Forall (fun c => is_space c = true) a.
Proof.
  induction s as [|c s (a & E & Ha)]; simpl.
  - exists []. auto.
  - destruct (is_space c) eqn:Ec.
    + exists (c :: a). split; [simpl; now f_equal | now constructor].
    + exists []. auto.
Qed.

Lemma trim_split (s : jsstring) :
  exists a b,
    s = a ++ trim s ++ b
    /\ Forall (fun c => is_space c = true) a
    /\ Forall (fun c => is_space c = true) b.
Proof.
  destruct (trimStart_split s) as (a & Ea & Ha).
  destruct (trimStart_split (rev (trimStart s))) as (b & Eb & Hb).
  exists a, (rev b). unfold trim, trimEnd. repeat split; auto.
  - rewrite <- rev_app_distr, <- Eb, rev_involutive. exact Ea.
  - now apply Forall_rev.
Qed.

Lemma filter_all_false (A : Type) (p : A -> bool) (l : list A) :
  Forall (fun c => p c = false) l -> filter p l = [].
Proof.
  induction 1 as [|c l Hc _ IH]; simpl; [reflexivity|]. now rewrite Hc.
Qed.

(** Trimming only removes whitespace. *)
Lemma filter_trim (p : N -> bool) (s : jsstring) :
  (forall c, is_space c = true -> p c = false) ->
  filter p (trim s) = filter p s.
Proof.
  intros Hp. destruct (trim_split s) as (a & b & E & Ha & Hb).
  rewrite E at 2. rewrite !filter_app.
  rewrite (filter_all_false _ p a), (filter_all_false _ p b).
  - now rewrite app_nil_r.
  - eapply Forall_impl; [|exact Hb]. auto.
  - eapply Forall_impl; [|exact Ha]. auto.
Qed.

(** Replacing whitespace runs leaves the other characters as they are. *)
Lemma filter_underscoreRuns (inRun : bool) (s : jsstring) :
  filter (fun c => negb (c =? 95)%N) (underscoreRuns inRun s)
  = filter (fun c => negb (is_space c) && negb (c =? 95)%N) s.
Proof.
  revert inRun. induction s as [|c s IH]; intros inRun; simpl;
    [reflexivity|].
  destruct (is_space c) eqn:Ec; simpl.
  - destruct inRun; simpl; apply IH.
  - rewrite IH. reflexivity.
Qed.

Lemma underscoreRuns_no_space (inRun : bool) (s : jsstring) :
  Forall (fun c => is_space c = false) (underscoreRuns inRun s).
Proof.
  revert inRun. induction s as [|c s IH]; intros inRun; simpl;
    [constructor|].
  destruct (is_space c) eqn:Ec.
  - destruct inRun; [apply IH|]. constructor; [reflexivity|apply IH].
  - constructor; [assumption|apply IH].
Qed.

Lemma underscoreRuns_In (inRun : bool) (s : jsstring) (c : N) :
  In c (underscoreRuns inRun s) -> c = 95%N \/ In c s.
Proof.
  revert inRun. induction s as [|d s IH]; intros inRun; simpl; [tauto|].
  destruct (is_space d).
  - destruct inRun; simpl; intros H.
    + apply IH in H. tauto.
    + destruct H as [H|H]; [now left|]. apply IH in H. tauto.
  - simpl. intros [H|H]; [tauto|]. apply IH in H. tauto.
Qed.

Lemma underscoreRuns_clean (s : jsstring) :
  startsClean s -> underscoreRuns true s = underscoreRuns false s.
Proof. destruct s as [|c s]; simpl; [reflexivity|]. now intros ->. Qed.

Lemma underscoreRuns_skip (w v : jsstring) :
  Forall (fun c => is_space c = true) w -> startsClean v ->
  underscoreRuns true (w ++ v) = underscoreRuns false v.
Proof.
  induction 1 as [|c w Hc _ IH]; simpl; intros Hv.
  - now apply underscoreRuns_clean.
  - rewrite Hc. now apply IH.
Qed.

(** A run of whitespace between two parts that do not touch it with
    whitespace becomes a single underscore. *)
Lemma underscoreRuns_run (inRun : bool) (u w v : jsstring) :
  startsClean (rev u) -> w <> [] ->
  Forall (fun c => is_space c = true) w -> startsClean v ->
  (u = [] -> inRun = false) ->
  underscoreRuns inRun (u ++ w ++ v)
  = underscoreRuns inRun u ++ [95%N] ++ underscoreRuns false v.
Proof.
  intros Hu Hw Hs Hv. revert inRun.
  induction u as [|c u IH]; intros inRun Hrun.
  - rewrite (Hrun eq_refl). destruct w as [|d w]; [congruence|].
    inversion Hs as [|? ? Hd Hs']; subst. simpl. rewrite Hd.
    now rewrite underscoreRuns_skip.
  - simpl. destruct u as [|c' u].
    + simpl in Hu. rewrite Hu. simpl.
      destruct w as [|d w]; [congruence|].
      inversion Hs as [|? ? Hd Hs']; subst. simpl. rewrite Hd.
      now rewrite underscoreRuns_skip.
    + assert (startsClean (rev (c' :: u))) as Hu'.
      { clear -Hu. simpl in *. destruct (rev u) as [|x r]; simpl in *; auto. }
      destruct (is_space c).
      * destruct inRun; rewrite IH by (auto; discriminate); reflexivity.
      * rewrite IH by (auto; discriminate). reflexivity.
Qed.

Lemma trimStart_clean (s : jsstring) : startsClean (trimStart s).
Proof.
  induction s as [|c s IH]; simpl; [exact I|].
  destruct (is_space c) eqn:E; [exact IH|exact E].
Qed.

Lemma trim_clean (s : jsstring) :
  startsClean (trim s) /\ startsClean (rev (trim s)).
Proof.
  unfold trim, trimEnd. split.
  - pose proof (trimStart_clean s) as Hs.
    destruct (trimStart_split (rev (trimStart s))) as (b & Eb & Hb).
    apply (f_equal (@rev N)) in Eb.
    rewrite rev_involutive, rev_app_distr in Eb.
    rewrite Eb in Hs.
    destruct (rev (trimStart (rev (trimStart s)))); [exact I|exact Hs].
  - rewrite rev_involutive. apply trimStart_clean.
Qed.

Lemma space_not_name_char (c : N) :
  is_space c = true -> is_word c || (c =? 45)%N = false.
Proof.
  intros H. apply not_true_is_false. intros W. revert H W.
  unfold is_space, is_word, is_digit.
  rewrite !orb_true_iff, !andb_true_iff, !N.leb_le, !N.eqb_eq. lia.
Qed.

Lemma filter_filter_and (A : Type) (p q : A -> bool) (l : list A) :
  filter p (filter q l) = filter (fun c => q c && p c) l.
Proof.
  induction l as [|c l IH]; simpl; [reflexivity|].
  destruct (q c); simpl; [|exact IH]. destruct (p c); now rewrite IH.
Qed.

Lemma sanitizeName_chars (title : jsstring) :
  Forall (fun c => is_word c || (c =? 45)%N = true) (sanitizeName title).
Proof.
  apply Forall_forall. intros c Hc. unfold sanitizeName in Hc.
  pose proof (underscoreRuns_no_space false (trim (stripUnsafe title)))
    as Hns.
  rewrite Forall_forall in Hns. specialize (Hns c Hc).
  apply underscoreRuns_In in Hc. destruct Hc as [->|Hc]; [reflexivity|].
  destruct (trim_split (stripUnsafe title)) as (a & b & Et & _ & _).
  assert (In c (stripUnsafe title)) as Hin
      by (rewrite Et, !in_app_iff; tauto).
  apply filter_In in Hin. destruct Hin as [_ Hin].
  unfold allowedInName in Hin. rewrite Hns in Hin. revert Hin.
  now destruct (is_word c), (c =? 45)%N.
Qed.

(** The chain of replacements: the title with every character outside
    word characters, whitespace and hyphen removed, trimmed, and with each
    run of whitespace replaced by one underscore; the name computed when
    the metadata arrives ([sanitizedTitle]) is that name cut to 100
    characters; and the title [My Video: Part #1!] gives
    [My_Video_Part_1]. *)
Lemma sanitizeName_chain (title : jsstring) :
  let stripped := stripUnsafe title in
  let name := sanitizeName title in
  (* strip: what is left are the allowed characters, in order *)
  Forall (fun c => is_word c || is_space c || (c =? 45)%N = true) stripped
  /\ (forall p, filter p stripped
                = filter (fun c => allowedInName c && p c) title)
  (* trim *)
  /\ (exists a b,
         stripped = a ++ trim stripped ++ b
         /\ Forall (fun c => is_space c = true) a
         /\ Forall (fun c => is_space c = true) b
         /\ startsClean (trim stripped)
         /\ startsClean (rev (trim stripped)))
  (* whitespace runs *)
  /\ (forall u w v,
         trim stripped = u ++ w ++ v ->
         startsClean (rev u) -> w <> [] ->
         Forall (fun c => is_space c = true) w -> startsClean v ->
         name = underscoreRuns false u ++ [95%N] ++ underscoreRuns false v)
  (* the result *)
  /\ Forall (fun c => is_word c || (c =? 45)%N = true) name
  /\ filter (fun c => negb (c =? 95)%N) name
     = filter (fun c => (is_word c || (c =? 45)%N) && negb (c =? 95)%N)
              title
  (* the cap *)
  /\ sanitizedTitle title = firstn 100 name
  /\ (List.length (sanitizedTitle title) <= 100)%nat
  /\ sanitizeName (lit "My Video: Part #1!") = lit "My_Video_Part_1".
Proof.
  intros stripped name.
  assert (Forall (fun c => is_word c || is_space c || (c =? 45)%N = true)
                 stripped) as Hstrip.
  { apply Forall_forall. intros c Hc. unfold stripped, stripUnsafe in Hc.
    apply filter_In in Hc. apply Hc. }
  destruct (trim_split stripped) as (a & b & Et & Ha & Hb).
  destruct (trim_clean stripped) as [Hc1 Hc2].
  split; [exact Hstrip|].
  split; [intros p; apply filter_filter_and|].
  split; [exists a, b; auto|].
  split.
  { intros u w v E Hu Hw Hs Hv. unfold name, sanitizeName.
    fold stripped. rewrite E. now apply underscoreRuns_run. }
  split.
  { apply Forall_forall. intros c Hc.
    pose proof (underscoreRuns_no_space false (trim stripped)) as Hns.
    rewrite Forall_forall in Hns. specialize (Hns c Hc).
    apply underscoreRuns_In in Hc. destruct Hc as [->|Hc]; [reflexivity|].
    assert (In c stripped) as Hin by (rewrite Et, !in_app_iff; tauto).
    rewrite Forall_forall in Hstrip. specialize (Hstrip c Hin).
    rewrite Hns in Hstrip. revert Hstrip.
    now destruct (is_word c), (c =? 45)%N. }
  split.
  { unfold name, sanitizeName. fold stripped.
    rewrite filter_underscoreRuns, filter_trim.
    - unfold stripped, stripUnsafe. rewrite filter_filter_and.
      apply filter_ext. intros c. unfold allowedInName.
      destruct (is_space c) eqn:Ec.
      + rewrite (space_not_name_char c Ec).
        destruct (is_word c); reflexivity.
      + destruct (is_word c), (c =? 45)%N, (c =? 95)%N; reflexivity.
    - intros c Hc. now rewrite Hc. }
  split; [reflexivity|].
  split; [unfold sanitizedTitle; apply firstn_le_length|].
  reflexivity.
Qed.

(** C9, evaluated.  For a title of 101 letters [a] the name computed when
    the metadata arrives is cut to 100 characters, as its comment says,
    but no handler reads it: each of the three handlers computes the name
    again, without the cut, and the [Content-Disposition] header of the
    pre-muxed, the audio-only and the split answer carries all 101
    letters before the extension; the page saves the file under that
    name. *)
Theorem header_filename_not_capped :
  let header ext :=
    lit "attachment; filename=" ++ [34%N] ++ repeat 97%N 101 ++ lit ext
    ++ [34%N] in
  let answers format ext :=
    forall refusedValue ytdl url,
    exists headers body,
      Download.dispatch ytdl refusedValue url longTitleInfo format
      = Download.Stream headers body
      /\ Download.Headers.contentDisposition headers = header ext in
  List.length (sanitizedTitle longTitle) = 100%nat
  /\ answers sampleCombinedOption ".mp4"%string
  /\ answers sampleAudioOption ".mp3"%string
  /\ answers sampleHighOption ".mp4"%string
  /\ downloadFilename (Some longTitle) (lit "mp3")
                      (Some (header ".mp3"%string))
     = repeat 97%N 101 ++ lit ".mp3"
  /\ List.length (repeat 97%N 101 ++ lit ".mp3") = 105%nat.
Proof.
  cbv zeta. split; [reflexivity|].
  split; [|split; [|split; [|split]]];
    try (intros refusedValue ytdl url; eexists; eexists;
         split; reflexivity);
    reflexivity.
Qed.

(** * The download route *)

Lemma findByItag_some (formats : list Fmt.t) (wanted : option Z) (f : Fmt.t) :
  Download.findByItag formats wanted = Some f ->
  In f formats /\ wanted = Some (Fmt.itag f).
Proof.
  unfold Download.findByItag. intros H. apply find_some in H.
  destruct H as [Hin H]. split; [assumption|].
  destruct wanted as [i|]; [|discriminate].
  apply Z.eqb_eq in H. now subst.
Qed.

Lemma findByItag_none (formats : list Fmt.t) (wanted : option Z) :
  Download.findByItag formats wanted = None <-> ~ present formats wanted.
Proof.
  unfold Download.findByItag, present. split.
  - intros H (f & Hin & ->).
    apply (find_none _ _ H) in Hin. rewrite Z.eqb_refl in Hin. discriminate.
  - intros H.
    destruct (find _ formats) as [f|] eqn:E; [|reflexivity].
    exfalso. apply H. exists f. now apply findByItag_some.
Qed.

(** The first rendition with the identifier is the one found. *)
Lemma findByItag_first (formats : list Fmt.t) (wanted : option Z) (f : Fmt.t) :
  Download.findByItag formats wanted = Some f
  <-> firstWithItag formats wanted f.
Proof.
  unfold Download.findByItag, firstWithItag. split.
  - induction formats as [|g formats IH]; [discriminate|]. cbn [find].
    destruct wanted as [i|]; [|intros H; apply find_some in H;
                                destruct H; discriminate].
    destruct (Z.eqb_spec (Fmt.itag g) i) as [E|E].
    + intros H. inversion H; subst. exists [], formats. auto.
    + intros H. destruct (IH H) as (pre & post & -> & Hi & Hpre).
      exists (g :: pre), post. repeat split; auto.
      constructor; [|assumption]. congruence.
  - intros (pre & post & -> & -> & Hpre).
    induction Hpre as [|g pre Hg _ IH]; cbn [app find].
    + now rewrite Z.eqb_refl.
    + destruct (Z.eqb_spec (Fmt.itag g) (Fmt.itag f)); [contradiction|].
      exact IH.
Qed.

Lemma present_first (formats : list Fmt.t) (wanted : option Z) :
  present formats wanted <-> exists f, firstWithItag formats wanted f.
Proof.
  split.
  - intros H.
    destruct (Download.findByItag formats wanted) as [f|] eqn:E.
    + exists f. now apply findByItag_first.
    + apply findByItag_none in E. contradiction.
  - intros (f & H). apply findByItag_first, findByItag_some in H.
    exists f. exact H.
Qed.

(** ** Header values *)

Lemma stripStart_clean (v : jsstring) :
  match v with
  | c :: _ => Download.Headers.isHttpWhitespace c = false
  | [] => True
  end ->
  Download.Headers.stripStart v = v.
Proof. destruct v as [|c v]; simpl; [reflexivity|]. now intros ->. Qed.

(** A value that neither begins nor ends with HTTP whitespace is stored
    as it is, provided it is a byte string without NUL, line feed and
    carriage return. *)
Lemma store_clean (first last : N) (middle : jsstring) :
  Download.Headers.isHttpWhitespace first = false ->
  Download.Headers.isHttpWhitespace last = false ->
  Download.Headers.isByteString (first :: middle ++ [last]) = true ->
  Download.Headers.isHeaderValue (first :: middle ++ [last]) = true ->
  Download.Headers.store (first :: middle ++ [last])
  = Some (first :: middle ++ [last]).
Proof.
  intros Hf Hl Hb Hv. unfold Download.Headers.store.
  assert (Download.Headers.normalize (first :: middle ++ [last])
          = first :: middle ++ [last]) as ->.
  { unfold Download.Headers.normalize.
    rewrite (stripStart_clean (first :: _)) by exact Hf.
    change (first :: middle ++ [last]) with ((first :: middle) ++ [last]).
    rewrite rev_unit, (stripStart_clean (last :: _)) by exact Hl.
    now rewrite <- rev_unit, rev_involutive. }
  now rewrite Hb, Hv.
Qed.

(** The characters of a sanitized name are bytes a header value may
    hold. *)
Lemma name_char_header (c : N) :
  is_word c || (c =? 45)%N = true ->
  (c <=? 255)%N = true
  /\ negb ((c =? 0) || (c =? 10) || (c =? 13))%N = true.
Proof.
  intros H.
  assert (45 <= c <= 122)%N as Hc.
  { unfold is_word, is_digit in H.
    destruct (N.leb_spec 48 c), (N.leb_spec c 57), (N.leb_spec 65 c),
      (N.leb_spec c 90), (N.leb_spec 97 c), (N.leb_spec c 122),
      (N.eqb_spec c 95), (N.eqb_spec c 45);
      simpl in H; try discriminate; lia. }
  split.
  - apply N.leb_le. lia.
  - destruct (N.eqb_spec c 0), (N.eqb_spec c 10), (N.eqb_spec c 13);
      try reflexivity; lia.
Qed.

Lemma digit_header (c : N) :
  is_digit c = true ->
  (c <=? 255)%N = true
  /\ negb ((c =? 0) || (c =? 10) || (c =? 13))%N = true
  /\ Download.Headers.isHttpWhitespace c = false.
Proof.
  unfold is_digit, Download.Headers.isHttpWhitespace. intros H.
  apply andb_true_iff in H. destruct H as [H H'].
  apply N.leb_le in H, H'. split; [apply N.leb_le; lia|].
  destruct (N.eqb_spec c 0), (N.eqb_spec c 10), (N.eqb_spec c 13),
    (N.eqb_spec c 9), (N.eqb_spec c 32); try (split; reflexivity); lia.
Qed.

Lemma normalize_attachment (filename : jsstring) :
  Download.Headers.normalize (Download.attachment filename)
  = Download.attachment filename.
Proof.
  unfold Download.attachment, Download.Headers.normalize.
  change (lit "attachment; filename=")
    with (97%N :: lit "ttachment; filename=").
  cbn [app]. rewrite (stripStart_clean (97%N :: _)) by reflexivity.
  replace (97%N :: lit "ttachment; filename=" ++ 34%N :: filename
           ++ [34%N])
    with ((97%N :: lit "ttachment; filename=" ++ 34%N :: filename)
          ++ [34%N])
    by (cbn [app]; now rewrite <- app_assoc).
  rewrite rev_unit, (stripStart_clean (34%N :: _)) by reflexivity.
  now rewrite <- rev_unit, rev_involutive.
Qed.

(** What is stored is the normalized value. *)
Lemma store_some (v stored : jsstring) :
  Download.Headers.store v = Some stored ->
  stored = Download.Headers.normalize v.
Proof.
  unfold Download.Headers.store.
  destruct (_ && _); [|discriminate]. now intros [= <-].
Qed.

(** The value of [Content-Disposition] is stored as it is when the file
    name is made of such bytes. *)
Lemma store_attachment (filename : jsstring) :
  Download.Headers.isByteString filename = true ->
  Download.Headers.isHeaderValue filename = true ->
  Download.Headers.store (Download.attachment filename)
  = Some (Download.attachment filename).
Proof.
  intros Hb Hv. unfold Download.attachment.
  change (lit "attachment; filename=" ++ [34%N] ++ filename ++ [34%N])
    with (97%N :: (lit "ttachment; filename=" ++ [34%N] ++ filename)
                  ++ [34%N]).
  rewrite <- !app_assoc. cbn [app].
  change (lit "attachment; filename=")
    with (97%N :: lit "ttachment; filename=").
  cbn [app].
  replace (lit "ttachment; filename=" ++ 34%N :: filename ++ [34%N])
    with ((lit "ttachment; filename=" ++ 34%N :: filename) ++ [34%N])
    by (now rewrite <- app_assoc).
  apply store_clean; try reflexivity.
  - unfold Download.Headers.isByteString in *. cbn [forallb].
    rewrite !forallb_app. cbn [forallb]. rewrite Hb. reflexivity.
  - unfold Download.Headers.isHeaderValue in *. cbn [forallb].
    rewrite !forallb_app. cbn [forallb]. rewrite Hv. reflexivity.
Qed.

(** The refusal of the value of [Content-Disposition] is the refusal of
    the file name. *)
Lemma store_attachment_none (filename : jsstring) :
  Download.Headers.isByteString filename
  && Download.Headers.isHeaderValue filename = false ->
  Download.Headers.store (Download.attachment filename) = None.
Proof.
  intros H. unfold Download.Headers.store.
  rewrite normalize_attachment.
  destruct (Download.Headers.isByteString (Download.attachment filename)
            && Download.Headers.isHeaderValue
                 (Download.attachment filename)) eqn:E; [|reflexivity].
  exfalso. apply andb_true_iff in E. destruct E as [Eb Ev].
  unfold Download.attachment, Download.Headers.isByteString,
    Download.Headers.isHeaderValue in *.
  rewrite !forallb_app in Eb, Ev.
  apply andb_true_iff in Eb. destruct Eb as [_ Eb].
  apply andb_true_iff in Eb. destruct Eb as [_ Eb].
  apply andb_true_iff in Eb. destruct Eb as [Eb _].
  apply andb_true_iff in Ev. destruct Ev as [_ Ev].
  apply andb_true_iff in Ev. destruct Ev as [_ Ev].
  apply andb_true_iff in Ev. destruct Ev as [Ev _].
  rewrite Eb, Ev in H. discriminate.
Qed.

Lemma forallb_Forall_impl (P : N -> Prop) (p : N -> bool) (l : jsstring) :
  (forall c, P c -> p c = true) -> Forall P l -> forallb p l = true.
Proof.
  intros H Hl. apply forallb_forall. rewrite Forall_forall in Hl. auto.
Qed.

(** The name the handlers build, with a dot and an extension of such
    bytes, is stored as it is. *)
Lemma store_name (title ext : jsstring) :
  Download.Headers.isByteString ext = true ->
  Download.Headers.isHeaderValue ext = true ->
  Download.Headers.store
    (Download.attachment (sanitizeName title ++ lit "." ++ ext))
  = Some (Download.attachment (sanitizeName title ++ lit "." ++ ext)).
Proof.
  intros Hb Hv. apply store_attachment.
  - unfold Download.Headers.isByteString in *. rewrite !forallb_app, Hb.
    rewrite (forallb_Forall_impl _ _ _
               (fun c H => proj1 (name_char_header c H))
               (sanitizeName_chars title)).
    reflexivity.
  - unfold Download.Headers.isHeaderValue in *. rewrite !forallb_app, Hv.
    rewrite (forallb_Forall_impl _ _ _
               (fun c H => proj2 (name_char_header c H))
               (sanitizeName_chars title)).
    reflexivity.
Qed.

(** With an extension that is not made of such bytes the name is
    refused. *)
Lemma store_name_none (title ext : jsstring) :
  Download.Headers.isByteString ext
  && Download.Headers.isHeaderValue ext = false ->
  Download.Headers.store
    (Download.attachment (sanitizeName title ++ lit "." ++ ext))
  = None.
Proof.
  intros H. apply store_attachment_none.
  unfold Download.Headers.isByteString, Download.Headers.isHeaderValue in *.
  rewrite !forallb_app.
  rewrite (forallb_Forall_impl _ _ _
             (fun c H => proj1 (name_char_header c H))
             (sanitizeName_chars title)).
  rewrite (forallb_Forall_impl _ _ _
             (fun c H => proj2 (name_char_header c H))
             (sanitizeName_chars title)).
  exact H.
Qed.

(** The decimal numeral of a length is stored as it is. *)
Lemma store_of_number (n : Z) :
  Download.Headers.store (of_number n) = Some (of_number n).
Proof.
  pose proof (of_number_digits n) as Hd.
  pose proof (of_number_nonempty n) as Hne.
  assert (forall v, Forall (fun c => is_digit c = true) v ->
          Download.Headers.isByteString v = true
          /\ Download.Headers.isHeaderValue v = true) as Hok.
  { intros v Hv. split.
    - apply (forallb_Forall_impl _ _ _
               (fun c H => proj1 (digit_header c H)) Hv).
    - apply (forallb_Forall_impl _ _ _
               (fun c H => proj1 (proj2 (digit_header c H))) Hv). }
  destruct (Hok _ Hd) as [Hb Hv].
  destruct (of_number n) as [|first rest] eqn:E; [congruence|].
  destruct (exists_last (l := first :: rest) ltac:(discriminate))
    as (front & last & Efl).
  unfold Download.Headers.store. rewrite Hb.
  assert (Download.Headers.normalize (first :: rest) = first :: rest) as ->.
  { unfold Download.Headers.normalize.
    inversion Hd as [|? ? Hfirst _]; subst.
    rewrite (stripStart_clean (first :: rest))
      by exact (proj2 (proj2 (digit_header _ Hfirst))).
    rewrite Efl, rev_unit.
    assert (is_digit last = true) as Hlast.
    { rewrite Efl in Hd. apply Forall_app in Hd. destruct Hd as [_ Hd].
      now inversion Hd. }
    rewrite (stripStart_clean (last :: _))
      by exact (proj2 (proj2 (digit_header _ Hlast))).
    now rewrite <- rev_unit, rev_involutive. }
  now rewrite Hv.
Qed.

Section Headers.
Variable refusedValue : jsstring -> jsstring.

Lemma setContentLength_ok (headers : Download.Headers.t) (f : Fmt.t) :
  Download.setContentLength refusedValue headers (Download.lengthHeader f)
  = inr (Download.Headers.mk
           (Download.Headers.contentType headers)
           (Download.Headers.contentDisposition headers)
           (Download.Headers.cacheControl headers)
           (match Download.lengthHeader f with
            | Some length => Some length
            | None => Download.Headers.contentLength headers
            end)).
Proof.
  unfold Download.setContentLength, Download.lengthHeader.
  destruct (Fmt.contentLength f) as [len|].
  - now rewrite store_of_number.
  - now destruct headers.
Qed.

(** The headers of the three handlers once the value of
    [Content-Disposition] is accepted. *)
Lemma newHeaders_ok (contentType filename : jsstring) :
  Download.Headers.store contentType = Some contentType ->
  Download.Headers.store (Download.attachment filename)
  = Some (Download.attachment filename) ->
  Download.newHeaders refusedValue contentType
    (Download.attachment filename) (lit "no-cache")
  = inr (Download.Headers.mk contentType (Download.attachment filename)
                             (lit "no-cache") None).
Proof.
  intros Ht Hd. unfold Download.newHeaders. now rewrite Ht, Hd.
Qed.

End Headers.

(** C4, evaluated.  Each handler looks identifiers up by equality, takes
    the first rendition that has the identifier, and answers 404 when an
    identifier it looks up is absent.  Which identifiers are looked up
    depends on the flag of the option and not on the identifiers it
    carries: the split handler, the only one that reads the pair of a
    split option, is reached by a flagged option only.  The catalog's own
    720p split option, whose video identifier 136 and audio identifier 140
    are both in the metadata, is looked up under the single identifier it
    does not have and answered with 404. *)
Theorem download_lookup :
  (forall refusedValue ytdl url info format,
     let formats := Info.formats info in
     let response := Download.dispatch ytdl refusedValue url info format in
     let standard := negb (eqb (Opt.quality format) (lit "Audio Only")) in
     (* the answer of the route once the metadata is fetched *)
     (forall validateURL getInfo,
        url <> [] -> validateURL url = true -> getInfo url = inr info ->
        Download.POST validateURL getInfo ytdl refusedValue
          (inr (Download.mkRequest (Some url) (Some format)))
        = response)
     (* flagged: the pair *)
     /\ (Opt.isHighQuality format = true ->
        (forall videoFormat audioFormat,
           firstWithItag formats (Opt.videoItag format) videoFormat ->
           firstWithItag formats (Opt.audioItag format) audioFormat ->
           exists headers,
             response
             = Download.Stream headers
                 (Download.MuxOf (ytdl url videoFormat)
                                 (ytdl url audioFormat)))
        /\ (~ present formats (Opt.videoItag format)
            \/ ~ present formats (Opt.audioItag format) ->
            response
            = Download.Json 404 (lit "Requested formats not found")))
     (* not flagged: the single identifier *)
     /\ (Opt.isHighQuality format = false ->
         (forall selected,
            firstWithItag formats (Opt.itag format) selected ->
            (standard = false
             \/ Download.Headers.isByteString (Opt.format format)
                && Download.Headers.isHeaderValue (Opt.format format)
                = true ->
             exists headers,
               response
               = Download.Stream headers
                   (Download.RelayOf (ytdl url selected)))
            /\ (standard = true ->
                Download.Headers.isByteString (Opt.format format)
                && Download.Headers.isHeaderValue (Opt.format format)
                = false ->
                response
                = Download.handleError
                    (ErrorObject
                       (refusedValue
                          (Download.attachment
                             (sanitizeName (Info.title info) ++ lit "."
                              ++ Opt.format format))))))
         /\ (~ present formats (Opt.itag format) ->
             response
             = Download.Json 404
                 (if standard then lit "Requested format not found"
                  else lit "Requested audio format not found"))))
  (* the 720p split option of the sample catalog *)
  /\ In sampleSplit720Option (catalog sampleFormats)
  /\ Opt.isHighQuality sampleSplit720Option = false
  /\ Opt.itag sampleSplit720Option = None
  /\ (exists post,
        firstWithItag sampleFormats (Opt.videoItag sampleSplit720Option)
                      (nth 3 sampleFormats sampleBestAudio)
        /\ Fmt.itag (nth 3 sampleFormats sampleBestAudio) = 136
        /\ firstWithItag sampleFormats (Opt.audioItag sampleSplit720Option)
                         sampleBestAudio
        /\ Fmt.itag sampleBestAudio = 140
        /\ sampleFormats = post ++ [sampleBestAudio])
  /\ (forall refusedValue ytdl,
        Download.dispatch ytdl refusedValue sampleUrl sampleInfo
                          sampleSplit720Option
        = Download.Json 404 (lit "Requested format not found")
        /\ Download.POST sampleValidateURL sampleGetInfo ytdl refusedValue
             (inr (Download.mkRequest (Some sampleUrl)
                                      (Some sampleSplit720Option)))
           = Download.Json 404 (lit "Requested format not found")).
Proof.
  split.
  { intros refusedValue ytdl url info format formats response standard.
    split.
    { intros validateURL getInfo Hne Hv Hi. unfold Download.POST.
      cbn [Download.url Download.format].
      destruct url as [|c u]; [congruence|]. now rewrite Hv, Hi. }
    unfold response, Download.dispatch, Download.route,
      Download.handleHighQualityDownload,
      Download.handleAudioOnlyDownload, Download.handleStandardDownload.
    fold formats. split.
    - intros ->. split.
      + intros fv fa Hv Ha.
        apply findByItag_first in Hv, Ha. rewrite Hv, Ha.
        rewrite newHeaders_ok; [eexists; reflexivity|reflexivity|].
        apply store_name; reflexivity.
      + intros [H|H]; apply findByItag_none in H; rewrite H;
          [reflexivity|].
        now destruct (Download.findByItag formats (Opt.videoItag format)).
    - intros ->. split.
      + intros selected Hs. apply findByItag_first in Hs. rewrite Hs.
        unfold standard.
        destruct (eqb (Opt.quality format) (lit "Audio Only")); cbn [negb].
        * split; [|discriminate]. intros _.
          rewrite newHeaders_ok, setContentLength_ok;
            [eexists; reflexivity|reflexivity|].
          apply store_name; reflexivity.
        * split.
          -- intros [H|H]; [discriminate|].
             apply andb_true_iff in H. destruct H as [Hb Hv].
             rewrite newHeaders_ok, setContentLength_ok;
               [eexists; reflexivity| |now apply store_name].
             now destruct (eqb (Opt.format format) (lit "mp3")).
          -- intros _ H. unfold Download.newHeaders.
             rewrite (store_name_none _ _ H).
             now destruct (eqb (Opt.format format) (lit "mp3")).
      + intros H. apply findByItag_none in H. rewrite H. unfold standard.
        now destruct (eqb (Opt.quality format) (lit "Audio Only")). }
  split; [right; right; left; reflexivity|].
  split; [reflexivity|]. split; [reflexivity|].
  split.
  { exists (firstn 5 sampleFormats).
    split; [|split; [reflexivity|split; [|split; reflexivity]]].
    - exists (firstn 3 sampleFormats), (skipn 4 sampleFormats).
      split; [reflexivity|]. split; [reflexivity|].
      repeat constructor; discriminate.
    - exists (firstn 5 sampleFormats), [].
      split; [reflexivity|]. split; [reflexivity|].
      repeat constructor; discriminate. }
  intros refusedValue ytdl. split; reflexivity.
Qed.

(** ** Stream relay *)




(** ** Mux pipeline *)

Lemma mux_cancel_terminates (m : Mux.t) :
  Mux.allTerminated (Mux.step m Mux.Cancel) = true.
Proof. reflexivity. Qed.

(** Nothing but the client's cancellation, or the resource's own failure,
    terminates a resource of the pipeline. *)
Lemma mux_video_stays_live (evs : list Mux.Event) (m : Mux.t) :
  ~ In Mux.Cancel evs -> (forall e, ~ In (Mux.VideoError e) evs) ->
  Mux.videoStreamLive m = true ->
  Mux.videoStreamLive (fold_left Mux.step evs m) = true.
Proof.
  revert m. induction evs as [|ev evs IH]; simpl; intros m Hc Hv Hm;
    [assumption|].
  apply IH; [tauto|intros e He; apply (Hv e); tauto|].
  destruct ev; simpl; try assumption.
  - exfalso. tauto.
  - exfalso. apply (Hv e). tauto.
Qed.

Lemma mux_audio_stays_live (evs : list Mux.Event) (m : Mux.t) :
  ~ In Mux.Cancel evs -> (forall e, ~ In (Mux.AudioError e) evs) ->
  Mux.audioStreamLive m = true ->
  Mux.audioStreamLive (fold_left Mux.step evs m) = true.
Proof.
  revert m. induction evs as [|ev evs IH]; simpl; intros m Hc Hv Hm;
    [assumption|].
  apply IH; [tauto|intros e He; apply (Hv e); tauto|].
  destruct ev; simpl; try assumption.
  - exfalso. tauto.
  - exfalso. apply (Hv e). tauto.
Qed.

Lemma mux_ffmpeg_stays_live (evs : list Mux.Event) (m : Mux.t) :
  ~ In Mux.Cancel evs -> (forall code, ~ In (Mux.ProcessExit code) evs) ->
  Mux.ffmpegLive m = true ->
  Mux.ffmpegLive (fold_left Mux.step evs m) = true.
Proof.
  revert m. induction evs as [|ev evs IH]; simpl; intros m Hc Hv Hm;
    [assumption|].
  apply IH; [tauto|intros e He; apply (Hv e); tauto|].
  destruct ev; simpl; try assumption.
  - exfalso. tauto.
  - exfalso. apply (Hv code). tauto.
Qed.

(** C3, evaluated.  The client's cancellation terminates the two provider
    streams and the ffmpeg process.  A failing input stream or an ffmpeg
    process that exits with a failure status does not: the handler has no
    listener for these events, and the other two resources stay as they
    are. *)
Theorem mux_failure_leaves_resources :
  (forall evs,
      Mux.allTerminated (Mux.step (Mux.run evs) Mux.Cancel) = true)
  /\ (let m := Mux.run [Mux.VideoError (lit "ECONNRESET")] in
      Mux.audioStreamLive m = true /\ Mux.ffmpegLive m = true
      /\ Mux.allTerminated m = false)
  /\ (let m := Mux.run [Mux.AudioError (lit "ECONNRESET")] in
      Mux.videoStreamLive m = true /\ Mux.ffmpegLive m = true
      /\ Mux.allTerminated m = false)
  /\ (let m := Mux.run [Mux.ProcessExit 1] in
      Mux.videoStreamLive m = true /\ Mux.audioStreamLive m = true
      /\ Mux.allTerminated m = false)
  /\ (let m := Mux.run [Mux.StdoutData [x00]; Mux.VideoError (lit "aborted");
                        Mux.StderrData (lit "pipe:3: Invalid data");
                        Mux.StdoutData [x01]] in
      Mux.audioStreamLive m = true /\ Mux.ffmpegLive m = true).
Proof.
  split; [intros evs; apply mux_cancel_terminates|].
  repeat split; reflexivity.
Qed.

(** * Error responses of the analyze route *)

Lemma analyze_error_codes
  (validateURL : jsstring -> bool) (getInfo : jsstring -> Thrown + Info.t) :
  (forall url, truthy url = false ->
     Analyze.status (Analyze.POST validateURL getInfo (inr url)) = 400)
  /\ (forall c u, validateURL (c :: u) = false ->
        Analyze.status
          (Analyze.POST validateURL getInfo (inr (Some (c :: u)))) = 400)
  /\ (forall c u message,
        validateURL (c :: u) = true ->
        getInfo (c :: u) = inl (ErrorObject message) ->
        let response :=
          Analyze.POST validateURL getInfo (inr (Some (c :: u))) in
        (includes (lit "Video unavailable") message = true ->
         Analyze.status response = 404)
        /\ (includes (lit "Video unavailable") message = false ->
            includes (lit "age-restricted") message = true ->
            Analyze.status response = 403)
        /\ (includes (lit "Video unavailable") message = false ->
            includes (lit "age-restricted") message = false ->
            Analyze.status response = 500))
  /\ (forall c u,
        validateURL (c :: u) = true -> getInfo (c :: u) = inl OtherThrown ->
        Analyze.status
          (Analyze.POST validateURL getInfo (inr (Some (c :: u)))) = 500).
Proof.
  unfold Analyze.POST. split; [|split; [|split]].
  - intros [[|c u]|]; simpl; try discriminate; reflexivity.
  - intros c u H. now rewrite H.
  - intros c u message Hv Hi.
    rewrite Hv, Hi. unfold Analyze.handleError.
    repeat split; intros; repeat
      match goal with H : includes _ _ = _ |- _ => rewrite H; clear H end;
      reflexivity.
  - intros c u Hv Hi. now rewrite Hv, Hi.
Qed.

(** C8, evaluated.  A metadata lookup that fails because the video asks
    for a sign-in is answered by the analyze route with 500; the download
    route answers the same failure with 403. *)
Theorem analyze_sign_in_gated :
  includes (lit "Sign in to confirm") signInMessage = true
  /\ Analyze.POST sampleValidateURL signInGetInfo (inr (Some sampleUrl))
     = Analyze.JsonError 500
         (lit "Failed to analyze video. Please check the URL and try again.")
  /\ Download.POST sampleValidateURL signInGetInfo sampleYtdl
       sampleRefusedValue
       (inr (Download.mkRequest (Some sampleUrl) (Some sampleAudioOption)))
     = Download.Json 403 (lit "Video requires sign-in to access").
Proof. repeat split; reflexivity. Qed.

(** * Candidate selection, evaluated *)

(** C5, evaluated.  The reducer never replaces a kept entry that has no
    bitrate: of two video-only 720p renditions, the first without a
    bitrate and the second with 2500000, it keeps the first, and the split
    option of the catalog points at it. *)
Theorem videoOnlyFormats_missing_bitrate :
  List.map Fmt.itag (videoOnlyFormats missingBitrateFormats) = [298]
  /\ List.map Fmt.bitrate (videoOnlyFormats missingBitrateFormats) = [None]
  /\ List.map (fun f => (Fmt.itag f, Fmt.bitrate f))
              (filter isVideoOnlyMp4 missingBitrateFormats)
     = [(298, None); (136, Some 2500000%N)]
  /\ List.map Opt.videoItag (catalog missingBitrateFormats)
     = [Some 298; None].
Proof. repeat split; reflexivity. Qed.

(** * The theorems at the sample inputs *)

(** The pre-muxed 1080p option of the sample is not high quality, the
    split 1080p option is. *)
Lemma catalog_isHighQuality_witness :
  In sampleCombinedOption (catalog sampleFormats)
  /\ kindOf sampleCombinedOption = Combined
  /\ Opt.resolution sampleCombinedOption = 1080
  /\ Opt.isHighQuality sampleCombinedOption = false.
Proof.
  assert (In sampleCombinedOption (catalog sampleFormats)) as Hin
      by (vm_compute; right; left; reflexivity).
  destruct (catalog_isHighQuality sampleFormats sampleCombinedOption Hin)
    as [_ Hc].
  destruct (Hc eq_refl) as (f & label & _ & _ & _ & _ & Hh).
  exact (conj Hin (conj eq_refl (conj eq_refl Hh))).
Defined.

Lemma catalog_keys_unique_witness :
  In (lit "1080p_high", sampleHighOption) (allFormats sampleFormats)
  /\ optionKey sampleHighOption = lit "1080p_high"
  /\ NoDup (List.map optionKey (catalog sampleFormats)).
Proof.
  assert (In (lit "1080p_high", sampleHighOption) (allFormats sampleFormats))
    as Hin by (vm_compute; right; right; left; reflexivity).
  destruct (catalog_keys_unique sampleFormats) as (Hn & _ & Hk & _).
  exact (conj Hin (conj (Hk _ _ Hin) Hn)).
Defined.

Lemma catalog_order_witness :
  bestAudioFormat sampleFormats = Some sampleBestAudio
  /\ (exists videoOptions,
         catalog sampleFormats = videoOptions ++ [sampleAudioOption]
         /\ Forall (fun o => Opt.hasVideo o = true) videoOptions)
  /\ (forall f, In f sampleFormats ->
                Fmt.qualityLabel f <> Some (lit "Audio Only"))
  /\ filter (sameResolutionAndFlag sampleCombinedOption)
            (catalog sampleFormats)
     = filter (sameResolutionAndFlag sampleCombinedOption)
              (JsMap.values (allFormats sampleFormats)).
Proof.
  assert (forall f, In f sampleFormats ->
                    Fmt.qualityLabel f <> Some (lit "Audio Only")) as Hl.
  { intros f Hf. simpl in Hf.
    repeat (destruct Hf as [<-|Hf]; [discriminate|]). destruct Hf. }
  assert (In sampleCombinedOption (JsMap.values (allFormats sampleFormats)))
    as Hin by (vm_compute; left; reflexivity).
  destruct (catalog_order sampleFormats) as (Hlast & _ & _ & _ & _ & Hties).
  exact (conj eq_refl
           (conj (Hlast _ eq_refl) (conj Hl (Hties Hl _ Hin)))).
Defined.

Lemma size_estimation_witness :
  (forall f bytes,
      In f sampleFormats -> Fmt.contentLength f = Some bytes ->
      (bytes <= 2 ^ 53)%N)
  /\ In sampleHighOption (catalog sampleFormats)
  /\ exists bestAudio videoFormat video audio,
       bestAudioFormat sampleFormats = Some bestAudio
       /\ In videoFormat sampleFormats
       /\ Opt.videoItag sampleHighOption = Some (Fmt.itag videoFormat)
       /\ Opt.audioItag sampleHighOption = Some (Fmt.itag bestAudio)
       /\ match Fmt.contentLength videoFormat with
          | Some bytes =>
              1048576 * video - 524288 <= Z.of_N bytes
              < 1048576 * video + 524288
          | None => video = estimateVideoSize 1080
          end
       /\ match Fmt.contentLength bestAudio with
          | Some bytes =>
              1048576 * audio - 524288 <= Z.of_N bytes
              < 1048576 * audio + 524288
          | None => audio = 3
          end
       /\ Opt.filesize sampleHighOption
          = lit "~"
            ++ lit (DecimalString.NilZero.string_of_uint
                      (N.to_uint (Z.to_N (video + audio))))
            ++ lit " MB".
Proof.
  assert (forall f bytes,
             In f sampleFormats -> Fmt.contentLength f = Some bytes ->
             (bytes <= 2 ^ 53)%N) as Hbound.
  { intros f bytes Hf. simpl in Hf.
    repeat (destruct Hf as [<-|Hf];
            [intros H; inversion H; subst; vm_compute; discriminate|]).
    destruct Hf. }
  assert (In sampleHighOption (catalog sampleFormats)) as Hin
      by (vm_compute; left; reflexivity).
  split; [exact Hbound|]. split; [exact Hin|].
  exact (proj2 (proj2 (size_estimation sampleFormats)) Hbound
               sampleHighOption Hin).
Defined.

Example sanitizeName_chain_example :
  let title := lit "  Rick   Astley - Never Gonna Give You Up (4K)  " in
  trim (stripUnsafe title)
  = lit "Rick" ++ lit "   " ++ lit "Astley - Never Gonna Give You Up 4K"
  /\ sanitizeName title
     = lit "Rick" ++ lit "_" ++ lit "Astley_-_Never_Gonna_Give_You_Up_4K".
Proof.
  intros title.
  assert (trim (stripUnsafe title)
          = lit "Rick" ++ lit "   "
            ++ lit "Astley - Never Gonna Give You Up 4K") as Ht
      by reflexivity.
  split; [exact Ht|].
  destruct (sanitizeName_chain title) as (_ & _ & _ & Hrun & _).
  apply (Hrun _ _ _ Ht).
  - reflexivity.
  - discriminate.
  - repeat constructor.
  - reflexivity.
Qed.

Lemma download_lookup_witness :
  firstWithItag sampleFormats (Opt.videoItag sampleHighOption)
                (nth 2 sampleFormats sampleBestAudio)
  /\ firstWithItag sampleFormats (Opt.audioItag sampleHighOption)
                   sampleBestAudio
  /\ (exists headers,
         Download.dispatch sampleYtdl sampleRefusedValue sampleUrl sampleInfo
                           sampleHighOption
         = Download.Stream headers
             (Download.MuxOf
                (sampleYtdl sampleUrl (nth 2 sampleFormats sampleBestAudio))
                (sampleYtdl sampleUrl sampleBestAudio)))
  /\ ~ present sampleFormats (Opt.videoItag staleHighOption)
  /\ Download.dispatch sampleYtdl sampleRefusedValue sampleUrl sampleInfo
                       staleHighOption
     = Download.Json 404 (lit "Requested formats not found").
Proof.
  assert (firstWithItag sampleFormats (Opt.videoItag sampleHighOption)
                        (nth 2 sampleFormats sampleBestAudio)) as Hv.
  { exists (firstn 2 sampleFormats), (skipn 3 sampleFormats).
    split; [reflexivity|]. split; [reflexivity|].
    repeat constructor; discriminate. }
  assert (firstWithItag sampleFormats (Opt.audioItag sampleHighOption)
                        sampleBestAudio) as Ha.
  { exists (firstn 5 sampleFormats), [].
    split; [reflexivity|]. split; [reflexivity|].
    repeat constructor; discriminate. }
  assert (~ present sampleFormats (Opt.videoItag staleHighOption)) as Habs.
  { apply findByItag_none. reflexivity. }
  pose proof (proj1 download_lookup sampleRefusedValue sampleYtdl sampleUrl
                sampleInfo) as H.
  exact (conj Hv (conj Ha
           (conj (proj1 (proj1 (proj2 (H sampleHighOption)) eq_refl)
                        _ _ Hv Ha)
                 (conj Habs
                    (proj2 (proj1 (proj2 (H staleHighOption)) eq_refl)
                           (or_introl Habs)))))).
Defined.


(** * Examples *)

Example extractResolution_examples :
  extractResolution (lit "1080p") = 1080
  /\ extractResolution (lit "720p60") = 720
  /\ extractResolution (lit "2160p60 HDR") = 2160
  /\ extractResolution (lit "Unknown") = 0
  /\ extractResolution (lit "12x34p56p") = 34
  /\ extractResolution (lit "1080p (High Quality)") = 1080.
Proof. repeat split; reflexivity. Qed.

Example round_mb_examples :
  round_mb 1572864 = 2 /\ round_mb 1572863 = 1 /\ round_mb 0 = 0
  /\ mb_string 53 = lit "~53 MB".
Proof. repeat split; reflexivity. Qed.

(** Above 2^53 a numeral is read as the nearest double: the resolution of
    a label, and the length a size is computed from. *)
Example toDouble_examples :
  toDouble 9007199254740993 = 9007199254740992
  /\ toDouble 9007199254740995 = 9007199254740996
  /\ toDouble (2 ^ 1024 - 2 ^ 970 - 1) = 2 ^ 1024 - 2 ^ 971
  /\ toDouble (2 ^ 1024 - 2 ^ 970) = infinity
  /\ toDouble (10 ^ 400) = infinity
  /\ extractResolution (lit "9007199254740993p") = 9007199254740992
  /\ (2 * (9007199254740992 + 524287) + 1048576) / 2097152 = 8589934592
  /\ round_mb (9007199254740992 + 524287) = 8589934593.
Proof. repeat split; reflexivity. Qed.

Example formatDuration_negative :
  formatDuration (-5) = lit "-1:-5"
  /\ formatDuration (-3600) = lit "0:00"
  /\ formatDuration (-3661) = lit "-2:-1".
Proof. repeat split; reflexivity. Qed.

(** The catalog of the sample: the split 1080p option, the pre-muxed 1080p
    option, the split 720p option, the pre-muxed 360p option, the
    audio-only option. *)
Example sample_catalog :
  List.map (fun o => (Opt.quality o, Opt.filesize o, Opt.isHighQuality o))
           (catalog sampleFormats)
  = [ (lit "1080p (High Quality)", lit "~54 MB", true);
      (lit "1080p", lit "~50 MB", false);
      (lit "720p", lit "~34 MB", false);
      (lit "360p", lit "~8 MB", false);
      (lit "Audio Only", lit "~4 MB", false) ]
  /\ JsMap.keys (allFormats sampleFormats)
     = [ lit "1080p_combined"; lit "360p_combined"; lit "1080p_high";
         lit "720p_high"; lit "audio_only" ].
Proof. split; reflexivity. Qed.

Example sanitizeName_examples :
  sanitizeName (lit "My Video: Part #1!") = lit "My_Video_Part_1"
  /\ sanitizeName (lit "  a  b - c_d  ") = lit "a_b_-_c_d"
  /\ sanitizeName (lit "!!!") = [].
Proof. repeat split; reflexivity. Qed.

(** A container name with a line feed, or with letters outside Latin-1,
    is refused by [Headers]: the pre-muxed handler throws and the answer
    is that of the [catch] block. *)
Example refused_container :
  withContainer (lit "mp4") = sampleCombinedOption
  /\ Download.status
       (Download.dispatch sampleYtdl sampleRefusedValue sampleUrl sampleInfo
          (withContainer (lit "mp4"))) = 200
  /\ Download.dispatch sampleYtdl sampleRefusedValue sampleUrl sampleInfo
       (withContainer (lit "mp4" ++ [10%N]))
     = Download.Json 500 (lit "Failed to download video. Please try again.")
  /\ Download.dispatch sampleYtdl sampleRefusedValue sampleUrl sampleInfo
       (withContainer [1084%N; 1087%N; 52%N])
     = Download.Json 500 (lit "Failed to download video. Please try again.").
Proof. repeat split; reflexivity. Qed.

(** The comparator takes an option for the audio-only one by its display
    label.  The quality labels of the provider name a resolution; were a
    video rendition labelled ["Audio Only"], its option would sort with
    the audio-only option, behind options inserted after it. *)
Lemma audio_label_on_video_option :
  List.map Opt.itag (JsMap.values (allFormats oddLabelFormats))
  = [Some 1; Some 2]
  /\ List.map Opt.itag (catalog oddLabelFormats) = [Some 2; Some 1]
  /\ List.map Opt.resolution (catalog oddLabelFormats) = [0; 0].
Proof. repeat split; reflexivity. Qed.

(* ===================================================================== *)
(** * Further properties *)
(* ===================================================================== *)

(** ** The resolution of a quality label *)

Lemma span_digits_split (s : jsstring) :
  s = fst (span_digits s) ++ snd (span_digits s).
Proof.
  induction s as [|c s IH]; simpl; [reflexivity|].
  destruct (is_digit c); [|reflexivity].
  destruct (span_digits s) as [d r]. simpl in *. now f_equal.
Qed.

Lemma span_digits_app (d r : jsstring) :
  Forall (fun c => is_digit c = true) d ->
  match r with c :: _ => is_digit c = false | [] => True end ->
  span_digits (d ++ r) = (d, r).
Proof.
  intros Hd Hr. induction Hd as [|c d Hc _ IH]; simpl.
  - destruct r as [|c r]; [reflexivity|]. simpl. now rewrite Hr.
  - now rewrite Hc, IH.
Qed.

Lemma match_digits_p_skip (pre s : jsstring) :
  Forall (fun c => is_digit c = false) pre ->
  (s = [] -> match_digits_p [] = None) ->
  match_digits_p (pre ++ s) = match_digits_p s.
Proof.
  intros Hpre _. induction Hpre as [|c pre Hc _ IH]; [reflexivity|].
  cbn [app match_digits_p]. unfold match_digits_p_here.
  cbn [span_digits]. now rewrite Hc.
Qed.

(** X1. A label that begins, after characters that are not digits, with
    the decimal numeral of [n] followed by [p] has resolution [n], for
    every [n] up to 2^53: [1080p], [720p60], [2160p60 HDR].  (A longer
    numeral is read as the double nearest to it.) *)
Theorem extractResolution_numeral (pre rest : jsstring) (n : Z) :
  0 <= n <= 2 ^ 53 ->
  Forall (fun c => is_digit c = false) pre ->
  extractResolution (pre ++ of_number n ++ lit "p" ++ rest) = n.
Proof.
  intros Hn Hpre. unfold extractResolution.
  rewrite match_digits_p_skip by auto.
  assert (match_digits_p (of_number n ++ lit "p" ++ rest)
          = Some (of_number n)) as ->.
  { pose proof (of_number_nonempty n) as Hne.
    pose proof (span_digits_app (of_number n) (lit "p" ++ rest)
                  (of_number_digits n) eq_refl) as Hs.
    destruct (of_number n) as [|c d] eqn:E; [congruence|].
    cbn [app match_digits_p]. unfold match_digits_p_here.
    cbn [app] in Hs. rewrite Hs. reflexivity. }
  now apply parse_of_number.
Qed.

Lemma extractResolution_numeral_witness :
  extractResolution (lit "HD " ++ of_number 2160 ++ lit "p" ++ lit "60 HDR")
  = 2160.
Proof.
  apply extractResolution_numeral; [lia|repeat constructor].
Defined.

Lemma match_digits_p_here_sound (s d : jsstring) :
  match_digits_p_here s = Some d ->
  exists rest, s = d ++ 112%N :: rest.
Proof.
  unfold match_digits_p_here. pose proof (span_digits_split s) as E.
  destruct (span_digits s) as [[|c d'] [|p r]]; try discriminate.
  destruct (N.eqb_spec p 112); [|discriminate].
  intros H. inversion H; subst. exists r. reflexivity.
Qed.

Lemma match_digits_p_nonempty (s d : jsstring) :
  match_digits_p s = Some d -> d <> [].
Proof.
  induction s as [|c s IH]; [discriminate|].
  cbn [match_digits_p].
  destruct (match_digits_p_here (c :: s)) as [d'|] eqn:E; [|exact IH].
  intros H. inversion H; subst. unfold match_digits_p_here in E.
  destruct (span_digits (c :: s)) as [[|? ?] [|p ?]]; try discriminate.
  destruct (p =? 112)%N; [|discriminate].
  inversion E. discriminate.
Qed.

Lemma match_digits_p_sound (s d : jsstring) :
  match_digits_p s = Some d ->
  exists pre rest, s = pre ++ d ++ 112%N :: rest.
Proof.
  induction s as [|c s IH].
  - discriminate.
  - cbn [match_digits_p].
    destruct (match_digits_p_here (c :: s)) as [d'|] eqn:E.
    + intros H. inversion H; subst.
      apply match_digits_p_here_sound in E. destruct E as (rest & E).
      exists [], rest. exact E.
    + intros H. destruct (IH H) as (pre & rest & ->).
      exists (c :: pre), rest. reflexivity.
Qed.

(** X2. The resolution of a label is the value of a run of digits of the
    label that is followed by [p]; it is never negative, and it is 0 for a
    label without a digit and for a label without a [p]. *)
Theorem extractResolution_sound (label : jsstring) :
  0 <= extractResolution label
  /\ (extractResolution label <> 0 ->
      exists pre digits rest,
        label = pre ++ digits ++ lit "p" ++ rest
        /\ digits <> []
        /\ Forall (fun c => is_digit c = true) digits
        /\ extractResolution label = parse_digits digits)
  /\ (Forall (fun c => is_digit c = false) label ->
      extractResolution label = 0)
  /\ (~ In 112%N label -> extractResolution label = 0).
Proof.
  split; [apply extractResolution_nonneg|].
  unfold extractResolution.
  destruct (match_digits_p label) as [d|] eqn:E.
  - pose proof (match_digits_p_digits _ _ E) as Hd.
    destruct (match_digits_p_sound _ _ E) as (pre & rest & ->).
    split; [|split].
    + intros Hnz. exists pre, d, rest. repeat split; auto.
      now apply match_digits_p_nonempty with (pre ++ d ++ 112%N :: rest).
    + intros Hno. exfalso.
      pose proof (match_digits_p_nonempty _ _ E) as Hne.
      destruct d as [|c d]; [congruence|].
      inversion Hd as [|? ? Hc _]; subst.
      rewrite Forall_forall in Hno.
      rewrite (Hno c) in Hc; [discriminate|].
      rewrite !in_app_iff. right. left. now left.
    + intros Hp. exfalso. apply Hp.
      rewrite !in_app_iff. right. right. now left.
  - repeat split; auto. intros H. now contradiction H.
Qed.

Lemma extractResolution_sound_witness :
  exists pre digits rest,
    lit "1080p60" = pre ++ digits ++ lit "p" ++ rest
    /\ digits <> []
    /\ Forall (fun c => is_digit c = true) digits
    /\ extractResolution (lit "1080p60") = parse_digits digits.
Proof.
  apply (proj1 (proj2 (extractResolution_sound (lit "1080p60")))).
  vm_compute. discriminate.
Defined.

Lemma span_digits_suffix (s t : jsstring) (c : N) :
  s <> [] -> is_digit c = false ->
  span_digits (s ++ c :: t)
  = (fst (span_digits s), snd (span_digits s) ++ c :: t).
Proof.
  intros Hs Hc. induction s as [|x s IH]; [congruence|].
  cbn [app span_digits]. destruct (is_digit x); [|reflexivity].
  destruct s as [|y s].
  - cbn. now rewrite Hc.
  - rewrite IH by discriminate.
    destruct (span_digits (y :: s)) as [d r]. reflexivity.
Qed.

(** Text that begins with a character that is neither a digit nor [p] and
    holds no match of the pattern can be appended to a label without
    changing what the pattern finds. *)
Lemma match_digits_p_suffix (s t : jsstring) (c : N) :
  is_digit c = false -> (c =? 112)%N = false ->
  match_digits_p (c :: t) = None ->
  match_digits_p (s ++ c :: t) = match_digits_p s.
Proof.
  intros Hc Hp Ht. induction s as [|x s IH].
  - cbn [app]. rewrite Ht. reflexivity.
  - cbn [app match_digits_p]. rewrite IH.
    assert (match_digits_p_here (x :: s ++ c :: t)
            = match_digits_p_here (x :: s)) as ->; [|reflexivity].
    unfold match_digits_p_here.
    change (x :: s ++ c :: t) with ((x :: s) ++ c :: t).
    rewrite span_digits_suffix by (auto; discriminate).
    destruct (span_digits (x :: s)) as [[|a d] [|b r]]; simpl;
      try reflexivity.
    now rewrite Hp.
Qed.

(** X3. The resolution an option of the catalog carries is the
    resolution of the label it displays: the annotation of a high-quality
    option does not change what the pattern finds, and the audio-only
    label has resolution 0. *)
Theorem catalog_resolution_of_label (formats : list Fmt.t) (o : Opt.t) :
  In o (catalog formats) ->
  Opt.resolution o = extractResolution (Opt.quality o).
Proof.
  intros Hin. apply catalog_origin in Hin. destruct Hin as (k & Ho).
  destruct Ho as [f label Hf Hc Hq|a v label Ha Hv Hq|a Ha].
  - destruct (combinedOption_shape _ _ Hc Hq) as (-> & -> & _).
    reflexivity.
  - apply videoOnlyFormats_In in Hv. destruct Hv as [_ Hc].
    destruct (highOption_shape a _ _ Hc Hq) as (-> & -> & _).
    destruct (1080 <=? extractResolution label); [|reflexivity].
    unfold extractResolution, highSuffix.
    change (lit " (High Quality)") with (32%N :: lit "(High Quality)").
    now rewrite match_digits_p_suffix.
  - reflexivity.
Qed.

Lemma catalog_resolution_of_label_witness :
  In sampleHighOption (catalog sampleFormats)
  /\ Opt.quality sampleHighOption = lit "1080p (High Quality)"
  /\ Opt.resolution sampleHighOption
     = extractResolution (lit "1080p (High Quality)").
Proof.
  assert (In sampleHighOption (catalog sampleFormats)) as Hin
      by (vm_compute; left; reflexivity).
  exact (conj Hin (conj eq_refl
           (catalog_resolution_of_label sampleFormats _ Hin))).
Defined.

(** ** Completeness of the catalog *)

Lemma has_app (V : Type) (m m' : JsMap.t V) (k : jsstring) :
  JsMap.has (m ++ m') k = JsMap.has m k || JsMap.has m' k.
Proof.
  induction m as [|[k' v] m IH]; simpl; [reflexivity|].
  now rewrite IH, orb_assoc.
Qed.

Lemma NoDup_keys_functional (V : Type) (m : JsMap.t V) (k : jsstring)
  (a b : V) :
  NoDup (JsMap.keys m) -> In (k, a) m -> In (k, b) m -> a = b.
Proof.
  intros Hn Ha Hb.
  assert ((k, a) = (k, b)) as E
      by (apply (NoDup_map_inj _ _ fst m); auto).
  now inversion E.
Qed.

Lemma addCombined_keeps (m : Catalog) (f : Fmt.t) (e : jsstring * Opt.t) :
  In e m -> In e (addCombined m f).
Proof.
  unfold addCombined. destruct (JsMap.has m _) eqn:E; [auto|].
  rewrite set_fresh by assumption. intros H. apply in_app_iff. now left.
Qed.

Lemma fold_addCombined_keeps (l : list Fmt.t) (m : Catalog)
  (e : jsstring * Opt.t) :
  In e m -> In e (fold_left addCombined l m).
Proof.
  revert m. induction l as [|f l IH]; simpl; intros m H; [assumption|].
  apply IH. now apply addCombined_keeps.
Qed.

Lemma addHigh_keeps (a : Fmt.t) (m : Catalog) (v : Fmt.t)
  (e : jsstring * Opt.t) :
  In e m -> In e (addHigh a m v).
Proof.
  unfold addHigh. destruct (JsMap.has m _) eqn:E; [auto|].
  rewrite set_fresh by assumption. intros H. apply in_app_iff. now left.
Qed.

Lemma fold_addHigh_keeps (a : Fmt.t) (l : list Fmt.t) (m : Catalog)
  (e : jsstring * Opt.t) :
  In e m -> In e (fold_left (addHigh a) l m).
Proof.
  revert m. induction l as [|f l IH]; simpl; intros m H; [assumption|].
  apply IH. now apply addHigh_keeps.
Qed.

Lemma find_filter (A : Type) (p q : A -> bool) (l : list A) :
  find p (filter q l) = find (fun x => q x && p x) l.
Proof.
  induction l as [|x l IH]; simpl; [reflexivity|].
  destruct (q x); simpl; [|exact IH]. now destruct (p x).
Qed.

(** The first accepted rendition of a label is the one whose option the
    combined pass stores. *)
Lemma fold_addCombined_first (l : list Fmt.t) (m : Catalog) (f : Fmt.t)
  (label : jsstring) :
  (forall g, In g l -> isCombined g = true) ->
  In f l -> Fmt.qualityLabel f = Some label ->
  JsMap.has m (label ++ lit "_combined") = false ->
  exists first,
    find (fun g => opt_str_eqb (Fmt.qualityLabel g) (Some label)) l
    = Some first
    /\ In (label ++ lit "_combined", combinedOption first)
          (fold_left addCombined l m).
Proof.
  revert m. induction l as [|g l IH]; intros m Hc Hf Hq Hm; [destruct Hf|].
  cbn [find fold_left].
  destruct (isCombined_label g (Hc g (or_introl eq_refl)))
    as (lg & Hqg & _ & Eg).
  destruct (opt_str_eqb (Fmt.qualityLabel g) (Some label)) eqn:E.
  - apply opt_str_eqb_eq in E.
    assert (lg = label) as -> by congruence.
    exists g. split; [reflexivity|].
    apply fold_addCombined_keeps. unfold addCombined.
    rewrite Eg, Hm, set_fresh by assumption.
    apply in_app_iff. right. now left.
  - apply opt_str_eqb_neq in E.
    destruct Hf as [->|Hf]; [congruence|].
    apply IH; auto.
    + intros g' Hg'. apply Hc. now right.
    + unfold addCombined. rewrite Eg.
      destruct (JsMap.has m (lg ++ lit "_combined")) eqn:Eh; [assumption|].
      rewrite set_fresh, has_app, Hm by assumption. simpl.
      rewrite orb_false_r. apply eqb_neq. intros K.
      apply app_inv_tail in K. congruence.
Qed.

Lemma combinedPass_keys (formats : list Fmt.t) (k : jsstring) (o : Opt.t) :
  In (k, o) (combinedPass formats) ->
  exists label, k = label ++ lit "_combined".
Proof.
  unfold combinedPass.
  apply fold_addCombined_inv
    with (P := fun k _ => exists label, k = label ++ lit "_combined").
  - intros f label _ _ _. now exists label.
  - intros f Hf. now apply filter_In in Hf.
  - intros ? ? [].
Qed.

(** The entries of the combined pass are in the final map. *)
Lemma allFormats_keeps_combined (formats : list Fmt.t)
  (e : jsstring * Opt.t) :
  In e (combinedPass formats) -> In e (allFormats formats).
Proof.
  intros H. destruct (bestAudioFormat formats) as [a|] eqn:Ha.
  - rewrite (allFormats_audio_last _ _ Ha). apply in_app_iff. left.
    now apply fold_addHigh_keeps.
  - now rewrite (allFormats_no_audio _ Ha).
Qed.

Lemma catalog_of_entry (formats : list Fmt.t) (k : jsstring) (o : Opt.t) :
  In (k, o) (allFormats formats) -> In o (catalog formats).
Proof. intros H. apply catalog_In. now exists k. Qed.

(** X4. Every pre-muxed rendition with a quality label is represented in
    the catalog, by the option of the first such rendition of its label:
    later renditions of the same label are dropped, and the catalog has no
    other pre-muxed option under that label. *)
Theorem combined_first_wins (formats : list Fmt.t) (f : Fmt.t)
  (label : jsstring) :
  In f formats -> isCombined f = true -> Fmt.qualityLabel f = Some label ->
  exists first,
    firstCombined formats label = Some first
    /\ In (combinedOption first) (catalog formats)
    /\ Opt.quality (combinedOption first) = label
    /\ (forall o, In o (catalog formats) -> kindOf o = Combined ->
                  Opt.quality o = label -> o = combinedOption first).
Proof.
  intros Hf Hc Hq.
  destruct (fold_addCombined_first (filter isCombined formats)
              (JsMap.empty _) f label) as (first & Hfind & Hin); auto.
  { intros g Hg. now apply filter_In in Hg. }
  { apply filter_In. auto. }
  fold (combinedPass formats) in Hin.
  rewrite find_filter in Hfind.
  exists first. split; [exact Hfind|].
  apply allFormats_keeps_combined in Hin.
  split; [now apply catalog_of_entry with (label ++ lit "_combined")|].
  apply find_some in Hfind. destruct Hfind as [_ Hp].
  apply andb_true_iff in Hp. destruct Hp as [Hcf Hlf].
  apply opt_str_eqb_eq in Hlf.
  split; [now destruct (combinedOption_shape _ _ Hcf Hlf) as (-> & _)|].
  intros o Ho Hk Hl. apply catalog_In in Ho. destruct Ho as (k & Ho).
  assert (optionKey o = k) as Ek
      by (apply origin_key with formats; now apply allFormats_origin).
  assert (k = label ++ lit "_combined") as ->.
  { rewrite <- Ek. unfold optionKey, baseLabel. rewrite Hk.
    pose proof (allFormats_origin _ _ _ Ho) as Hor.
    destruct Hor as [g lg Hg Hcg Hqg|a v lv Ha Hv Hqv|a Ha];
      try discriminate Hk.
    destruct (combinedOption_shape _ _ Hcg Hqg) as (Hqq & _ & -> & _).
    now rewrite <- Hl. }
  apply (NoDup_keys_functional _ (allFormats formats)
           (label ++ lit "_combined")); auto.
  apply allFormats_NoDup.
Qed.

Lemma combined_first_wins_witness :
  exists first,
    firstCombined sampleFormats (lit "1080p") = Some first
    /\ In (combinedOption first) (catalog sampleFormats)
    /\ Opt.quality (combinedOption first) = lit "1080p"
    /\ (forall o, In o (catalog sampleFormats) -> kindOf o = Combined ->
                  Opt.quality o = lit "1080p" -> o = combinedOption first).
Proof.
  apply (combined_first_wins sampleFormats
           (nth 0 sampleFormats sampleBestAudio) (lit "1080p")).
  - left. reflexivity.
  - reflexivity.
  - reflexivity.
Defined.

Lemma fold_addHigh_complete (a : Fmt.t) (l : list Fmt.t) (m : Catalog) :
  NoDup (List.map Fmt.qualityLabel l) ->
  (forall v, In v l -> isVideoOnlyMp4 v = true) ->
  (forall v, In v l -> JsMap.has m (labelOf v ++ lit "_high") = false) ->
  forall v, In v l ->
    In (labelOf v ++ lit "_high", highOption a v)
       (fold_left (addHigh a) l m).
Proof.
  revert m. induction l as [|g l IH]; intros m Hn Hc Hm v Hv;
    [destruct Hv|].
  cbn [fold_left]. inversion Hn as [|? ? Hg Hn']; subst.
  assert (addHigh a m g
          = m ++ [(labelOf g ++ lit "_high", highOption a g)]) as Eg.
  { unfold addHigh. rewrite (Hm g (or_introl eq_refl)).
    apply set_fresh. apply Hm. now left. }
  destruct Hv as [->|Hv].
  - apply fold_addHigh_keeps. rewrite Eg. apply in_app_iff. right. now left.
  - apply IH; auto.
    + intros v' Hv'. apply Hc. now right.
    + intros v' Hv'. rewrite Eg, has_app, (Hm v') by now right.
      simpl. rewrite orb_false_r. apply eqb_neq. intros K.
      apply app_inv_tail in K. apply Hg.
      destruct (isVideoOnlyMp4_label v' (Hc v' (or_intror Hv')))
        as (l1 & Hq1 & _ & E1).
      destruct (isVideoOnlyMp4_label g (Hc g (or_introl eq_refl)))
        as (l2 & Hq2 & _ & E2).
      rewrite Hq2. replace l2 with l1 by congruence. rewrite <- Hq1.
      now apply in_map.
Qed.

(** X5. When there is an audio-only rendition, every candidate the
    reducer keeps gives a split option of the catalog, built with the best
    audio rendition; so every video-only mp4 rendition with a quality
    label has a split option under its label; and the catalog holds the
    audio-only option. *)
Theorem split_options_complete (formats : list Fmt.t) (bestAudio : Fmt.t) :
  bestAudioFormat formats = Some bestAudio ->
  (forall v, In v (videoOnlyFormats formats) ->
             In (highOption bestAudio v) (catalog formats))
  /\ (forall f, In f formats -> isVideoOnlyMp4 f = true ->
        exists v, In v formats /\ isVideoOnlyMp4 v = true
                  /\ Fmt.qualityLabel v = Fmt.qualityLabel f
                  /\ In (highOption bestAudio v) (catalog formats))
  /\ In (audioOnlyOption bestAudio) (catalog formats).
Proof.
  intros Ha.
  assert (forall v, In v (videoOnlyFormats formats) ->
                    In (highOption bestAudio v) (catalog formats)) as Hall.
  { intros v Hv.
    apply catalog_of_entry with (labelOf v ++ lit "_high").
    rewrite (allFormats_audio_last _ _ Ha). apply in_app_iff. left.
    unfold videoEntries. apply fold_addHigh_complete; auto.
    - apply videoOnlyFormats_best.
    - intros v' Hv'. now apply videoOnlyFormats_In in Hv'.
    - intros v' Hv'. apply has_false. intros Hin.
      apply in_map_iff in Hin. destruct Hin as ([k o] & Ek & Hin).
      simpl in Ek. subst k.
      apply combinedPass_keys in Hin. destruct Hin as (label & E).
      revert E.
      change (lit "_high") with (lit "_hig" ++ [104%N]).
      change (lit "_combined") with (lit "_combine" ++ [100%N]).
      rewrite !app_assoc. now apply app_last_neq. }
  split; [exact Hall|]. split.
  - intros f Hf Hc.
    destruct (proj2 (videoOnlyFormats_best formats) f Hf Hc)
      as (v & Hv & Hl & _).
    exists v. pose proof (videoOnlyFormats_In _ _ Hv) as [Hvf Hvc].
    auto.
  - apply catalog_of_entry with (lit "audio_only").
    rewrite (allFormats_audio_last _ _ Ha). apply in_app_iff.
    right. now left.
Qed.

Lemma split_options_complete_witness :
  exists v, In v sampleFormats /\ isVideoOnlyMp4 v = true
            /\ Fmt.qualityLabel v = Some (lit "720p")
            /\ In (highOption sampleBestAudio v) (catalog sampleFormats).
Proof.
  destruct (split_options_complete sampleFormats sampleBestAudio eq_refl)
    as (_ & Hlabel & _).
  apply (Hlabel (nth 3 sampleFormats sampleBestAudio)).
  - right. right. right. left. reflexivity.
  - reflexivity.
Defined.

(** ** The best audio rendition *)

Lemma filter_head_split (A : Type) (p : A -> bool) (l : list A) (x : A)
  (r : list A) :
  filter p l = x :: r ->
  exists pre post,
    l = pre ++ x :: post /\ Forall (fun y => p y = false) pre.
Proof.
  induction l as [|y l IH]; simpl; [discriminate|].
  destruct (p y) eqn:E.
  - intros H. inversion H; subst. exists [], l. auto.
  - intros H. destruct (IH H) as (pre & post & -> & Hpre).
    exists (y :: pre), post. split; [reflexivity|]. now constructor.
Qed.

(** X6. The best audio rendition is the first audio-only rendition of the
    list among those with the greatest audio bitrate, an absent bitrate
    counting as 0: the audio-only renditions before it have a strictly
    smaller bitrate, those after it none greater.  There is none exactly
    when the list has no audio-only rendition. *)
Theorem bestAudioFormat_first_max (formats : list Fmt.t) :
  match bestAudioFormat formats with
  | Some best =>
      exists before after,
        filter isAudioOnly formats = before ++ best :: after
        /\ Forall (fun f => num_or_0 (Fmt.audioBitrate f)
                            < num_or_0 (Fmt.audioBitrate best)) before
        /\ Forall (fun f => num_or_0 (Fmt.audioBitrate f)
                            <= num_or_0 (Fmt.audioBitrate best)) after
  | None => filter isAudioOnly formats = []
  end.
Proof.
  destruct (bestAudioFormat formats) as [best|] eqn:Hb.
  - destruct (bestAudioFormat_max _ _ Hb) as (_ & _ & Hmax).
    unfold bestAudioFormat in Hb.
    pose proof (sort_stable _ compareAudio) as Hst.
    specialize (Hst ltac:(unfold compareAudio; intros; lia) best
                  (filter isAudioOnly formats)).
    destruct (JsArray.sort compareAudio (filter isAudioOnly formats))
      as [|b rest]; [discriminate|].
    simpl in Hb. inversion Hb; subst b.
    cbn [filter] in Hst.
    replace (compareAudio best best =? 0) with true in Hst
      by (unfold compareAudio; symmetry; apply Z.eqb_eq; lia).
    symmetry in Hst. apply filter_head_split in Hst.
    destruct Hst as (before & after & E & Hpre).
    exists before, after. split; [exact E|].
    assert (forall f, In f (filter isAudioOnly formats) ->
                      num_or_0 (Fmt.audioBitrate f)
                      <= num_or_0 (Fmt.audioBitrate best)) as Hle.
    { intros f Hf. apply filter_In in Hf. now apply Hmax. }
    split; apply Forall_forall; intros f Hf.
    + rewrite Forall_forall in Hpre. specialize (Hpre f Hf).
      apply Z.eqb_neq in Hpre. unfold compareAudio in Hpre.
      assert (In f (filter isAudioOnly formats)) as Hin
          by (rewrite E; apply in_app_iff; now left).
      specialize (Hle f Hin). lia.
    + apply Hle. rewrite E. apply in_app_iff. right. now right.
  - assert (forall f, In f formats -> isAudioOnly f = false) as Hn
        by now apply bestAudioFormat_none.
    destruct (filter isAudioOnly formats) as [|x l] eqn:E; [reflexivity|].
    assert (In x (filter isAudioOnly formats)) as Hx
        by (rewrite E; now left).
    apply filter_In in Hx. destruct Hx as [Hx1 Hx2].
    rewrite (Hn x Hx1) in Hx2. discriminate.
Qed.

(** ** The video-only candidates *)

Lemma find_app_some (A : Type) (p : A -> bool) (l l' : list A) (x : A) :
  find p l = Some x -> find p (l ++ l') = Some x.
Proof.
  induction l as [|y l IH]; simpl; [discriminate|].
  destruct (p y); auto.
Qed.

Lemma find_app_none (A : Type) (p : A -> bool) (l l' : list A) :
  find p l = None -> find p (l ++ l') = find p l'.
Proof.
  induction l as [|y l IH]; simpl; [reflexivity|].
  destruct (p y); [discriminate|auto].
Qed.

Lemma find_none_iff (A : Type) (p : A -> bool) (l : list A) :
  (forall x, In x l -> p x = false) -> find p l = None.
Proof.
  induction l as [|y l IH]; simpl; intros H; [reflexivity|].
  rewrite (H y) by now left. apply IH. intros x Hx. apply H. now right.
Qed.

Lemma opt_str_eqb_refl (a : option jsstring) : opt_str_eqb a a = true.
Proof. now apply opt_str_eqb_eq. Qed.

Lemma keepBest_firstAtLeast (seen acc : list Fmt.t) (format : Fmt.t) :
  keptBest seen acc ->
  (forall v, In v acc -> firstAtLeast seen v) ->
  forall v, In v (keepBest acc format) ->
            firstAtLeast (seen ++ [format]) v.
Proof.
  intros (Hnd & Hsub & Hcov) HJ v Hv. unfold firstAtLeast.
  assert (firstAtLeast (seen ++ [format]) format
          \/ exists f, In f seen
               /\ Fmt.qualityLabel f = Fmt.qualityLabel format
               /\ num_or_0 (Fmt.bitrate format)
                  <= num_or_0 (Fmt.bitrate f)) as Hnew.
  { unfold firstAtLeast.
    destruct (find (fun f => opt_str_eqb (Fmt.qualityLabel f)
                               (Fmt.qualityLabel format)
                             && (num_or_0 (Fmt.bitrate format)
                                 <=? num_or_0 (Fmt.bitrate f))) seen)
      as [f|] eqn:E.
    - right. apply find_some in E. destruct E as [Hf Hp].
      apply andb_true_iff in Hp. destruct Hp as [Hl Hb].
      apply opt_str_eqb_eq in Hl. apply Z.leb_le in Hb. eauto.
    - left. rewrite (find_app_none _ _ _ _ E). simpl.
      rewrite opt_str_eqb_refl, Z.leb_refl. reflexivity. }
  unfold keepBest in Hv.
  destruct (find (fun f => opt_str_eqb (Fmt.qualityLabel f)
                             (Fmt.qualityLabel format)) acc)
    as [e|] eqn:Efind.
  - apply find_some in Efind. destruct Efind as [He Hq].
    apply opt_str_eqb_eq in Hq.
    fold (wouldReplace format e) in Hv.
    destruct (wouldReplace format e) eqn:Er.
    + apply in_app_iff in Hv. destruct Hv as [Hv|[<-|[]]].
      * apply filter_In in Hv. apply find_app_some. apply HJ. tauto.
      * destruct Hnew as [Hnew|(f & Hf & Hl & Hb)]; [exact Hnew|].
        exfalso. destruct (Hcov f Hf) as (w & Hw & Hlw & Hrw).
        assert (w = e) as ->
            by (apply (NoDup_map_inj _ _ Fmt.qualityLabel acc);
                auto; congruence).
        revert Er Hrw Hb. unfold wouldReplace, js_gt, truthy_num.
        destruct (Fmt.bitrate format) as [b0|], (Fmt.bitrate e) as [be|],
          (Fmt.bitrate f) as [bf|]; simpl; rewrite ?andb_false_r;
          try discriminate.
        -- destruct (N.eqb_spec b0 0), (N.eqb_spec bf 0); simpl;
             try discriminate; rewrite ?N.ltb_lt, ?N.ltb_ge; lia.
        -- destruct (N.eqb_spec b0 0); simpl; try discriminate.
           rewrite N.ltb_lt. lia.
    + apply find_app_some. now apply HJ.
  - apply in_app_iff in Hv. destruct Hv as [Hv|[<-|[]]].
    + apply filter_In in Hv. apply find_app_some. apply HJ. tauto.
    + destruct Hnew as [Hnew|(f & Hf & Hl & Hb)]; [exact Hnew|].
      exfalso. destruct (Hcov f Hf) as (w & Hw & Hlw & _).
      apply (find_none _ _ Efind) in Hw.
      apply opt_str_eqb_neq in Hw. congruence.
Qed.

Lemma fold_keepBest_firstAtLeast (l seen acc : list Fmt.t) :
  keptBest seen acc ->
  (forall v, In v acc -> firstAtLeast seen v) ->
  forall v, In v (fold_left keepBest l acc) -> firstAtLeast (seen ++ l) v.
Proof.
  revert seen acc. induction l as [|f l IH]; intros seen acc Hk HJ; simpl.
  - now rewrite app_nil_r.
  - replace (seen ++ f :: l) with ((seen ++ [f]) ++ l)
      by (now rewrite <- app_assoc).
    apply IH.
    + now apply keepBest_keptBest.
    + now apply keepBest_firstAtLeast.
Qed.

(** X7. What the reducer of the video-only candidates keeps.  The
    candidates are the video-only mp4 renditions with a quality label.
    One candidate is kept per label; it is the first candidate of its
    label whose bitrate is at least its own; when it has a bitrate, no
    candidate of its label has a greater one; a kept candidate without a
    bitrate is the first candidate of its label, whatever the bitrates of
    the later ones. *)
Theorem videoOnlyFormats_kept (formats : list Fmt.t) :
  let candidates := filter isVideoOnlyMp4 formats in
  let kept := videoOnlyFormats formats in
  NoDup (List.map Fmt.qualityLabel kept)
  /\ (forall f, In f candidates ->
        exists v, In v kept /\ Fmt.qualityLabel v = Fmt.qualityLabel f)
  /\ (forall v, In v kept -> In v candidates /\ firstAtLeast candidates v)
  /\ (forall v bv f,
        In v kept -> Fmt.bitrate v = Some bv ->
        In f candidates -> Fmt.qualityLabel f = Fmt.qualityLabel v ->
        num_or_0 (Fmt.bitrate f) <= Z.of_N bv)
  /\ (forall v, In v kept -> Fmt.bitrate v = None ->
        find (fun f => opt_str_eqb (Fmt.qualityLabel f)
                                   (Fmt.qualityLabel v)) candidates
        = Some v).
Proof.
  intros candidates kept.
  assert (keptBest candidates kept) as Hk.
  { apply (fold_keepBest_keptBest _ [] []).
    repeat split; [constructor|intros ? []|intros ? []]. }
  assert (forall v, In v kept -> firstAtLeast candidates v) as HJ.
  { apply (fold_keepBest_firstAtLeast candidates [] []).
    - repeat split; [constructor|intros ? []|intros ? []].
    - intros ? []. }
  destruct Hk as (Hnd & Hsub & Hcov).
  split; [exact Hnd|]. split.
  { intros f Hf. destruct (Hcov f Hf) as (v & Hv & Hl & _). eauto. }
  split; [auto|]. split.
  - intros v bv f Hv Hb Hf Hl.
    destruct (Hcov f Hf) as (w & Hw & Hlw & Hr).
    assert (w = v) as ->
        by (apply (NoDup_map_inj _ _ Fmt.qualityLabel kept);
            auto; congruence).
    revert Hr. unfold wouldReplace, js_gt, truthy_num. rewrite Hb.
    destruct (Fmt.bitrate f) as [bf|]; simpl; [|lia].
    destruct (N.eqb_spec bf 0); simpl; [lia|]. rewrite N.ltb_ge. lia.
  - intros v Hv Hb. pose proof (HJ v Hv) as H. unfold firstAtLeast in H.
    rewrite Hb in H. simpl in H. rewrite <- H. clear.
    induction candidates as [|f l IH]; simpl; [reflexivity|].
    assert ((0 <=? num_or_0 (Fmt.bitrate f)) = true) as ->.
    { apply Z.leb_le. destruct (Fmt.bitrate f); simpl; lia. }
    rewrite andb_true_r. now rewrite IH.
Qed.

Lemma videoOnlyFormats_kept_witness :
  num_or_0 (Fmt.bitrate (nth 2 sampleFormats sampleBestAudio)) <= 4500000.
Proof.
  destruct (videoOnlyFormats_kept sampleFormats) as (_ & _ & _ & Hmax & _).
  apply (Hmax (nth 2 sampleFormats sampleBestAudio) 4500000%N
           (nth 2 sampleFormats sampleBestAudio)).
  - left. reflexivity.
  - reflexivity.
  - left. reflexivity.
  - reflexivity.
Defined.

(** ** From the catalog to the download *)

Lemma findByItag_present (formats : list Fmt.t) (f : Fmt.t) :
  In f formats ->
  exists f', Download.findByItag formats (Some (Fmt.itag f)) = Some f'
             /\ In f' formats /\ Fmt.itag f' = Fmt.itag f.
Proof.
  intros Hf.
  destruct (Download.findByItag formats (Some (Fmt.itag f))) as [f'|] eqn:E.
  - exists f'. apply findByItag_some in E. destruct E as [Hin Hi].
    inversion Hi. auto.
  - exfalso. apply findByItag_none in E. apply E. now exists f.
Qed.

Lemma findByItag_absent (formats : list Fmt.t) :
  Download.findByItag formats None = None.
Proof. apply find_none_iff. reflexivity. Qed.

(** X8. An option of the catalog sent back to the download route with the
    same metadata.  The audio-only option is answered with the relayed
    stream of the first rendition carrying the option's identifier; so is
    a pre-muxed option, provided its container name, which goes into the
    [Content-Disposition] header, is a header value: otherwise the
    headers cannot be built and the answer is that of the [catch] block
    (unless the option is labelled like the audio-only one and goes the
    audio-only way, where the container name is not used).
    A split option flagged high quality is answered with the ffmpeg body
    fed by the first renditions carrying its two identifiers; a split
    option below 1080p, which is not flagged and has no [itag], with
    404. *)
Theorem catalog_option_download
  (ytdl : jsstring -> Fmt.t -> list StreamEvent)
  (refusedValue : jsstring -> jsstring)
  (url : jsstring) (formats : list Fmt.t) (title : jsstring) (o : Opt.t) :
  In o (catalog formats) ->
  let response :=
    Download.dispatch ytdl refusedValue url (Info.mk formats title) o in
  match kindOf o with
  | AudioOnly =>
      exists headers f,
        response = Download.Stream headers (Download.RelayOf (ytdl url f))
        /\ firstWithItag formats (Opt.itag o) f
        /\ Download.Headers.contentType headers = lit "audio/mpeg"
  | Combined =>
      (exists origin,
          In origin formats
          /\ Opt.format o = or_str (Fmt.container origin) (lit "mp4"))
      /\ if isAudioLabel o
            || Download.Headers.isByteString (Opt.format o)
               && Download.Headers.isHeaderValue (Opt.format o)
         then
           exists headers f,
             response
             = Download.Stream headers (Download.RelayOf (ytdl url f))
             /\ firstWithItag formats (Opt.itag o) f
         else
           response
           = Download.handleError
               (ErrorObject
                  (refusedValue
                     (Download.attachment
                        (sanitizeName title ++ lit "." ++ Opt.format o))))
  | Split =>
      if Opt.isHighQuality o then
        exists headers fv fa,
          response
          = Download.Stream headers
              (Download.MuxOf (ytdl url fv) (ytdl url fa))
          /\ firstWithItag formats (Opt.videoItag o) fv
          /\ firstWithItag formats (Opt.audioItag o) fa
      else
        response
        = Download.Json 404
            (if isAudioLabel o then lit "Requested audio format not found"
             else lit "Requested format not found")
  end.
Proof.
  intros Hin response. apply catalog_origin in Hin.
  destruct Hin as (k & Ho).
  unfold response, Download.dispatch, Download.route.
  destruct Ho as [f label Hf Hc Hq|a v label Ha Hv Hq|a Ha].
  - destruct (combinedOption_shape _ _ Hc Hq) as (_ & _ & -> & -> & _).
    split; [exists f; split; [exact Hf|reflexivity]|].
    destruct (findByItag_present formats f Hf) as (f' & Ef & Hf' & Hi).
    assert (Download.handleAudioOnlyDownload ytdl refusedValue url
              (Info.mk formats title) (combinedOption f)
              (sanitizedTitle title)
            = inr (Download.Stream
                     (Download.Headers.mk (lit "audio/mpeg")
                        (Download.attachment
                           (sanitizeName title ++ lit ".mp3"))
                        (lit "no-cache") (Download.lengthHeader f'))
                     (Download.RelayOf (ytdl url f')))) as Haudio.
    { unfold Download.handleAudioOnlyDownload.
      cbn [Info.formats Info.title Opt.itag combinedOption]. rewrite Ef.
      rewrite newHeaders_ok, setContentLength_ok;
        [|reflexivity|apply store_name; reflexivity].
      cbn [Download.Headers.contentType Download.Headers.contentDisposition
             Download.Headers.cacheControl Download.Headers.contentLength].
      now destruct (Download.lengthHeader f'). }
    cbn [Opt.isHighQuality combinedOption] in *.
    change (Opt.format (combinedOption f))
      with (or_str (Fmt.container f) (lit "mp4")).
    unfold isAudioLabel. cbn [Info.title].
    destruct (eqb (Opt.quality (combinedOption f)) (lit "Audio Only")).
    { rewrite Haudio. cbn [orb]. eexists. exists f'.
      split; [reflexivity|]. now apply findByItag_first. }
    cbn [orb].
    destruct (Download.Headers.isByteString _ && _) eqn:Eok.
    + unfold Download.handleStandardDownload.
      cbn [Info.formats Info.title Opt.itag Opt.format combinedOption].
      rewrite Ef. apply andb_true_iff in Eok. destruct Eok as [Hb Hv].
      rewrite newHeaders_ok, setContentLength_ok;
        [| |now apply store_name].
      * eexists. exists f'. split; [reflexivity|].
        now apply findByItag_first.
      * now destruct (eqb _ (lit "mp3")).
    + unfold Download.handleStandardDownload.
      cbn [Info.formats Info.title Opt.itag Opt.format combinedOption].
      rewrite Ef. unfold Download.newHeaders.
      rewrite (store_name_none _ _ Eok).
      now destruct (eqb _ (lit "mp3")).
  - apply videoOnlyFormats_In in Hv. destruct Hv as [Hv Hc].
    destruct (highOption_shape a _ _ Hc Hq)
      as (_ & _ & Hh & Hvi & Hai & -> & _).
    rewrite Hh.
    destruct (bestAudioFormat_max _ _ Ha) as (Hain & _).
    destruct (1080 <=? extractResolution label).
    + destruct (findByItag_present formats v Hv) as (fv & Ev & Hfv & Hiv).
      destruct (findByItag_present formats a Hain)
        as (fa & Ea & Hfa & Hia).
      unfold Download.handleHighQualityDownload.
      cbn [Info.formats Info.title]. rewrite Hvi, Hai, Ev, Ea.
      rewrite newHeaders_ok; [|reflexivity|apply store_name; reflexivity].
      eexists. exists fv, fa. split; [reflexivity|].
      split; now apply findByItag_first.
    + unfold Download.handleAudioOnlyDownload,
        Download.handleStandardDownload.
      cbn [Info.formats Opt.itag highOption].
      rewrite findByItag_absent. unfold isAudioLabel.
      now destruct (eqb _ _).
  - change (kindOf (audioOnlyOption a)) with AudioOnly.
    destruct (bestAudioFormat_max _ _ Ha) as (Hain & _).
    destruct (findByItag_present formats a Hain) as (f' & Ef & Hf' & Hi).
    unfold Download.handleAudioOnlyDownload.
    cbn [Info.formats Info.title Opt.itag Opt.isHighQuality Opt.quality
           audioOnlyOption].
    rewrite eqb_refl, Ef.
    rewrite newHeaders_ok, setContentLength_ok;
      [|reflexivity|apply store_name; reflexivity].
    eexists. exists f'. split; [reflexivity|].
    split; [now apply findByItag_first|reflexivity].
Qed.

Lemma catalog_option_download_witness :
  In sampleSplit720Option (catalog sampleFormats)
  /\ kindOf sampleSplit720Option = Split
  /\ Opt.isHighQuality sampleSplit720Option = false
  /\ Download.dispatch sampleYtdl sampleRefusedValue sampleUrl
       (Info.mk sampleFormats (lit "My Video: Part #1!"))
       sampleSplit720Option
     = Download.Json 404 (lit "Requested format not found").
Proof.
  assert (In sampleSplit720Option (catalog sampleFormats)) as Hin
      by (vm_compute; right; right; left; reflexivity).
  exact (conj Hin (conj eq_refl (conj eq_refl
           (catalog_option_download sampleYtdl sampleRefusedValue sampleUrl
              sampleFormats (lit "My Video: Part #1!") sampleSplit720Option
              Hin)))).
Defined.

(** ** Answers of the download route *)

Lemma download_handleError_status (error : Thrown) :
  In (Download.status (Download.handleError error)) [403; 404; 500].
Proof.
  destruct error as [message|]; simpl; [|tauto].
  destruct (includes (lit "Video unavailable") message); simpl; [tauto|].
  destruct (includes (lit "age-restricted") message); simpl; [tauto|].
  destruct (includes (lit "Sign in to confirm") message); simpl; tauto.
Qed.

Lemma download_handleError_json (error : Thrown) :
  exists status message,
    Download.handleError error = Download.Json status message.
Proof.
  destruct error as [message|]; simpl; [|eauto].
  destruct (includes (lit "Video unavailable") message); [eauto|].
  destruct (includes (lit "age-restricted") message); [eauto|].
  destruct (includes (lit "Sign in to confirm") message); eauto.
Qed.

(** A streamed answer of the dispatcher: the handler, the renditions
    found and the headers. *)
Lemma dispatch_stream
  (ytdl : jsstring -> Fmt.t -> list StreamEvent)
  (refusedValue : jsstring -> jsstring) (url : jsstring)
  (info : Info.t) (format : Opt.t) (headers : Download.Headers.t)
  (body : Download.Body) :
  Download.dispatch ytdl refusedValue url info format
  = Download.Stream headers body ->
  let name := sanitizeName (Info.title info) in
  if Opt.isHighQuality format then
    exists videoFormat audioFormat,
      Download.findByItag (Info.formats info) (Opt.videoItag format)
      = Some videoFormat
      /\ Download.findByItag (Info.formats info) (Opt.audioItag format)
         = Some audioFormat
      /\ body = Download.MuxOf (ytdl url videoFormat) (ytdl url audioFormat)
      /\ headers
         = Download.Headers.mk (lit "video/mp4")
             (Download.attachment (name ++ lit ".mp4")) (lit "no-cache")
             None
  else
    exists selected,
      Download.findByItag (Info.formats info) (Opt.itag format)
      = Some selected
      /\ body = Download.RelayOf (ytdl url selected)
      /\ headers
         = if eqb (Opt.quality format) (lit "Audio Only") then
             Download.Headers.mk (lit "audio/mpeg")
               (Download.attachment (name ++ lit ".mp3")) (lit "no-cache")
               (Download.lengthHeader selected)
           else
             Download.Headers.mk
               (if eqb (Opt.format format) (lit "mp3")
                then lit "audio/mpeg" else lit "video/mp4")
               (Download.attachment (name ++ lit "." ++ Opt.format format))
               (lit "no-cache") (Download.lengthHeader selected).
Proof.
  intros Hd name. revert Hd.
  unfold Download.dispatch, Download.route,
    Download.handleHighQualityDownload,
    Download.handleAudioOnlyDownload, Download.handleStandardDownload.
  fold name.
  destruct (Opt.isHighQuality format).
  - destruct (Download.findByItag _ (Opt.videoItag format)) as [fv|];
      [destruct (Download.findByItag _ (Opt.audioItag format)) as [fa|]|];
      try discriminate.
    rewrite newHeaders_ok; [|reflexivity|apply store_name; reflexivity].
    intros [= <- <-]. exists fv, fa. auto.
  - destruct (Download.findByItag _ (Opt.itag format)) as [f|];
      [|destruct (eqb _ _); discriminate].
    destruct (eqb (Opt.quality format) (lit "Audio Only")).
    + rewrite newHeaders_ok, setContentLength_ok;
        [|reflexivity|apply store_name; reflexivity].
      intros [= <- <-]. exists f. repeat split.
      cbn [Download.Headers.contentType Download.Headers.contentDisposition
             Download.Headers.cacheControl Download.Headers.contentLength].
      now destruct (Download.lengthHeader f).
    + destruct (Download.Headers.store
                  (Download.attachment (name ++ lit "." ++ Opt.format format)))
        as [stored|] eqn:Es.
      * pose proof (store_some _ _ Es) as En.
        rewrite normalize_attachment in En. subst stored.
        rewrite newHeaders_ok, setContentLength_ok;
          [| |exact Es].
        -- intros [= <- <-]. exists f. repeat split.
           cbn [Download.Headers.contentType
                  Download.Headers.contentDisposition
                  Download.Headers.cacheControl
                  Download.Headers.contentLength].
           now destruct (Download.lengthHeader f).
        -- now destruct (eqb _ (lit "mp3")).
      * unfold Download.newHeaders. rewrite Es.
        assert (forall v, Download.Headers.store
                            (if eqb (Opt.format format) (lit "mp3")
                             then lit "audio/mpeg" else lit "video/mp4")
                          = Some v ->
                          Download.handleError
                            (ErrorObject
                               (refusedValue
                                  (Download.attachment
                                     (name ++ lit "."
                                      ++ Opt.format format))))
                          = Download.Stream headers body -> False) as Hno.
        { intros v _ H.
          destruct (download_handleError_json
                      (ErrorObject
                         (refusedValue
                            (Download.attachment
                               (name ++ lit "." ++ Opt.format format)))))
            as (st & msg & E).
          rewrite E in H. discriminate. }
        destruct (eqb (Opt.format format) (lit "mp3"));
          intros H; exfalso; exact (Hno _ eq_refl H).
Qed.

Lemma dispatch_status
  (ytdl : jsstring -> Fmt.t -> list StreamEvent)
  (refusedValue : jsstring -> jsstring) (url : jsstring)
  (info : Info.t) (format : Opt.t) :
  In (Download.status (Download.dispatch ytdl refusedValue url info format))
     [200; 403; 404; 500].
Proof.
  unfold Download.dispatch.
  destruct (Download.route ytdl refusedValue url info format)
    as [error|response] eqn:E.
  - pose proof (download_handleError_status error). simpl in *. tauto.
  - revert E. unfold Download.route, Download.handleHighQualityDownload,
      Download.handleAudioOnlyDownload, Download.handleStandardDownload.
    destruct (Opt.isHighQuality format);
      [|destruct (eqb (Opt.quality format) (lit "Audio Only"))];
      repeat match goal with
             | |- context [Download.findByItag ?l ?w] =>
                 destruct (Download.findByItag l w)
             end;
      repeat match goal with
             | |- context [Download.newHeaders ?r ?a ?b ?c] =>
                 destruct (Download.newHeaders r a b c)
             end;
      repeat match goal with
             | |- context [Download.setContentLength ?r ?a ?b] =>
                 destruct (Download.setContentLength r a b)
             end;
      intros [= <-]; simpl; tauto.
Qed.

(** X9. The download route answers with one of the statuses 200, 400,
    403, 404 and 500, whatever the request and the provider do.  It
    answers 400 when the URL or the format is missing or the URL is
    refused, before any metadata is fetched; a failure of the metadata
    lookup is answered 404 when the message holds [Video unavailable],
    else 403 when it holds [age-restricted] or [Sign in to confirm], else
    500; and it answers 200 only after a lookup that succeeds. *)
Theorem download_statuses
  (validateURL : jsstring -> bool) (getInfo : jsstring -> Thrown + Info.t)
  (ytdl : jsstring -> Fmt.t -> list StreamEvent)
  (refusedValue : jsstring -> jsstring) :
  let POST := Download.POST validateURL getInfo ytdl refusedValue in
  (forall body, In (Download.status (POST body)) [200; 400; 403; 404; 500])
  /\ (forall url format,
        truthy url = false \/ format = None ->
        POST (inr (Download.mkRequest url format))
        = Download.Json 400 (lit "URL and format are required"))
  /\ (forall c u format,
        validateURL (c :: u) = false ->
        POST (inr (Download.mkRequest (Some (c :: u)) (Some format)))
        = Download.Json 400 (lit "Invalid YouTube URL"))
  /\ (forall c u format message,
        validateURL (c :: u) = true ->
        getInfo (c :: u) = inl (ErrorObject message) ->
        Download.status
          (POST (inr (Download.mkRequest (Some (c :: u)) (Some format))))
        = if includes (lit "Video unavailable") message then 404
          else if includes (lit "age-restricted") message
                  || includes (lit "Sign in to confirm") message then 403
          else 500)
  /\ (forall c u format,
        Download.status
          (POST (inr (Download.mkRequest (Some (c :: u)) (Some format))))
        = 200 ->
        validateURL (c :: u) = true
        /\ exists info, getInfo (c :: u) = inr info).
Proof.
  intros POST. unfold POST, Download.POST. split; [|split; [|split; [|split]]].
  - intros [error|[[[|c u]|] [format|]]]; cbn [Download.url Download.format];
      try (simpl; tauto).
    + pose proof (download_handleError_status error). simpl in *. tauto.
    + destruct (validateURL (c :: u)); simpl; [|tauto].
      destruct (getInfo (c :: u)) as [error|info].
      * pose proof (download_handleError_status error). simpl in *. tauto.
      * pose proof (dispatch_status ytdl refusedValue (c :: u) info format).
        simpl in *. tauto.
  - intros [[|c u]|] [format|] [H|H]; cbn [Download.url Download.format];
      try reflexivity; try discriminate.
  - intros c u format H. cbn [Download.url Download.format].
    now rewrite H.
  - intros c u format message Hv Hi. cbn [Download.url Download.format].
    rewrite Hv, Hi. simpl.
    destruct (includes (lit "Video unavailable") message); [reflexivity|].
    destruct (includes (lit "age-restricted") message); [reflexivity|].
    destruct (includes (lit "Sign in to confirm") message); reflexivity.
  - intros c u format. cbn [Download.url Download.format].
    destruct (validateURL (c :: u)); simpl; [|discriminate].
    destruct (getInfo (c :: u)) as [error|info]; [|eauto].
    pose proof (download_handleError_status error) as He.
    simpl in He. intros H. rewrite H in He.
    destruct He as [He|[He|[He|[]]]]; discriminate.
Qed.

Lemma download_statuses_witness :
  Download.status
    (Download.POST sampleValidateURL signInGetInfo sampleYtdl
       sampleRefusedValue
       (inr (Download.mkRequest (Some sampleUrl) (Some sampleAudioOption))))
  = 403.
Proof.
  destruct (download_statuses sampleValidateURL signInGetInfo sampleYtdl
              sampleRefusedValue)
    as (_ & _ & _ & Herr & _).
  exact (Herr 104%N (tl sampleUrl) sampleAudioOption signInMessage
              eq_refl eq_refl).
Defined.

(** X10. The headers of a streamed answer.  [Cache-Control] is always
    [no-cache].  On the ffmpeg path the type is [video/mp4] and there is
    never a [Content-Length].  On a single-stream path the length is that
    of the rendition that was looked up, present exactly when the
    rendition has one, and the type is [audio/mpeg] for the audio-only
    label and for the container [mp3], [video/mp4] for everything else,
    whatever the container of the rendition. *)
Theorem download_headers
  (ytdl : jsstring -> Fmt.t -> list StreamEvent)
  (refusedValue : jsstring -> jsstring) (url : jsstring)
  (info : Info.t) (format : Opt.t) (headers : Download.Headers.t)
  (body : Download.Body) :
  Download.dispatch ytdl refusedValue url info format
  = Download.Stream headers body ->
  Download.Headers.cacheControl headers = lit "no-cache"
  /\ match body with
     | Download.MuxOf _ _ =>
         Download.Headers.contentType headers = lit "video/mp4"
         /\ Download.Headers.contentLength headers = None
     | Download.RelayOf source =>
         exists f,
           In f (Info.formats info)
           /\ Opt.itag format = Some (Fmt.itag f)
           /\ source = ytdl url f
           /\ Download.Headers.contentLength headers
              = option_map (fun len => of_number (Z.of_N len))
                           (Fmt.contentLength f)
           /\ Download.Headers.contentType headers
              = if eqb (Opt.quality format) (lit "Audio Only")
                   || eqb (Opt.format format) (lit "mp3")
                then lit "audio/mpeg" else lit "video/mp4"
     end.
Proof.
  intros Hd. apply dispatch_stream in Hd. cbv zeta in Hd.
  destruct (Opt.isHighQuality format).
  - destruct Hd as (fv & fa & _ & _ & -> & ->). simpl. auto.
  - destruct Hd as (f & E & -> & ->).
    apply findByItag_some in E. destruct E as [Hf Hi].
    destruct (eqb (Opt.quality format) (lit "Audio Only")); simpl;
      (split; [reflexivity|]); exists f; repeat split; auto;
      unfold Download.lengthHeader; now destruct (Fmt.contentLength f).
Qed.

Lemma download_headers_witness :
  exists headers body,
    Download.dispatch sampleYtdl sampleRefusedValue sampleUrl sampleInfo
                      sampleCombinedOption
    = Download.Stream headers body
    /\ Download.Headers.cacheControl headers = lit "no-cache"
    /\ Download.Headers.contentLength headers = Some (lit "52428800").
Proof.
  eexists. eexists.
  assert (Download.dispatch sampleYtdl sampleRefusedValue sampleUrl
            sampleInfo sampleCombinedOption
          = Download.Stream
              {| Download.Headers.contentType := lit "video/mp4";
                 Download.Headers.contentDisposition :=
                   Download.attachment (lit "My_Video_Part_1.mp4");
                 Download.Headers.cacheControl := lit "no-cache";
                 Download.Headers.contentLength := Some (lit "52428800") |}
              (Download.RelayOf (sampleYtdl sampleUrl sampleBestAudio)))
    as Hd by reflexivity.
  split; [exact Hd|].
  destruct (download_headers _ _ _ _ _ _ _ Hd) as (Hc & _).
  exact (conj Hc eq_refl).
Defined.

(** ** Stream relay and mux pipeline *)

(** The operations of a body unfolded, and its fields projected. *)
Ltac body_ops :=
  unfold ReadableStream.enqueue, ReadableStream.close,
    ReadableStream.error, ReadableStream.cancel, ReadableStream.read,
    ReadableStream.readable, Controller.enqueue, Controller.close.

Ltac body_fields :=
  cbn [ReadableStream.controller ReadableStream.queue
         ReadableStream.received Controller.state Controller.enqueued].







(** An error of the source drops the chunks the consumer has not read. *)
Example relay_error_drops :
  let r := Relay.run [Relay.Source (Data [x00]); Relay.Read;
                      Relay.Source (Data [x01]);
                      Relay.Source (Error (lit "aborted")); Relay.Read] in
  Controller.enqueued (Relay.controller r) = [[x00]; [x01]]
  /\ ReadableStream.received (Relay.body r) = [[x00]]
  /\ ReadableStream.queue (Relay.body r) = [].
Proof. repeat split; reflexivity. Qed.

Lemma stdoutPrefix_app (evs later : list Mux.Event) :
  stdoutPrefix (evs ++ later)
  = if existsb isStop evs then stdoutPrefix evs
    else stdoutPrefix evs ++ stdoutPrefix later.
Proof.
  induction evs as [|ev evs IH]; [reflexivity|].
  cbn [app stdoutPrefix existsb].
  destruct (isStop ev) eqn:E; [reflexivity|]. cbn [orb]. rewrite IH.
  destruct ev; try discriminate E; destruct (existsb isStop evs);
    reflexivity.
Qed.

Lemma isDrop_isStop (evs : list Mux.Event) :
  existsb isStop evs = false -> existsb isDrop evs = false.
Proof.
  induction evs as [|ev evs IH]; [reflexivity|]. cbn [existsb].
  intros H. apply orb_false_iff in H. destruct H as [H1 H2].
  rewrite (IH H2). now destruct ev.
Qed.

Lemma mux_invariant (evs : list Mux.Event) :
  let body := Mux.body (Mux.run evs) in
  Controller.enqueued (ReadableStream.controller body) = stdoutPrefix evs
  /\ (if existsb isStop evs
      then Controller.state (ReadableStream.controller body) <> Readable
      else Controller.state (ReadableStream.controller body) = Readable)
  /\ exists lost,
       stdoutPrefix evs
       = ReadableStream.received body ++ ReadableStream.queue body ++ lost
       /\ (existsb isDrop evs = false -> lost = []).
Proof.
  induction evs as [|ev evs IH] using rev_ind.
  - cbv zeta. simpl. repeat split. now exists [].
  - cbv zeta in *. unfold Mux.run in *. rewrite fold_left_app.
    cbn [fold_left]. rewrite stdoutPrefix_app, !existsb_app.
    destruct (fold_left Mux.step evs Mux.init)
      as [v a f [[log st] queue received] slog].
    cbn [Mux.body ReadableStream.controller ReadableStream.queue
           ReadableStream.received Controller.enqueued Controller.state]
      in IH.
    destruct IH as (Hlog & Hst & lost & Hl & Hlost).
    destruct (existsb isStop evs) eqn:Estop.
    + cbn [orb].
      destruct ev; cbn [Mux.step Mux.body];
        body_ops;
        body_fields;
        try (split; [exact Hlog|]; split; [exact Hst|];
             exists lost; split; [exact Hl|];
             cbn [existsb isDrop]; rewrite ?orb_false_r; exact Hlost);
        destruct st; try congruence;
        body_fields;
        try (split; [exact Hlog|]; split; [exact Hst|];
             exists lost; split; [exact Hl|];
             cbn [existsb isDrop]; rewrite ?orb_false_r; exact Hlost).
      all: destruct queue as [|c queue];
        body_fields;
        (split; [exact Hlog|]); (split; [discriminate|]).
      all: try (exists lost; split; [exact Hl|];
                cbn [existsb isDrop]; rewrite ?orb_false_r, ?orb_true_r;
                try discriminate; exact Hlost).
      all: try (exists ((c :: queue) ++ lost); split;
                [now rewrite Hl, <- ?app_assoc|];
                cbn [existsb isDrop]; rewrite ?orb_true_r; discriminate).
      all: exists lost; split;
        [rewrite Hl, <- !app_assoc; reflexivity|];
        cbn [existsb isDrop]; rewrite ?orb_false_r; exact Hlost.
    + cbn [orb]. subst st.
      pose proof (Hlost (isDrop_isStop _ Estop)) as ->.
      rewrite app_nil_r in Hl.
      destruct ev; cbn [Mux.step Mux.body existsb isStop orb stdoutPrefix];
        body_ops;
        body_fields;
        rewrite ?app_nil_r;
        try (split; [exact Hlog|]; split; [reflexivity || discriminate|];
             exists []; split; [now rewrite app_nil_r|intros _; reflexivity]).
      * split; [rewrite Hlog; reflexivity|]. split; [reflexivity|].
        exists []. split; [|intros _; reflexivity].
        now rewrite Hl, app_nil_r, !app_assoc.
      * split; [exact Hlog|]. split; [discriminate|].
        exists queue. split; [exact Hl|].
        cbn [isDrop orb]. rewrite orb_true_r. discriminate.
      * split; [exact Hlog|]. split; [discriminate|].
        exists queue. split; [exact Hl|].
        cbn [isDrop orb]. rewrite orb_true_r. discriminate.
      * destruct queue as [|c queue];
          body_fields;
          (split; [exact Hlog|]); (split; [reflexivity|]); exists [];
          (split; [|intros _; reflexivity]).
        -- cbn [app]. exact Hl.
        -- rewrite Hl, app_nil_r, <- app_assoc. reflexivity.
Qed.

Lemma mux_log_general (evs : list Mux.Event) (m : Mux.t) :
  Mux.serverLog (fold_left Mux.step evs m)
  = Mux.serverLog m
    ++ List.map (fun d => lit "FFmpeg stderr: " ++ d) (stderrLines evs).
Proof.
  revert m. induction evs as [|ev evs IH]; intros m.
  - simpl. now rewrite app_nil_r.
  - cbn [fold_left]. rewrite IH. destruct ev; simpl; try reflexivity.
    now rewrite <- app_assoc.
Qed.

Lemma mux_stderr_skipped (evs : list Mux.Event) (m m' : Mux.t) :
  Mux.body m = Mux.body m' ->
  Mux.body (fold_left Mux.step evs m)
  = Mux.body
      (fold_left Mux.step (filter (fun ev => negb (isStderr ev)) evs) m').
Proof.
  revert m m'. induction evs as [|ev evs IH]; intros m m' E; [exact E|].
  cbn [fold_left filter].
  destruct ev; cbn [isStderr negb fold_left]; apply IH; simpl;
    now rewrite ?E.
Qed.

(** X12. The body of the ffmpeg path, whatever the order of the events.
    The chunks of the standard output of the process that come before the
    first end of that output, error of the process or cancel of the
    consumer are enqueued, in order, and nothing that comes after it.
    What the consumer has read is a prefix of them, and as long as the
    process has not failed and the consumer has not cancelled it is, with
    what is queued, all of them.  What the process writes to its standard
    error never reaches the body, which is the same as if nothing had
    been written: it goes to the log of the server, each piece after the
    words [FFmpeg stderr:] and a space. *)
Theorem mux_body (evs : list Mux.Event) :
  let body := Mux.body (Mux.run evs) in
  Controller.enqueued (ReadableStream.controller body) = stdoutPrefix evs
  /\ (exists unread, stdoutPrefix evs = ReadableStream.received body ++ unread)
  /\ (existsb isDrop evs = false ->
      ReadableStream.received body ++ ReadableStream.queue body
      = stdoutPrefix evs)
  /\ body
     = Mux.body (Mux.run (filter (fun ev => negb (isStderr ev)) evs))
  /\ Mux.serverLog (Mux.run evs)
     = List.map (fun d => lit "FFmpeg stderr: " ++ d) (stderrLines evs).
Proof.
  cbv zeta.
  destruct (mux_invariant evs) as (Hlog & _ & lost & Hl & Hlost).
  cbv zeta in Hlog, Hl.
  split; [exact Hlog|].
  split.
  { exists (ReadableStream.queue (Mux.body (Mux.run evs)) ++ lost).
    exact Hl. }
  split.
  { intros Hd. rewrite (Hlost Hd), app_nil_r in Hl. now rewrite Hl. }
  split.
  - unfold Mux.run. now apply mux_stderr_skipped.
  - unfold Mux.run. apply mux_log_general.
Qed.

Lemma mux_body_witness :
  let evs := [Mux.StdoutData [x00]; Mux.StderrData (lit "frame=1");
              Mux.Read; Mux.StdoutData [x01]; Mux.StdoutEnd;
              Mux.StdoutData [x02]] in
  ReadableStream.received (Mux.body (Mux.run evs))
  ++ ReadableStream.queue (Mux.body (Mux.run evs))
  = [[x00]; [x01]].
Proof.
  exact (proj1 (proj2 (proj2
           (mux_body [Mux.StdoutData [x00]; Mux.StderrData (lit "frame=1");
                      Mux.Read; Mux.StdoutData [x01]; Mux.StdoutEnd;
                      Mux.StdoutData [x02]]))) eq_refl).
Defined.

(** X13. A resource of the pipeline that is terminated stays terminated:
    no event brings a provider stream or the process back, so once the
    client has cancelled, all three stay terminated whatever follows. *)
Theorem mux_never_revives (evs : list Mux.Event) (m : Mux.t) :
  (Mux.videoStreamLive m = false ->
   Mux.videoStreamLive (fold_left Mux.step evs m) = false)
  /\ (Mux.audioStreamLive m = false ->
      Mux.audioStreamLive (fold_left Mux.step evs m) = false)
  /\ (Mux.ffmpegLive m = false ->
      Mux.ffmpegLive (fold_left Mux.step evs m) = false)
  /\ (Mux.allTerminated m = true ->
      Mux.allTerminated (fold_left Mux.step evs m) = true)
  /\ (forall before,
        Mux.allTerminated (Mux.run (before ++ Mux.Cancel :: evs)) = true).
Proof.
  assert (forall evs m,
             (Mux.videoStreamLive m = false ->
              Mux.videoStreamLive (fold_left Mux.step evs m) = false)
             /\ (Mux.audioStreamLive m = false ->
                 Mux.audioStreamLive (fold_left Mux.step evs m) = false)
             /\ (Mux.ffmpegLive m = false ->
                 Mux.ffmpegLive (fold_left Mux.step evs m) = false)) as H.
  { clear. intros evs. induction evs as [|ev evs IH]; intros m; [auto|].
    cbn [fold_left]. destruct (IH (Mux.step m ev)) as (Hv & Ha & Hf).
    repeat split; intros Hm; [apply Hv|apply Ha|apply Hf];
      destruct ev; simpl; auto. }
  assert (forall evs m,
             Mux.allTerminated m = true ->
             Mux.allTerminated (fold_left Mux.step evs m) = true) as Hall.
  { clear -H. intros evs m. unfold Mux.allTerminated.
    rewrite !andb_true_iff, !negb_true_iff.
    destruct (H evs m) as (Hv & Ha & Hf). tauto. }
  destruct (H evs m) as (Hv & Ha & Hf).
  repeat split; auto.
  intros before. unfold Mux.run. rewrite fold_left_app.
  cbn [fold_left]. apply Hall. reflexivity.
Qed.

Lemma mux_never_revives_witness :
  Mux.allTerminated
    (fold_left Mux.step
       [Mux.StdoutData [x00]; Mux.ProcessExit 0; Mux.VideoError (lit "x")]
       (Mux.step Mux.init Mux.Cancel)) = true.
Proof.
  apply (proj1 (proj2 (proj2 (proj2
           (mux_never_revives
              [Mux.StdoutData [x00]; Mux.ProcessExit 0;
               Mux.VideoError (lit "x")]
              (Mux.step Mux.init Mux.Cancel)))))).
  reflexivity.
Defined.

(** ** More on file names *)

Lemma name_char_not_space (c : N) :
  is_word c || (c =? 45)%N = true -> is_space c = false.
Proof.
  intros H. destruct (is_space c) eqn:E; [|reflexivity].
  rewrite (space_not_name_char c E) in H. discriminate.
Qed.

Lemma trimStart_no_space (s : jsstring) :
  Forall (fun c => is_space c = false) s -> trimStart s = s.
Proof. destruct 1 as [|c s Hc _]; simpl; [reflexivity|]. now rewrite Hc. Qed.

Lemma underscoreRuns_no_space_id (inRun : bool) (s : jsstring) :
  Forall (fun c => is_space c = false) s -> underscoreRuns inRun s = s.
Proof.
  intros H. revert inRun.
  induction H as [|c s Hc _ IH]; intros inRun; simpl; [reflexivity|].
  now rewrite Hc, IH.
Qed.

Lemma trimStart_all_space (s : jsstring) :
  Forall (fun c => is_space c = true) s -> trimStart s = [].
Proof. induction 1 as [|c s Hc _ IH]; simpl; [reflexivity|]. now rewrite Hc. Qed.

Lemma trim_nil_iff (s : jsstring) :
  trim s = [] <-> Forall (fun c => is_space c = true) s.
Proof.
  split.
  - intros E. destruct (trim_split s) as (a & b & Es & Ha & Hb).
    rewrite E in Es. rewrite Es. simpl. apply Forall_app. auto.
  - intros H. unfold trim, trimEnd. now rewrite (trimStart_all_space s H).
Qed.

Lemma underscoreRuns_nil (s : jsstring) :
  underscoreRuns false s = [] -> s = [].
Proof.
  destruct s as [|c s]; [reflexivity|]. simpl.
  destruct (is_space c); discriminate.
Qed.

Lemma underscoreRuns_length (inRun : bool) (s : jsstring) :
  (List.length (underscoreRuns inRun s) <= List.length s)%nat.
Proof.
  revert inRun. induction s as [|c s IH]; intros inRun; simpl; [lia|].
  pose proof (IH true). pose proof (IH false).
  destruct (is_space c); [destruct inRun|]; simpl; lia.
Qed.

(** X14. Sanitizing a title.  The name is never longer than the title; it
    is empty exactly when the title has no letter, digit, underscore or
    hyphen (the file is then called by its extension alone); a title made
    of such characters only is left as it is; and sanitizing a name again
    changes nothing. *)
Theorem sanitizeName_stable (title : jsstring) :
  (List.length (sanitizeName title) <= List.length title)%nat
  /\ (sanitizeName title = [] <->
      Forall (fun c => is_word c || (c =? 45)%N = false) title)
  /\ (Forall (fun c => is_word c || (c =? 45)%N = true) title ->
      sanitizeName title = title)
  /\ sanitizeName (sanitizeName title) = sanitizeName title.
Proof.
  assert (forall t, Forall (fun c => is_word c || (c =? 45)%N = true) t ->
                    sanitizeName t = t) as Hid.
  { intros t Ht. unfold sanitizeName.
    assert (Forall (fun c => is_space c = false) t) as Hns
        by (eapply Forall_impl; [|exact Ht];
            intros c Hc; now apply name_char_not_space).
    assert (stripUnsafe t = t) as ->.
    { unfold stripUnsafe. apply forallb_filter_id.
      apply forallb_forall. rewrite Forall_forall in Ht.
      intros c Hc. specialize (Ht c Hc). unfold allowedInName.
      revert Ht. destruct (is_word c), (c =? 45)%N, (is_space c);
        simpl; congruence. }
    assert (trim t = t) as ->.
    { unfold trim, trimEnd. rewrite (trimStart_no_space t Hns).
      rewrite trimStart_no_space by now apply Forall_rev.
      apply rev_involutive. }
    now apply underscoreRuns_no_space_id. }
  split; [|split; [|split]].
  - unfold sanitizeName.
    destruct (trim_split (stripUnsafe title)) as (a & b & Et & _ & _).
    pose proof (underscoreRuns_length false (trim (stripUnsafe title))).
    pose proof (filter_length_le allowedInName title) as Hf.
    fold (stripUnsafe title) in Hf.
    rewrite Et in Hf at 1. rewrite !length_app in Hf. lia.
  - unfold sanitizeName. split.
    + intros E. apply underscoreRuns_nil in E. apply trim_nil_iff in E.
      apply Forall_forall. intros c Hc.
      destruct (is_word c || (c =? 45)%N) eqn:Ew; [|reflexivity].
      exfalso. rewrite Forall_forall in E.
      assert (In c (stripUnsafe title)) as Hin.
      { apply filter_In. split; [assumption|]. unfold allowedInName.
        revert Ew. destruct (is_word c), (c =? 45)%N; simpl;
          rewrite ?orb_true_r; congruence. }
      specialize (E c Hin). rewrite (name_char_not_space c Ew) in E.
      discriminate.
    + intros H.
      assert (trim (stripUnsafe title) = []) as ->; [|reflexivity].
      apply trim_nil_iff. apply Forall_forall. intros c Hc.
      apply filter_In in Hc. destruct Hc as [Hc Ha].
      rewrite Forall_forall in H. specialize (H c Hc).
      unfold allowedInName in Ha. revert H Ha.
      destruct (is_word c), (c =? 45)%N, (is_space c); simpl; congruence.
  - apply Hid.
  - apply Hid. apply sanitizeName_chars.
Qed.

Lemma sanitizeName_stable_witness :
  sanitizeName (lit "a_b-c") = lit "a_b-c".
Proof.
  apply (proj1 (proj2 (proj2 (sanitizeName_stable (lit "a_b-c"))))).
  repeat constructor.
Defined.

(** ** The page *)

Lemma starts_with_app (p s : jsstring) :
  starts_with p s = true -> s = p ++ skipn (List.length p) s.
Proof.
  revert s. induction p as [|a p IH]; intros s; [reflexivity|].
  destruct s as [|b s]; simpl; [discriminate|].
  rewrite andb_true_iff, N.eqb_eq. intros [-> H]. f_equal. now apply IH.
Qed.

Lemma starts_with_prefix (p r : jsstring) : starts_with p (p ++ r) = true.
Proof.
  induction p as [|a p IH]; simpl; [reflexivity|].
  now rewrite N.eqb_refl.
Qed.

Lemma dropPrefix_some (p s r : jsstring) :
  dropPrefix p s = Some r -> s = p ++ r.
Proof.
  unfold dropPrefix. destruct (starts_with p s) eqn:E; [|discriminate].
  intros H. inversion H; subst. now apply starts_with_app.
Qed.

Lemma dropPrefix_app (p r : jsstring) : dropPrefix p (p ++ r) = Some r.
Proof.
  unfold dropPrefix. rewrite starts_with_prefix. f_equal.
  induction p as [|a p IH]; simpl; auto.
Qed.

(** X15. The page accepts exactly the URLs made of an optional scheme
    [http://] or [https://], an optional [www.], the host [youtube.com]
    or [youtu.be], a slash, and at least one more character that is not a
    line terminator; nothing is asked of what follows. *)
Theorem isValidYouTubeUrl_shape (url : jsstring) :
  isValidYouTubeUrl url = true <->
  exists scheme www host c rest,
    url = scheme ++ www ++ host ++ lit "/" ++ c :: rest
    /\ In scheme [[]; lit "http://"; lit "https://"]
    /\ In www [[]; lit "www."]
    /\ In host [lit "youtube.com"; lit "youtu.be"]
    /\ isLineTerminator c = false.
Proof.
  split.
  - unfold isValidYouTubeUrl.
    set (s1 := match dropPrefix (lit "https://") url with
               | Some r => r
               | None => optionalPrefix (lit "http://") url
               end).
    assert (exists scheme, url = scheme ++ s1
              /\ In scheme [[]; lit "http://"; lit "https://"])
      as (scheme & Eu & Hs).
    { unfold s1, optionalPrefix.
      destruct (dropPrefix (lit "https://") url) as [r|] eqn:E1.
      - apply dropPrefix_some in E1. exists (lit "https://").
        split; [exact E1|simpl; tauto].
      - destruct (dropPrefix (lit "http://") url) as [r|] eqn:E2.
        + apply dropPrefix_some in E2. exists (lit "http://").
          split; [exact E2|simpl; tauto].
        + exists []. split; [reflexivity|simpl; tauto]. }
    set (s2 := optionalPrefix (lit "www.") s1).
    assert (exists www, s1 = www ++ s2 /\ In www [[]; lit "www."])
      as (www & Es1 & Hw).
    { unfold s2, optionalPrefix.
      destruct (dropPrefix (lit "www.") s1) as [r|] eqn:E1.
      - apply dropPrefix_some in E1. exists (lit "www.").
        split; [exact E1|simpl; tauto].
      - exists []. split; [reflexivity|simpl; tauto]. }
    destruct (match dropPrefix (lit "youtube.com") s2 with
              | Some r => Some r
              | None => dropPrefix (lit "youtu.be") s2
              end) as [[|slash [|c rest]]|] eqn:Eh; try discriminate.
    rewrite andb_true_iff, N.eqb_eq, negb_true_iff. intros [-> Hc].
    assert (exists host, s2 = host ++ lit "/" ++ c :: rest
              /\ In host [lit "youtube.com"; lit "youtu.be"])
      as (host & Es2 & Hh).
    { destruct (dropPrefix (lit "youtube.com") s2) as [r|] eqn:E1.
      - injection Eh as ->. apply dropPrefix_some in E1.
        exists (lit "youtube.com"). split; [exact E1|simpl; tauto].
      - apply dropPrefix_some in Eh.
        exists (lit "youtu.be"). split; [exact Eh|simpl; tauto]. }
    exists scheme, www, host, c, rest.
    split; [|auto]. rewrite <- Es2, <- Es1. exact Eu.
  - intros (scheme & www & host & c & rest & -> & Hs & Hw & Hh & Hc).
    simpl in Hs, Hw, Hh.
    destruct Hs as [<-|[<-|[<-|[]]]]; destruct Hw as [<-|[<-|[]]];
      destruct Hh as [<-|[<-|[]]];
      cbv -[isLineTerminator negb]; now rewrite Hc.
Qed.

Lemma isValidYouTubeUrl_shape_witness :
  isValidYouTubeUrl sampleUrl = true.
Proof.
  apply (proj2 (isValidYouTubeUrl_shape sampleUrl)).
  exists (lit "https://"), (lit "www."), (lit "youtube.com"),
    119%N, (lit "atch?v=aqz-KE-bpKQ").
  repeat split; simpl; tauto.
Defined.

Lemma captureToLastQuote_all (f taken : jsstring) (best : option jsstring) :
  Forall (fun c => isLineTerminator c = false) f ->
  taken <> [] \/ f <> [] ->
  captureToLastQuote taken (f ++ [34%N]) best = Some (rev taken ++ f).
Proof.
  intros Hf. revert taken best.
  induction Hf as [|c f Hc _ IH]; intros taken best Hne.
  - destruct Hne as [Hne|Hne]; [|congruence].
    destruct taken as [|t taken]; [congruence|].
    simpl. now rewrite app_nil_r.
  - cbn [app captureToLastQuote]. rewrite Hc.
    rewrite IH by (left; discriminate).
    simpl. now rewrite <- app_assoc.
Qed.

Lemma matchFilename_attachment (filename : jsstring) :
  filename <> [] ->
  Forall (fun c => isLineTerminator c = false) filename ->
  matchFilename (Download.attachment filename) = Some filename.
Proof.
  intros Hne Hf. unfold Download.attachment.
  change (lit "attachment; filename=" ++ [34%N] ++ filename ++ [34%N])
    with (lit "attachment; "
          ++ (lit "filename=" ++ [34%N]) ++ filename ++ [34%N]).
  assert (forall s, matchFilename (lit "attachment; " ++ s)
                    = matchFilename s) as Hskip.
  { intros s. reflexivity. }
  rewrite Hskip.
  assert (filenameHere ((lit "filename=" ++ [34%N]) ++ filename ++ [34%N])
          = Some filename) as Hh.
  { unfold filenameHere. rewrite dropPrefix_app.
    now rewrite captureToLastQuote_all by auto. }
  destruct ((lit "filename=" ++ [34%N]) ++ filename ++ [34%N]) eqn:E;
    [discriminate|].
  cbn [matchFilename]. now rewrite Hh.
Qed.

Lemma name_char_not_terminator (c : N) :
  is_word c || (c =? 45)%N = true -> isLineTerminator c = false.
Proof.
  intros H. apply name_char_not_space in H. revert H.
  unfold is_space, isLineTerminator.
  destruct (N.eqb_spec c 10), (N.eqb_spec c 13), (N.eqb_spec c 8232),
    (N.eqb_spec c 8233); subst; simpl; try reflexivity; discriminate.
Qed.

(** X16. The file name the page reads from the [Content-Disposition]
    header is the file name the server wrote into it: always on the
    audio-only and the ffmpeg paths, and on the pre-muxed path whenever
    the container name sent by the client holds no line terminator.  The
    name made up from the title shown on the page is not used then. *)
Theorem page_reads_server_filename
  (ytdl : jsstring -> Fmt.t -> list StreamEvent)
  (refusedValue : jsstring -> jsstring) (url : jsstring)
  (info : Info.t) (format : Opt.t) (headers : Download.Headers.t)
  (body : Download.Body) (videoTitle : option jsstring) :
  Download.dispatch ytdl refusedValue url info format
  = Download.Stream headers body ->
  (Opt.isHighQuality format = false ->
   Opt.quality format <> lit "Audio Only" ->
   Forall (fun c => isLineTerminator c = false) (Opt.format format)) ->
  exists ext,
    downloadFilename videoTitle (Opt.format format)
      (Some (Download.Headers.contentDisposition headers))
    = sanitizeName (Info.title info) ++ lit "." ++ ext
    /\ (if Opt.isHighQuality format then ext = lit "mp4"
        else if eqb (Opt.quality format) (lit "Audio Only")
             then ext = lit "mp3"
        else ext = Opt.format format).
Proof.
  intros Hd Hext.
  assert (forall ext,
             Forall (fun c => isLineTerminator c = false) ext ->
             downloadFilename videoTitle (Opt.format format)
               (Some (Download.attachment
                        (sanitizeName (Info.title info) ++ lit "." ++ ext)))
             = sanitizeName (Info.title info) ++ lit "." ++ ext) as Hrt.
  { intros ext He. unfold downloadFilename.
    destruct (Download.attachment
                (sanitizeName (Info.title info) ++ lit "." ++ ext))
      as [|c cd] eqn:Ea; [discriminate Ea|].
    rewrite <- Ea, matchFilename_attachment.
    - reflexivity.
    - destruct (sanitizeName (Info.title info)); discriminate.
    - apply Forall_app. split.
      + eapply Forall_impl; [|apply sanitizeName_chars].
        intros x Hx. now apply name_char_not_terminator.
      + constructor; [reflexivity|exact He]. }
  apply dispatch_stream in Hd. cbv zeta in Hd.
  destruct (Opt.isHighQuality format).
  - destruct Hd as (fv & fa & _ & _ & _ & ->). exists (lit "mp4").
    split; [|reflexivity]. cbn [Download.Headers.contentDisposition].
    apply (Hrt (lit "mp4")). repeat constructor.
  - destruct Hd as (f & _ & _ & ->).
    destruct (eqb (Opt.quality format) (lit "Audio Only")) eqn:Eq.
    + exists (lit "mp3"). split; [|reflexivity].
      cbn [Download.Headers.contentDisposition].
      apply (Hrt (lit "mp3")). repeat constructor.
    + exists (Opt.format format). split; [|reflexivity].
      cbn [Download.Headers.contentDisposition].
      apply Hrt. apply Hext; [reflexivity|]. now apply eqb_neq.
Qed.

Lemma page_reads_server_filename_witness :
  downloadFilename (Some (lit "My Video: Part #1!")) (lit "mp4")
    (Some (Download.attachment (lit "My_Video_Part_1.mp4")))
  = lit "My_Video_Part_1.mp4".
Proof.
  destruct (page_reads_server_filename sampleYtdl sampleRefusedValue
              sampleUrl sampleInfo sampleCombinedOption
              {| Download.Headers.contentType := lit "video/mp4";
                 Download.Headers.contentDisposition :=
                   Download.attachment (lit "My_Video_Part_1.mp4");
                 Download.Headers.cacheControl := lit "no-cache";
                 Download.Headers.contentLength := Some (lit "52428800") |}
              (Download.RelayOf (sampleYtdl sampleUrl sampleBestAudio))
              (Some (lit "My Video: Part #1!")) eq_refl)
    as (ext & Hname & Hext).
  - intros _ _. repeat constructor.
  - simpl in Hext. subst ext. exact Hname.
Defined.

(** ** Durations *)

Lemma splitColon_digits (d : jsstring) :
  Forall (fun c => is_digit c = true) d -> splitColon d = [d].
Proof.
  induction 1 as [|c d Hc _ IH]; simpl; [reflexivity|].
  assert ((c =? 58)%N = false) as ->.
  { unfold is_digit in Hc. apply andb_true_iff in Hc.
    destruct Hc as [_ Hc]. apply N.leb_le in Hc. apply N.eqb_neq. lia. }
  now rewrite IH.
Qed.

Lemma splitColon_field (d rest : jsstring) :
  Forall (fun c => is_digit c = true) d ->
  splitColon (d ++ lit ":" ++ rest) = d :: splitColon rest.
Proof.
  induction 1 as [|c d Hc _ IH]; [reflexivity|]. cbn [app splitColon].
  assert ((c =? 58)%N = false) as ->.
  { unfold is_digit in Hc. apply andb_true_iff in Hc.
    destruct Hc as [_ Hc]. apply N.leb_le in Hc. apply N.eqb_neq. lia. }
  now rewrite IH.
Qed.

Lemma padStart2_digits (s : jsstring) :
  Forall (fun c => is_digit c = true) s ->
  Forall (fun c => is_digit c = true) (padStart2 s).
Proof.
  intros H. unfold padStart2. apply Forall_app. split; [|exact H].
  apply Forall_forall. intros c Hc. apply repeat_spec in Hc. now subst.
Qed.

Lemma decimalValue_padStart2 (s : jsstring) :
  decimalValue (padStart2 s) = decimalValue s.
Proof.
  unfold padStart2, decimalValue. rewrite fold_left_app.
  f_equal. induction (2 - List.length s)%nat as [|n IH]; [reflexivity|].
  simpl. exact IH.
Qed.

Lemma padStart2_length (s : jsstring) :
  (2 <= List.length (padStart2 s))%nat.
Proof.
  unfold padStart2. rewrite length_app, repeat_length. lia.
Qed.

Lemma of_integer_nonneg (n : Z) : 0 <= n -> of_integer n = of_number n.
Proof.
  intros Hn. unfold of_integer.
  destruct (Z.ltb_spec n 0); [lia|reflexivity].
Qed.

(** X17. A duration of at most 2^53 seconds is displayed as [M:SS] below
    an hour and as [H:MM:SS] from an hour on, and the display can be read
    back: the fields are decimal numerals, the last one (and the middle
    one, from an hour on) of at least two digits, and they stand for the
    number of seconds that was formatted.  Two such durations are
    displayed alike only when they are equal. *)
Theorem formatDuration_reads_back (seconds : Z) :
  0 <= seconds <= 2 ^ 53 ->
  durationSeconds (formatDuration seconds) = seconds
  /\ splitColon (formatDuration seconds)
     = (if seconds <? 3600
        then [of_number (seconds / 60);
              padStart2 (of_number (seconds mod 60))]
        else [of_number (seconds / 3600);
              padStart2 (of_number ((seconds mod 3600) / 60));
              padStart2 (of_number (seconds mod 60))])
  /\ (2 <= List.length (padStart2 (of_number (seconds mod 60))))%nat
  /\ (2 <= List.length
             (padStart2 (of_number ((seconds mod 3600) / 60))))%nat
  /\ (forall other, 0 <= other <= 2 ^ 53 ->
        formatDuration other = formatDuration seconds -> other = seconds).
Proof.
  assert (forall s, 0 <= s ->
            durationSeconds (formatDuration s) = s
            /\ splitColon (formatDuration s)
               = (if s <? 3600
                  then [of_number (s / 60); padStart2 (of_number (s mod 60))]
                  else [of_number (s / 3600);
                        padStart2 (of_number ((s mod 3600) / 60));
                        padStart2 (of_number (s mod 60))])) as H.
  { intros s Hs. unfold durationSeconds, formatDuration.
    rewrite !Z.rem_mod_nonneg by lia.
    pose proof (Z.mod_pos_bound s 3600 ltac:(lia)) as Hm.
    pose proof (Z.mod_pos_bound s 60 ltac:(lia)) as Hm'.
    rewrite !of_integer_nonneg by (try apply Z.div_pos; lia).
    destruct (Z.ltb_spec s 3600) as [Hlt|Hge].
    - assert (s / 3600 = 0) as -> by (apply Z.div_small; lia).
      rewrite (Z.mod_small s 3600) by lia. cbn [Z.ltb Z.compare].
      rewrite splitColon_field by apply of_number_digits.
      rewrite splitColon_digits
        by (apply padStart2_digits, of_number_digits).
      split; [|reflexivity]. cbn [fold_left].
      rewrite decimalValue_padStart2, !decimalValue_of_number
        by (try apply Z.div_pos; try apply Z.mod_pos_bound; lia).
      pose proof (Z.div_mod s 60). lia.
    - assert (0 < s / 3600) as Hh
          by (apply Z.div_str_pos; lia).
      apply Z.ltb_lt in Hh. rewrite Hh.
      rewrite splitColon_field by apply of_number_digits.
      rewrite splitColon_field
        by (apply padStart2_digits, of_number_digits).
      rewrite splitColon_digits
        by (apply padStart2_digits, of_number_digits).
      split; [|reflexivity]. cbn [fold_left].
      rewrite !decimalValue_padStart2, !decimalValue_of_number
        by (try apply Z.div_pos; try apply Z.mod_pos_bound; lia).
      Z.to_euclidean_division_equations. lia. }
  intros Hs. destruct (H seconds (proj1 Hs)) as [Hr Hf].
  split; [exact Hr|]. split; [exact Hf|].
  split; [apply padStart2_length|]. split; [apply padStart2_length|].
  intros other Ho E. destruct (H other (proj1 Ho)) as [Hr' _].
  rewrite E, Hr in Hr'. congruence.
Qed.

Lemma formatDuration_reads_back_witness :
  formatDuration 3661 = lit "1:01:01"
  /\ durationSeconds (lit "1:01:01") = 3661.
Proof.
  split; [reflexivity|].
  exact (proj1 (formatDuration_reads_back 3661 ltac:(lia))).
Defined.

Example formatDuration_examples :
  formatDuration 45 = lit "0:45" /\ formatDuration 125 = lit "2:05"
  /\ formatDuration 3661 = lit "1:01:01"
  /\ formatDuration 0 = lit "0:00"
  /\ formatDuration 360000 = lit "100:00:00".
Proof. repeat split; reflexivity. Qed.

(** ** Shape of the options and answers of the analyze route *)

(** X18. Every option of the catalog has audio, and carries either one
    stream identifier or a pair, never both and never none: a pair on the
    split path, with the container [mp4]; one identifier otherwise, with
    the container of the rendition (or [mp4] when it has none) on the
    pre-muxed path, and with [mp3], the label [Audio Only] and resolution
    0 on the audio-only path.  The container is never empty. *)
Theorem catalog_option_shape (formats : list Fmt.t) (o : Opt.t) :
  In o (catalog formats) ->
  Opt.hasAudio o = true
  /\ Opt.format o <> []
  /\ match kindOf o with
     | Split =>
         Opt.itag o = None /\ Opt.videoItag o <> None
         /\ Opt.audioItag o <> None /\ Opt.format o = lit "mp4"
     | Combined =>
         Opt.itag o <> None /\ Opt.videoItag o = None
         /\ Opt.audioItag o = None
         /\ exists f, In f formats
                      /\ Opt.itag o = Some (Fmt.itag f)
                      /\ Opt.format o = or_str (Fmt.container f) (lit "mp4")
                      /\ Opt.mimeType o = Fmt.mimeType f
     | AudioOnly =>
         Opt.itag o <> None /\ Opt.videoItag o = None
         /\ Opt.audioItag o = None /\ Opt.format o = lit "mp3"
         /\ Opt.quality o = lit "Audio Only" /\ Opt.resolution o = 0
         /\ Opt.isHighQuality o = false
     end.
Proof.
  intros Hin. apply catalog_origin in Hin. destruct Hin as (k & Ho).
  destruct Ho as [f label Hf Hc Hq|a v label Ha Hv Hq|a Ha].
  - destruct (combinedOption_shape _ _ Hc Hq) as (_ & _ & _ & -> & _).
    split; [reflexivity|]. split.
    + simpl. destruct (Fmt.container f) as [[|c s]|]; discriminate.
    + simpl. repeat split; try discriminate. exists f. auto.
  - apply videoOnlyFormats_In in Hv. destruct Hv as [_ Hc].
    destruct (highOption_shape a _ _ Hc Hq) as (_ & _ & _ & _ & _ & -> & _).
    simpl. repeat split; discriminate.
  - change (kindOf (audioOnlyOption a)) with AudioOnly.
    simpl. repeat split; discriminate.
Qed.

Lemma catalog_option_shape_witness :
  In sampleHighOption (catalog sampleFormats)
  /\ Opt.hasAudio sampleHighOption = true
  /\ Opt.format sampleHighOption = lit "mp4".
Proof.
  assert (In sampleHighOption (catalog sampleFormats)) as Hin
      by (vm_compute; left; reflexivity).
  destruct (catalog_option_shape sampleFormats sampleHighOption Hin)
    as (Ha & _ & Hk).
  exact (conj Hin (conj Ha (proj2 (proj2 (proj2 Hk))))).
Defined.

Lemma analyze_handleError_status (error : Thrown) :
  In (Analyze.status (Analyze.handleError error)) [403; 404; 500].
Proof.
  destruct error as [message|]; simpl; [|tauto].
  destruct (includes (lit "Video unavailable") message); simpl; [tauto|].
  destruct (includes (lit "age-restricted") message); simpl; tauto.
Qed.

(** X19. The analyze route answers with one of the statuses 200, 400,
    403, 404 and 500.  It answers 200 exactly when the URL is there, is
    accepted, and the metadata lookup succeeds, and the answer then holds
    the catalog of the renditions found; a body that cannot be read is
    answered like a failed lookup, by its message. *)
Theorem analyze_statuses
  (validateURL : jsstring -> bool) (getInfo : jsstring -> Thrown + Info.t)
  (body : Thrown + option jsstring) :
  let response := Analyze.POST validateURL getInfo body in
  In (Analyze.status response) [200; 400; 403; 404; 500]
  /\ (Analyze.status response = 200 <->
      exists c u info,
        body = inr (Some (c :: u)) /\ validateURL (c :: u) = true
        /\ getInfo (c :: u) = inr info
        /\ response = Analyze.JsonVideoInfo (catalog (Info.formats info)))
  /\ (forall error, body = inl error ->
                    response = Analyze.handleError error).
Proof.
  intros response. unfold response, Analyze.POST.
  destruct body as [error|[[|c u]|]].
  - pose proof (analyze_handleError_status error) as He.
    split; [simpl in *; tauto|]. split.
    + split.
      * intros H. rewrite H in He. simpl in He.
        destruct He as [He|[He|[He|[]]]]; discriminate.
      * intros (c & u & info & E & _). discriminate.
    + intros e E. now inversion E.
  - split; [simpl; tauto|]. split; [|discriminate]. split.
    + discriminate.
    + intros (c & u & info & E & _). discriminate.
  - destruct (validateURL (c :: u)) eqn:Ev; simpl.
    + destruct (getInfo (c :: u)) as [error|info] eqn:Ei.
      * pose proof (analyze_handleError_status error) as He.
        split; [simpl in *; tauto|]. split; [|discriminate]. split.
        -- intros H. rewrite H in He. simpl in He.
           destruct He as [He|[He|[He|[]]]]; discriminate.
        -- intros (c' & u' & info' & E & _ & Ei' & _).
           inversion E; subst. congruence.
      * split; [simpl; tauto|]. split; [|discriminate]. split.
        -- intros _. exists c, u, info. auto.
        -- reflexivity.
    + split; [tauto|]. split; [|discriminate]. split.
      * discriminate.
      * intros (c' & u' & info' & E & Hv & _).
        inversion E; subst. congruence.
  - split; [simpl; tauto|]. split; [|discriminate]. split.
    + discriminate.
    + intros (c & u & info & E & _). discriminate.
Qed.

Lemma analyze_statuses_witness :
  Analyze.POST sampleValidateURL sampleGetInfo (inr (Some sampleUrl))
  = Analyze.JsonVideoInfo (catalog sampleFormats).
Proof.
  pose proof (proj1 (proj2 (analyze_statuses sampleValidateURL
                              sampleGetInfo (inr (Some sampleUrl)))))
    as [Hok _].
  destruct (Hok eq_refl) as (c & u & info & E & _ & Ei & Hr).
  inversion Ei; subst. exact Hr.
Defined.
